(** * ZeroForums0: the encrypted-messaging security layer

    A shallow embedding of the security-relevant code of ZeroForums0:
    - [frontend/js/crypto.js]: [CryptoManager] (envelope encryption, signature
      verification, base64 transport encoding) and [Utils.constantTimeEquals];
    - the front-end [AuthManager.validateCaptcha];
    - [backend/crypto/security.ts]: [SecurityManager];
    - [backend/handlers/main.ts]: [parseAndValidateRequest];
    - [backend/types/index.ts]: the error classes and [SECURITY_CONSTANTS].

    Part I continues with further code of the same files and of the two
    translators: the router and the error replies of
    [backend/handlers/main.ts]; the files, request signing and keys of
    [CryptoManager]; [generateUUID], the colour conversions and
    [sanitizeHTML] of [Utils]; the sessions and signed requests of
    [AuthManager]; [frontend/js/i18n.js] and [backend/crypto/i18n.ts].
    Part III holds their properties.

    Platform functions the code calls ([atob], [btoa], [TextEncoder],
    [TextDecoder], [parseInt]) are modelled after their standards; the
    WebCrypto primitives are an interface ([WebCrypto]) whose laws are stated
    where a theorem needs them. *)

From Stdlib Require Import ZArith NArith List Lia ZifyNat String Ascii Bool.
From Stdlib.Strings Require Import Byte.
From stdpp Require Import base option list gmap strings.

(* ================================================================== *)
(** * Part I: definitions                                              *)
(* ================================================================== *)

(** ** JavaScript platform model *)
Module JS.

(** A JavaScript string is a sequence of UTF-16 code units. *)
Definition jsstring : Type := list N.

(** The code units of an ASCII literal. *)
Definition lit (s : string) : jsstring :=
  map N_of_ascii (list_ascii_of_string s).

(** Storing a number into a [Uint8Array] cell keeps its low eight bits. *)
Definition u8 (n : N) : byte :=
  match Byte.of_N (n mod 256) with
  | Some b => b
  | None => x00
  end.

(** *** Base64 ([btoa] / [atob], WHATWG forgiving-base64) *)

Definition b64_alphabet : jsstring :=
  lit "ABCDEFGHIJKLMNOPQRSTUVWXYZabcdefghijklmnopqrstuvwxyz0123456789+/".

Definition b64_char (v : N) : N := nth (N.to_nat v) b64_alphabet 0%N.

Definition b64_value (c : N) : option N :=
  if ((65 <=? c) && (c <=? 90))%N then Some (c - 65)%N
  else if ((97 <=? c) && (c <=? 122))%N then Some (c - 71)%N
  else if ((48 <=? c) && (c <=? 57))%N then Some (c + 4)%N
  else if (c =? 43)%N then Some 62%N
  else if (c =? 47)%N then Some 63%N
  else None.

Definition pad : N := 61%N.

(** Three octets become four sextets; a short final group is padded. *)
Fixpoint b64_encode (l : list N) : jsstring :=
  match l with
  | [] => []
  | [a] =>
      [b64_char (N.shiftr a 2); b64_char (N.shiftl (N.land a 3) 4); pad; pad]
  | [a; b] =>
      [b64_char (N.shiftr a 2);
       b64_char (N.lor (N.shiftl (N.land a 3) 4) (N.shiftr b 4));
       b64_char (N.shiftl (N.land b 15) 2); pad]
  | a :: b :: c :: rest =>
      b64_char (N.shiftr a 2)
      :: b64_char (N.lor (N.shiftl (N.land a 3) 4) (N.shiftr b 4))
      :: b64_char (N.lor (N.shiftl (N.land b 15) 2) (N.shiftr c 6))
      :: b64_char (N.land c 63)
      :: b64_encode rest
  end.

(** [btoa] throws [InvalidCharacterError] on a code unit above 0xFF. *)
Definition btoa (s : jsstring) : option jsstring :=
  if forallb (fun c => c <=? 255)%N s then Some (b64_encode s) else None.

Definition is_ascii_whitespace (c : N) : bool :=
  ((c =? 9) || (c =? 10) || (c =? 12) || (c =? 13) || (c =? 32))%N.

(** Drop one or two trailing ['='] (only applied when the length is a
    multiple of four). *)
Definition strip_padding (s : jsstring) : jsstring :=
  match rev s with
  | p1 :: p2 :: r =>
      if (p1 =? pad)%N then
        if (p2 =? pad)%N then rev r else rev (p2 :: r)
      else s
  | _ => s
  end.

Fixpoint b64_values (s : jsstring) : option (list N) :=
  match s with
  | [] => Some []
  | c :: r =>
      match b64_value c, b64_values r with
      | Some v, Some vs => Some (v :: vs)
      | _, _ => None
      end
  end.

(** Four sextets give three octets; 2 or 3 left-over sextets give 1 or 2
    octets, the surplus low bits being discarded. *)
Fixpoint b64_decode (vs : list N) : list N :=
  match vs with
  | v1 :: v2 :: v3 :: v4 :: rest =>
      N.lor (N.shiftl v1 2) (N.shiftr v2 4)
      :: N.lor (N.shiftl (N.land v2 15) 4) (N.shiftr v3 2)
      :: N.lor (N.shiftl (N.land v3 3) 6) v4
      :: b64_decode rest
  | [v1; v2; v3] =>
      [N.lor (N.shiftl v1 2) (N.shiftr v2 4);
       N.lor (N.shiftl (N.land v2 15) 4) (N.shiftr v3 2)]
  | [v1; v2] => [N.lor (N.shiftl v1 2) (N.shiftr v2 4)]
  | _ => []
  end.

(** Forgiving-base64 decode of data freed of white space. *)
Definition forgiving_decode (data : jsstring) : option jsstring :=
  let data :=
    if (length data mod 4 =? 0)%nat then strip_padding data else data in
  if (length data mod 4 =? 1)%nat then None
  else option_map b64_decode (b64_values data).

(** [atob] throws [InvalidCharacterError] ([None]) on malformed input. *)
Definition atob (s : jsstring) : option jsstring :=
  forgiving_decode (List.filter (fun c => negb (is_ascii_whitespace c)) s).

(** *** Exceptions *)

Inductive exn : Type :=
| DOMException (name : string)
| Error (message : string).

Inductive completion (A : Type) : Type :=
| Return (a : A)
| Throw (e : exn).
Arguments Return {A} a.
Arguments Throw {A} e.

Definition andThen {A B} (m : completion A) (k : A -> completion B) : completion B :=
  match m with
  | Return a => k a
  | Throw e => Throw e
  end.

(** [try { body } catch (error) { handler }] *)
Definition try_catch {A} (body : completion A) (handler : exn -> completion A)
  : completion A :=
  match body with
  | Return a => Return a
  | Throw e => handler e
  end.

Definition of_option {A} (o : option A) (e : exn) : completion A :=
  match o with Some a => Return a | None => Throw e end.

(** [String.fromCharCode] keeps the low sixteen bits. *)
Definition fromCharCode (n : N) : N := (n mod 65536)%N.

(** *** [TextEncoder.prototype.encode]: UTF-16 to scalar values to UTF-8 *)

Definition is_high_surrogate (c : N) : bool := ((55296 <=? c) && (c <=? 56319))%N.
Definition is_low_surrogate (c : N) : bool := ((56320 <=? c) && (c <=? 57343))%N.

Definition REPLACEMENT : N := 65533%N.

(** Conversion to a scalar value string: a surrogate pair is one code point,
    an unpaired surrogate becomes U+FFFD. *)
Fixpoint scalar_values (s : jsstring) : list N :=
  match s with
  | [] => []
  | c :: r =>
      if is_high_surrogate c then
        match r with
        | d :: r' =>
            if is_low_surrogate d
            then (65536 + (c - 55296) * 1024 + (d - 56320))%N :: scalar_values r'
            else REPLACEMENT :: scalar_values r
        | [] => [REPLACEMENT]
        end
      else if is_low_surrogate c then REPLACEMENT :: scalar_values r
      else c :: scalar_values r
  end.

Definition continuation (x : N) : N := N.lor 128 (N.land x 63).

Definition utf8_encode_cp (cp : N) : list N :=
  if (cp <=? 127)%N then [cp]
  else if (cp <=? 2047)%N then
    [(N.shiftr cp 6 + 192)%N; continuation cp]
  else if (cp <=? 65535)%N then
    [(N.shiftr cp 12 + 224)%N; continuation (N.shiftr cp 6); continuation cp]
  else
    [(N.shiftr cp 18 + 240)%N; continuation (N.shiftr cp 12);
     continuation (N.shiftr cp 6); continuation cp].

Definition utf8_encode (cps : list N) : list N := flat_map utf8_encode_cp cps.

Definition TextEncoder_encode (s : jsstring) : list byte :=
  map u8 (utf8_encode (scalar_values s)).

(** *** [TextDecoder.prototype.decode] (UTF-8, replacement error mode,
    [ignoreBOM] false) *)

Record decoder : Type := {
  code_point : N;
  bytes_needed : N;
  bytes_seen : N;
  lower_boundary : N;
  upper_boundary : N
}.

Definition decoder_init : decoder :=
  {| code_point := 0; bytes_needed := 0; bytes_seen := 0;
     lower_boundary := 128; upper_boundary := 191 |}.

(** The handler's step when no continuation byte is pending. *)
Definition utf8_lead (b : N) : decoder * list N :=
  if (b <=? 127)%N then (decoder_init, [b])
  else if ((194 <=? b) && (b <=? 223))%N then
    ({| code_point := N.land b 31; bytes_needed := 1; bytes_seen := 0;
        lower_boundary := 128; upper_boundary := 191 |}, [])
  else if ((224 <=? b) && (b <=? 239))%N then
    ({| code_point := N.land b 15; bytes_needed := 2; bytes_seen := 0;
        lower_boundary := if (b =? 224)%N then 160 else 128;
        upper_boundary := if (b =? 237)%N then 159 else 191 |}, [])
  else if ((240 <=? b) && (b <=? 244))%N then
    ({| code_point := N.land b 7; bytes_needed := 3; bytes_seen := 0;
        lower_boundary := if (b =? 240)%N then 144 else 128;
        upper_boundary := if (b =? 244)%N then 143 else 191 |}, [])
  else (decoder_init, [REPLACEMENT]).

(** One byte: the new decoder state and the code points emitted. A byte
    outside the expected range ends the pending sequence with U+FFFD and is
    then handled again as a lead byte. *)
Definition utf8_step (d : decoder) (b : N) : decoder * list N :=
  if (bytes_needed d =? 0)%N then utf8_lead b
  else if negb ((lower_boundary d <=? b) && (b <=? upper_boundary d))%N then
    let '(d', out) := utf8_lead b in (d', REPLACEMENT :: out)
  else
    let cp := N.lor (N.shiftl (code_point d) 6) (N.land b 63) in
    let seen := (bytes_seen d + 1)%N in
    if (seen =? bytes_needed d)%N then (decoder_init, [cp])
    else
      ({| code_point := cp; bytes_needed := bytes_needed d; bytes_seen := seen;
          lower_boundary := 128; upper_boundary := 191 |}, []).

Fixpoint utf8_run (d : decoder) (bs : list N) : list N :=
  match bs with
  | [] => if (bytes_needed d =? 0)%N then [] else [REPLACEMENT]
  | b :: r => let '(d', out) := utf8_step d b in out ++ utf8_run d' r
  end.

Definition utf8_decode (bs : list N) : list N := utf8_run decoder_init bs.

(** A leading EF BB BF is dropped. *)
Definition strip_bom (bs : list N) : list N :=
  match bs with
  | b1 :: b2 :: b3 :: r =>
      if ((b1 =? 239) && (b2 =? 187) && (b3 =? 191))%N then r else bs
  | _ => bs
  end.

Definition code_units_of (cp : N) : jsstring :=
  if (cp <? 65536)%N then [cp]
  else
    let v := (cp - 65536)%N in
    [(55296 + N.shiftr v 10)%N; (56320 + N.land v 1023)%N].

Definition TextDecoder_decode (bs : list byte) : jsstring :=
  flat_map code_units_of (utf8_decode (strip_bom (map Byte.to_N bs))).

(** A string without unpaired surrogates (and with proper 16-bit units). *)
Fixpoint well_formed (s : jsstring) : bool :=
  match s with
  | [] => true
  | c :: r =>
      if is_high_surrogate c then
        match r with
        | d :: r' => is_low_surrogate d && well_formed r'
        | [] => false
        end
      else negb (is_low_surrogate c) && (c <? 65536)%N && well_formed r
  end.

End JS.

(** ** Back end: [backend/types/index.ts] *)
Module Types.

(** The three error classes, and [TypeError] for every other error, such as
    a JavaScript run-time failure. *)
Inductive error : Type :=
| SecurityError (message code : string)
| AuthenticationError (message : string)
| ValidationError (message : string)
| TypeError (message : string).

Definition is_ValidationError (e : error) : bool :=
  match e with ValidationError _ => true | _ => false end.

(** A parsed JSON value ([any] in the source); an array or object is
    kept as its text. *)
Inductive json : Type :=
| JNull
| JBool (b : bool)
| JNumber (z : Z)
| JString (s : string)
| JCompound (text : string).

(** [APIRequest]. [timestamp] is a JavaScript number: [None] stands for
    [NaN]; every other value [parseInt] can produce is an integer or an
    infinity. *)
Record APIRequest : Type := {
  method : string;
  path : string;
  body : option json;
  headers : gmap string string;
  timestamp : option Z;
  nonce : string;
  signature : string
}.

Record LoginAttempt : Type := {
  la_username : string;
  la_timestamp : Z;
  la_ip : string;
  la_fingerprint : string;
  la_success : bool
}.

(** [SECURITY_CONSTANTS] (the entries the security manager reads). *)
Module SECURITY_CONSTANTS.
Definition SESSION_TIMEOUT : Z := 24 * 60 * 60 * 1000.
Definition CAPTCHA_TIMEOUT : Z := 5 * 60 * 1000.
Definition RATE_LIMIT_WINDOW : Z := 60 * 1000.
Definition RATE_LIMIT_MAX_REQUESTS : Z := 100.
Definition MAX_LOGIN_ATTEMPTS : Z := 3.
Definition LOCKOUT_BASE_DURATION : Z := 24 * 60 * 60 * 1000.
End SECURITY_CONSTANTS.

End Types.

(** ** Back end: [backend/crypto/security.ts] *)
Module SecurityManager.
Import Types.

(** The two static maps of the class. *)
Record state : Type := {
  rateLimitMap : gmap string (list Z);
  loginAttempts : gmap string (list LoginAttempt)
}.

Definition empty_state : state :=
  {| rateLimitMap := ∅; loginAttempts := ∅ |}.

(** A method either returns or throws; what it wrote to the static maps
    before throwing stays written. *)
Definition M (A : Type) : Type := state -> (error + A) * state.

Definition ret {A} (a : A) : M A := fun st => (inr a, st).
Definition throw {A} (e : error) : M A := fun st => (inl e, st).
Definition bind {A B} (m : M A) (k : A -> M B) : M B :=
  fun st =>
    match m st with
    | (inl e, st') => (inl e, st')
    | (inr a, st') => k a st'
    end.

Notation "m >>> k" := (bind m (fun _ => k))
  (at level 100, right associativity).

(** [h[k] || d]: an absent or empty header is falsy. *)
Definition truthy (o : option string) : option string :=
  match o with
  | Some s => if String.eqb s "" then None else Some s
  | None => None
  end.

Definition or_else (o : option string) (d : string) : string :=
  match truthy o with Some s => s | None => d end.

Definition getClientKey (request : APIRequest) : string :=
  let ip :=
    or_else (headers request !! "x-real-ip")
      (or_else (headers request !! "x-forwarded-for") "unknown") in
  let userAgent := or_else (headers request !! "user-agent") "unknown" in
  let fingerprint := or_else (headers request !! "x-fingerprint") "unknown" in
  ip +:+ "|" +:+ userAgent +:+ "|" +:+ fingerprint.

Definition in_rate_window (now ts : Z) : Prop :=
  (now - ts < SECURITY_CONSTANTS.RATE_LIMIT_WINDOW)%Z.

#[global] Instance in_rate_window_dec now ts : Decision (in_rate_window now ts).
Proof. unfold in_rate_window. apply _. Defined.

Definition validateRateLimit (request : APIRequest) (now : Z) : M unit :=
  fun st =>
    let clientKey := getClientKey request in
    let requests := default [] (rateLimitMap st !! clientKey) in
    let requests := filter (in_rate_window now) requests in
    if (SECURITY_CONSTANTS.RATE_LIMIT_MAX_REQUESTS <=? Z.of_nat (length requests))%Z
    then (inl (SecurityError "Rate limit exceeded" "RATE_LIMIT_EXCEEDED"), st)
    else
      (inr tt,
       {| rateLimitMap := <[clientKey := requests ++ [now]]> (rateLimitMap st);
          loginAttempts := loginAttempts st |}).

(** [signature.replace(/_/g, '/').replace(/-/g, '+')] *)
Definition urlsafe_to_std (c : N) : N :=
  if (c =? 95)%N then 47%N else if (c =? 45)%N then 43%N else c.

Definition isValidSignatureFormat (signature : string) : bool :=
  match JS.atob (map urlsafe_to_std (JS.lit signature)) with
  | Some _ => (0 <? String.length signature)%nat
  | None => false
  end.

(** The signed string is rebuilt in the source and then not used: the HMAC
    comparison is commented out, so only the format check decides. *)
Definition validateSignature (request : APIRequest) : M unit :=
  match truthy (headers request !! "x-signature") with
  | None => throw (SecurityError "Missing signature" "MISSING_SIGNATURE")
  | Some signature =>
      if isValidSignatureFormat signature then ret tt
      else throw (SecurityError "Invalid signature format" "INVALID_SIGNATURE")
  end.

Definition DAY : Z := 24 * 60 * 60 * 1000.

Definition in_day_window (now : Z) (a : LoginAttempt) : Prop :=
  (now - la_timestamp a < DAY)%Z.

#[global] Instance in_day_window_dec now a : Decision (in_day_window now a).
Proof. unfold in_day_window. apply _. Defined.

Definition failed (a : LoginAttempt) : Prop := la_success a = false.

#[global] Instance failed_dec a : Decision (failed a).
Proof. unfold failed. apply _. Defined.

(** [Math.pow(3, n - 3) * LOCKOUT_BASE_DURATION] for [n >= 3]. *)
Definition lockoutDuration (n : nat) : Z :=
  (3 ^ Z.of_nat (n - 3) * SECURITY_CONSTANTS.LOCKOUT_BASE_DURATION)%Z.

Definition validateBruteForce (request : APIRequest) (now : Z) : M unit :=
  fun st =>
    if negb (String.eqb (path request) "/api/auth/login") then (inr tt, st)
    else
      let clientKey := getClientKey request in
      let attempts := default [] (loginAttempts st !! clientKey) in
      let attempts := filter (in_day_window now) attempts in
      let failedAttempts := filter failed attempts in
      if (SECURITY_CONSTANTS.MAX_LOGIN_ATTEMPTS <=? Z.of_nat (length failedAttempts))%Z
      then
        match last failedAttempts with
        | Some lastFailed =>
            let lockoutUntil :=
              (la_timestamp lastFailed + lockoutDuration (length failedAttempts))%Z in
            if (now <? lockoutUntil)%Z
            then (inl (AuthenticationError
                   "Account temporarily locked due to too many failed login attempts"), st)
            else (inr tt, st)
        | None => (inl (TypeError "lastFailed is undefined"), st)
        end
      else (inr tt, st).

Definition is_hex (c : ascii) : bool :=
  let n := N_of_ascii c in
  (((48 <=? n) && (n <=? 57)) || ((97 <=? n) && (n <=? 102))
   || ((65 <=? n) && (n <=? 70)))%N.

Definition is_dash (c : ascii) : bool := (N_of_ascii c =? 45)%N.

Definition is_version (c : ascii) : bool :=
  let n := N_of_ascii c in ((49 <=? n) && (n <=? 53))%N.

Definition is_variant (c : ascii) : bool :=
  let n := N_of_ascii c in
  ((n =? 56) || (n =? 57) || (n =? 97) || (n =? 98) || (n =? 65) || (n =? 66))%N.

(** One character class per position of
    [/^[0-9a-f]{8}-[0-9a-f]{4}-[1-5][0-9a-f]{3}-[89ab][0-9a-f]{3}-[0-9a-f]{12}$/i]. *)
Definition uuid_shape : list (ascii -> bool) :=
  repeat is_hex 8 ++ [is_dash] ++ repeat is_hex 4 ++ [is_dash]
  ++ [is_version] ++ repeat is_hex 3 ++ [is_dash]
  ++ [is_variant] ++ repeat is_hex 3 ++ [is_dash] ++ repeat is_hex 12.

Fixpoint matches_shape (shape : list (ascii -> bool)) (s : list ascii) : bool :=
  match shape, s with
  | [], [] => true
  | p :: shape', c :: s' => p c && matches_shape shape' s'
  | _, _ => false
  end.

Definition isValidSessionToken (token : string) : bool :=
  matches_shape uuid_shape (list_ascii_of_string token).

Definition validateSession (request : APIRequest) : M unit :=
  match truthy (headers request !! "x-session-token") with
  | None => throw (AuthenticationError "Missing session token")
  | Some sessionToken =>
      if isValidSessionToken sessionToken then ret tt
      else throw (AuthenticationError "Invalid session token format")
  end.

Definition publicEndpoints : list string :=
  ["/api/auth/register"; "/api/auth/login"; "/api/auth/captcha"; "/api/health"].

Definition requiresAuthentication (path : string) : bool :=
  negb (existsb (String.eqb path) publicEndpoints).

(** [Date.now()] is read once by the rate limiter ([now_rate]) and once by
    the brute-force check ([now_login]). *)
Definition validateRequest (request : APIRequest) (now_rate now_login : Z) : M unit :=
  validateRateLimit request now_rate >>>
  validateSignature request >>>
  validateBruteForce request now_login >>>
  if requiresAuthentication (path request) then validateSession request
  else ret tt.

Definition recordLoginAttempt (username : string) (success : bool)
    (request : APIRequest) (now : Z) : M unit :=
  fun st =>
    let clientKey := getClientKey request in
    let attempt :=
      {| la_username := username;
         la_timestamp := now;
         la_ip := or_else (headers request !! "x-real-ip") "unknown";
         la_fingerprint := or_else (headers request !! "x-fingerprint") "unknown";
         la_success := success |} in
    let attempts := default [] (loginAttempts st !! clientKey) in
    (inr tt,
     {| rateLimitMap := rateLimitMap st;
        loginAttempts := <[clientKey := attempts ++ [attempt]]> (loginAttempts st) |}).

(** The sweep of the scheduled worker: every list is pruned to its window,
    and a key whose list becomes empty is deleted. *)
Definition prune {A} (keep : A -> Prop) `{forall x, Decision (keep x)}
    (m : gmap string (list A)) : gmap string (list A) :=
  omap (fun l => match filter keep l with [] => None | l' => Some l' end) m.

Definition cleanupExpiredData (now : Z) : M unit :=
  fun st =>
    (inr tt,
     {| rateLimitMap := prune (in_rate_window now) (rateLimitMap st);
        loginAttempts := prune (in_day_window now) (loginAttempts st) |}).

End SecurityManager.


(** ** Back end: [backend/handlers/main.ts] *)
Module Handlers.
Import Types.

(** What the handler reads of a Fetch [Request]: the method, the path of its
    URL, its headers (a [Headers] object yields lower-case names), whether it
    has a body stream, and what [request.json()] resolves to ([None] when it
    rejects). *)
Record Request : Type := {
  r_method : string;
  r_pathname : string;
  r_headers : gmap string string;
  r_has_body : bool;
  r_json : option json
}.

(** *** [parseInt] without a radix *)

Definition is_str_whitespace (c : ascii) : bool :=
  let n := N_of_ascii c in
  (((9 <=? n) && (n <=? 13)) || (n =? 32) || (n =? 160))%N.

Fixpoint skip_whitespace (s : list ascii) : list ascii :=
  match s with
  | c :: r => if is_str_whitespace c then skip_whitespace r else s
  | [] => []
  end.

Definition digit_value (radix : Z) (c : ascii) : option Z :=
  let n := Z.of_N (N_of_ascii c) in
  let v :=
    if ((48 <=? n) && (n <=? 57))%Z then Some (n - 48)%Z
    else if ((97 <=? n) && (n <=? 122))%Z then Some (n - 87)%Z
    else if ((65 <=? n) && (n <=? 90))%Z then Some (n - 55)%Z
    else None in
  match v with
  | Some d => if (d <? radix)%Z then Some d else None
  | None => None
  end.

(** The longest prefix of digits, accumulated left to right; [None] when
    there is no digit at all. *)
Fixpoint parse_digits (radix : Z) (acc : option Z) (s : list ascii) : option Z :=
  match s with
  | c :: r =>
      match digit_value radix c with
      | Some d => parse_digits radix (Some (default 0%Z acc * radix + d)%Z) r
      | None => acc
      end
  | [] => acc
  end.

(** The Number nearest to an integer: 53 significant bits are kept and the
    rest is rounded, a tie going to the even significand.  An integer below
    [2 ^ 53] in size is itself.  (Beyond [2 ^ 1024] the Number is an
    infinity, which the integer stands for here: both are further from any
    clock than any window.) *)
Definition to_double (z : Z) : Z :=
  let a := Z.abs z in
  if (a <? 2 ^ 53)%Z then z
  else
    let dropped := (Z.log2 a - 52)%Z in
    let significand := Z.shiftr a dropped in
    let rest := (a - Z.shiftl significand dropped)%Z in
    let half := Z.shiftl 1 (dropped - 1) in
    let rounded :=
      if (half <? rest)%Z || ((rest =? half)%Z && Z.odd significand)
      then (significand + 1)%Z else significand in
    (Z.sgn z * Z.shiftl rounded dropped)%Z.

Definition parseInt (str : string) : option Z :=
  let s := skip_whitespace (list_ascii_of_string str) in
  let '(sign, s) :=
    match s with
    | "-"%char :: r => ((-1)%Z, r)
    | "+"%char :: r => (1%Z, r)
    | _ => (1%Z, s)
    end in
  let '(radix, s) :=
    match s with
    | "0"%char :: "x"%char :: r => (16%Z, r)
    | "0"%char :: "X"%char :: r => (16%Z, r)
    | _ => (10%Z, s)
    end in
  option_map (fun mathInt => to_double (sign * mathInt)%Z)
    (parse_digits radix None s).

Definition includes (s sub : string) : bool :=
  match String.index 0 sub s with Some _ => true | None => false end.

Definition FIVE_MINUTES : Z := 5 * 60 * 1000.

(** [Math.abs(now - timestamp) > 5 * 60 * 1000]; every comparison with [NaN]
    is false. *)
Definition skew_exceeded (now : Z) (timestamp : option Z) : bool :=
  match timestamp with
  | Some t => (FIVE_MINUTES <? Z.abs (now - t))%Z
  | None => false
  end.

Definition parseAndValidateRequest (request : Request) (now : Z)
  : error + APIRequest :=
  let headers := r_headers request in
  match SecurityManager.truthy (headers !! "content-type") with
  | None => inl (ValidationError "Missing Content-Type header")
  | Some contentType =>
  match SecurityManager.truthy (headers !! "x-timestamp") with
  | None => inl (ValidationError "Missing timestamp header")
  | Some xTimestamp =>
  match SecurityManager.truthy (headers !! "x-nonce") with
  | None => inl (ValidationError "Missing nonce header")
  | Some xNonce =>
  match SecurityManager.truthy (headers !! "x-signature") with
  | None => inl (ValidationError "Missing signature header")
  | Some xSignature =>
      let parsed : error + option json :=
        if r_has_body request && includes contentType "application/json" then
          match r_json request with
          | Some v => inr (Some v)
          | None => inl (ValidationError "Invalid JSON body")
          end
        else inr None in
      match parsed with
      | inl e => inl e
      | inr body =>
          let timestamp := parseInt xTimestamp in
          if skew_exceeded now timestamp
          then inl (ValidationError "Timestamp too old or too far in future")
          else inr {| method := r_method request;
                      path := r_pathname request;
                      body := body;
                      headers := headers;
                      timestamp := timestamp;
                      nonce := xNonce;
                      signature := xSignature |}
      end
  end end end end.

(** The validation prefix of [handleRequest]: parse, then
    [SecurityManager.validateRequest]; the three [now] arguments are the
    successive readings of [Date.now()]. *)
Definition validateIncoming (request : Request) (now_parse now_rate now_login : Z)
  : SecurityManager.M APIRequest :=
  fun st =>
    match parseAndValidateRequest request now_parse with
    | inl e => (inl e, st)
    | inr api =>
        match SecurityManager.validateRequest api now_rate now_login st with
        | (inl e, st') => (inl e, st')
        | (inr _, st') => (inr api, st')
        end
    end.

End Handlers.


(** ** Front end: [frontend/js/crypto.js] *)

(** The WebCrypto operations the manager calls. A primitive that rejects
    (wrong key usage, failed authentication tag, malformed key data) throws. *)
Class WebCrypto : Type := {
  CryptoKey : Type;
  (** [crypto.subtle.encrypt({name: 'AES-GCM', iv, additionalData, tagLength: 128}, key, data)] *)
  aes_gcm_encrypt : CryptoKey -> list byte -> list byte -> list byte -> JS.completion (list byte);
  (** [crypto.subtle.decrypt] with the same parameters *)
  aes_gcm_decrypt : CryptoKey -> list byte -> list byte -> list byte -> JS.completion (list byte);
  (** [crypto.subtle.importKey('spki', bytes, {name: 'RSA-OAEP', hash: SHA-256}, false, ['verify'])] *)
  importKey_spki : list byte -> JS.completion CryptoKey;
  (** [crypto.subtle.verify({name: 'RSA-PSS', saltLength: 32}, key, signature, data)] *)
  rsa_pss_verify : CryptoKey -> list byte -> list byte -> JS.completion bool
}.

(** What AES-GCM decrypts is what it encrypted, under the same key, nonce and
    additional data. *)
Class AeadCorrect (wc : WebCrypto) : Prop :=
  decrypt_encrypt :
    forall key iv ad data ct,
      aes_gcm_encrypt key iv ad data = JS.Return ct ->
      aes_gcm_decrypt key iv ad ct = JS.Return data.

Module CryptoManager.
Import JS.

Record manager : Type := { isInitialized : bool }.

Record envelope : Type := {
  ciphertext : jsstring;
  iv : jsstring;
  salt : jsstring;
  algorithm : jsstring
}.

Definition arrayBufferToBase64 (buffer : list byte) : completion jsstring :=
  let binary := map (fun b => fromCharCode (Byte.to_N b)) buffer in
  of_option (btoa binary) (DOMException "InvalidCharacterError").

Definition base64ToArrayBuffer (base64 : jsstring) : completion (list byte) :=
  andThen (of_option (atob base64) (DOMException "InvalidCharacterError"))
    (fun binaryString => Return (map u8 binaryString)).

Section WithWebCrypto.
Context {wc : WebCrypto}.

(** [iv_random] and [salt_random] are what the two calls of
    [crypto.getRandomValues] deliver (12 and 16 octets). *)
Definition encryptMessage (this : manager) (message : jsstring)
    (sharedSecret : CryptoKey) (conversationId : jsstring)
    (iv_random salt_random : list byte) : completion envelope :=
  try_catch
    (if negb (isInitialized this) then Throw (Error "CryptoManager not initialized")
     else
       let data := TextEncoder_encode message in
       andThen (aes_gcm_encrypt sharedSecret iv_random
                  (TextEncoder_encode conversationId) data) (fun encrypted =>
       andThen (arrayBufferToBase64 encrypted) (fun c =>
       andThen (arrayBufferToBase64 iv_random) (fun i =>
       andThen (arrayBufferToBase64 salt_random) (fun s =>
       Return {| ciphertext := c; iv := i; salt := s;
                 algorithm := lit "AES-GCM" |})))))
    (fun _ => Throw (Error "Failed to encrypt message")).

Definition decryptMessage (this : manager) (encryptedData : envelope)
    (sharedSecret : CryptoKey) (conversationId : jsstring) : completion jsstring :=
  try_catch
    (if negb (isInitialized this) then Throw (Error "CryptoManager not initialized")
     else
       andThen (base64ToArrayBuffer (ciphertext encryptedData)) (fun ct =>
       andThen (base64ToArrayBuffer (iv encryptedData)) (fun nonce =>
       andThen (aes_gcm_decrypt sharedSecret nonce
                  (TextEncoder_encode conversationId) ct) (fun decrypted =>
       Return (TextDecoder_decode decrypted)))))
    (fun _ => Throw (Error "Failed to decrypt message")).

(** [data] is a string or a byte buffer; [publicKey] is a key handle or a
    base64 SPKI string. *)
Definition verifySignature (data : jsstring + list byte) (signature : jsstring)
    (publicKey : CryptoKey + jsstring) : completion bool :=
  try_catch
    (let dataArray :=
       match data with inl str => TextEncoder_encode str | inr buf => buf end in
     andThen (base64ToArrayBuffer signature) (fun signatureArray =>
     andThen
       (match publicKey with
        | inl key => Return key
        | inr serialized =>
            andThen (base64ToArrayBuffer serialized) importKey_spki
        end) (fun publicKeyObj =>
     andThen (rsa_pss_verify publicKeyObj signatureArray dataArray) (fun isValid =>
     Return isValid))))
    (fun _ => Return false).

End WithWebCrypto.
End CryptoManager.

(** [Utils] of [frontend/js/crypto.js] *)
Module Utils.
Import JS.

(** The loop [result |= a.charCodeAt(i) ^ b.charCodeAt(i)] over two strings
    of one length. *)
Fixpoint accumulate (result : N) (a b : jsstring) : N :=
  match a, b with
  | x :: a', y :: b' => accumulate (N.lor result (N.lxor x y)) a' b'
  | _, _ => result
  end.

Definition constantTimeEquals (a b : jsstring) : bool :=
  if negb (length a =? length b)%nat then false
  else (accumulate 0 a b =? 0)%N.

End Utils.

(** ** Front end: [AuthManager] *)
Module AuthManager.
Import JS.

(** An entry of [captchaTokens]. [solution] comes from the server response:
    [None] when it is not a string. *)
Record captchaData : Type := {
  challenge : jsstring;
  solution : option jsstring;
  createdAt : Z;
  used : bool
}.

Definition mark_used (d : captchaData) : captchaData :=
  {| challenge := challenge d; solution := solution d;
     createdAt := createdAt d; used := true |}.

(** The store made by [getCaptcha] for a successful response. *)
Definition storeCaptcha (token challenge : jsstring) (solution : option jsstring)
    (now : Z) (tokens : gmap jsstring captchaData) : gmap jsstring captchaData :=
  <[token := {| challenge := challenge; solution := solution;
                createdAt := now; used := false |}]> tokens.

(** What [userInput.toLowerCase()] returns, when it returns: a string, or
    another value, given by what [constantTimeEquals] then makes of it and a
    string (it reads the value's [length] and calls its [charCodeAt]). *)
Inductive lowered : Type :=
| LowerString (s : jsstring)
| LowerOther (equals : jsstring -> completion bool).

(** A value passed as [userInput]. The method is called on whatever is
    passed: on a string or a [String] object it is
    [String.prototype.toLowerCase]; any other value is given by the outcome
    of calling its [toLowerCase], a [TypeError] where it has none. What the
    value's own methods do is taken to leave the manager alone. *)
Inductive answer : Type :=
| Text (s : jsstring)
| Other (lowers : completion lowered).

(** A value without a [toLowerCase] method: [null], a number, a plain
    object. *)
Definition not_lowerable : answer :=
  Other (Throw (Error "userInput.toLowerCase is not a function")).

Section WithLowerCase.
(** [String.prototype.toLowerCase] *)
Variable toLowerCase : jsstring -> jsstring.

Definition lower (userInput : answer) : completion lowered :=
  match userInput with
  | Text s => Return (LowerString (toLowerCase s))
  | Other lowers => lowers
  end.

(** [this.utils.constantTimeEquals(a, b)] for a string [b] *)
Definition equal_to (a : lowered) (b : jsstring) : completion bool :=
  match a with
  | LowerString s => Return (Utils.constantTimeEquals s b)
  | LowerOther equals => equals b
  end.

(** The whole body stands in [try], and the catch clause returns [false]:
    so it is when a [toLowerCase] or the comparison throws ([solution] that
    is no string has no such method). The entry is an object held by the
    map, so setting [used] updates the map. *)
Definition validateCaptcha (userInput : answer) (token : jsstring)
    (now : Z) (tokens : gmap jsstring captchaData)
  : bool * gmap jsstring captchaData :=
  match tokens !! token with
  | None => (false, tokens)
  | Some captchaData =>
      if used captchaData || (5 * 60 * 1000 <? now - createdAt captchaData)%Z
      then (false, tokens)
      else
        match
          andThen (lower userInput) (fun a =>
          andThen (of_option (solution captchaData)
                     (Error "captchaData.solution.toLowerCase is not a function"))
            (fun sol => equal_to a (toLowerCase sol)))
        with
        | Return isValid =>
            (isValid,
             if isValid then <[token := mark_used captchaData]> tokens else tokens)
        | Throw _ => (false, tokens)
        end
  end.

End WithLowerCase.
End AuthManager.

(* ------------------------------------------------------------------ *)
(** * Part I, continued: further code of the same files                *)
(* ------------------------------------------------------------------ *)

(** ** [backend/handlers/main.ts]: routing and error replies *)
Module Router.
Import Types.

(** [s.startsWith(p)], [s.endsWith(p)] *)
Definition startsWith (s p : string) : bool := String.prefix p s.

Definition endsWith (s p : string) : bool :=
  String.prefix (string_of_list_ascii (rev (list_ascii_of_string p)))
    (string_of_list_ascii (rev (list_ascii_of_string s))).

(** [s.split('/')]: the pieces between the slashes, [current] being the
    piece under way. *)
Fixpoint split_from (current : list ascii) (s : list ascii) : list string :=
  match s with
  | [] => [string_of_list_ascii (rev current)]
  | c :: r =>
      if Ascii.eqb c "/" then string_of_list_ascii (rev current) :: split_from [] r
      else split_from (c :: current) r
  end.

Definition split (s : string) : list string :=
  split_from [] (list_ascii_of_string s).

(** [path.split('/').pop()] and [path.split('/')[3]]; [None] is
    [undefined]. *)
Definition pop (pieces : list string) : option string := last pieces.
Definition at3 (pieces : list string) : option string := pieces !! 3%nat.

(** The handler a request is passed to, with the identifier cut out of the
    path. The handlers themselves are other modules. *)
Inductive target : Type :=
| AuthHandler_register
| AuthHandler_login
| AuthHandler_logout
| AuthHandler_getCaptcha
| ChatHandler_getConversations
| ChatHandler_createConversation
| ChatHandler_getConversation (conversationId : string)
| ChatHandler_sendMessage (conversationId : string)
| ChatHandler_deleteConversation (conversationId : string)
| ChatHandler_getMessage (messageId : string)
| ChatHandler_deleteMessage (messageId : string)
| ForumHandler_getPosts
| ForumHandler_createPost
| ForumHandler_getPost (postId : string)
| ForumHandler_updatePost (postId : string)
| ForumHandler_deletePost (postId : string)
| ForumHandler_getReplies (postId : string)
| ForumHandler_createReply (postId : string)
| handleWipeRequest
| health.

Definition NOT_ALLOWED : error := ValidationError "Method not allowed".

(** [if (method !== m) throw ...; return h] *)
Definition only (method m : string) (h : target) : error + target :=
  if String.eqb method m then inr h else inl NOT_ALLOWED.

(** [!id]: the identifier is [undefined] or empty. *)
Definition with_id (id : option string) (message : string)
    (k : string -> error + target) : error + target :=
  match SecurityManager.truthy id with
  | None => inl (ValidationError message)
  | Some i => k i
  end.

(** The dispatch of [routeRequest]: the handler a request is passed to, or
    the error thrown before any handler is called.  What awaiting that
    handler gives is [routeRequest_awaited] below. *)
Definition routeRequest (method path : string) : error + target :=
  if String.eqb path "/api/auth/register" then only method "POST" AuthHandler_register
  else if String.eqb path "/api/auth/login" then only method "POST" AuthHandler_login
  else if String.eqb path "/api/auth/logout" then only method "POST" AuthHandler_logout
  else if String.eqb path "/api/auth/captcha" then only method "GET" AuthHandler_getCaptcha
  else if String.eqb path "/api/chat/conversations" then
    if String.eqb method "GET" then inr ChatHandler_getConversations
    else if String.eqb method "POST" then inr ChatHandler_createConversation
    else inl NOT_ALLOWED
  else if startsWith path "/api/chat/conversation/" then
    with_id (pop (split path)) "Invalid conversation ID" (fun conversationId =>
      if String.eqb method "GET" then inr (ChatHandler_getConversation conversationId)
      else if String.eqb method "POST" then inr (ChatHandler_sendMessage conversationId)
      else if String.eqb method "DELETE" then inr (ChatHandler_deleteConversation conversationId)
      else inl NOT_ALLOWED)
  else if startsWith path "/api/chat/messages/" then
    with_id (pop (split path)) "Invalid message ID" (fun messageId =>
      if String.eqb method "GET" then inr (ChatHandler_getMessage messageId)
      else if String.eqb method "DELETE" then inr (ChatHandler_deleteMessage messageId)
      else inl NOT_ALLOWED)
  else if String.eqb path "/api/forum/posts" then
    if String.eqb method "GET" then inr ForumHandler_getPosts
    else if String.eqb method "POST" then inr ForumHandler_createPost
    else inl NOT_ALLOWED
  else if startsWith path "/api/forum/post/" then
    with_id (pop (split path)) "Invalid post ID" (fun postId =>
      if String.eqb method "GET" then inr (ForumHandler_getPost postId)
      else if String.eqb method "PUT" then inr (ForumHandler_updatePost postId)
      else if String.eqb method "DELETE" then inr (ForumHandler_deletePost postId)
      else inl NOT_ALLOWED)
  else if startsWith path "/api/forum/post/" && endsWith path "/replies" then
    with_id (at3 (split path)) "Invalid post ID" (fun postId =>
      if String.eqb method "GET" then inr (ForumHandler_getReplies postId)
      else if String.eqb method "POST" then inr (ForumHandler_createReply postId)
      else inl NOT_ALLOWED)
  else if String.eqb path "/api/wipe" then only method "POST" handleWipeRequest
  else if String.eqb path "/api/health" then only method "GET" health
  else inl (ValidationError "Endpoint not found").

(** [error.name] and [error.message] *)
Definition error_name (e : error) : string :=
  match e with
  | SecurityError _ _ => "SecurityError"
  | AuthenticationError _ => "AuthenticationError"
  | ValidationError _ => "ValidationError"
  | TypeError _ => "TypeError"
  end.

Definition error_message (e : error) : string :=
  match e with
  | SecurityError m _ | AuthenticationError m | ValidationError m | TypeError m => m
  end.

(** The reply made by [createErrorResponse]: status, [X-Error-Code] header
    and the [error] and [timestamp] fields of the body ([success] is
    [false]). *)
Record ErrorResponse : Type := {
  status : Z;
  x_error_code : string;
  body_error : string;
  body_timestamp : Z
}.

Definition createErrorResponse (message code : string) (statusCode now : Z)
  : ErrorResponse :=
  {| status := statusCode; x_error_code := code; body_error := message;
     body_timestamp := now |}.

(** The [catch] of [handleRequest]. *)
Definition handleError (e : error) (now : Z) : ErrorResponse :=
  match e with
  | SecurityError _ _ | AuthenticationError _ | ValidationError _ =>
      createErrorResponse (error_message e) (error_name e) 400 now
  | TypeError _ =>
      createErrorResponse "Internal server error" "InternalServerError" 500 now
  end.

(** *** What the handlers reply *)

(** [!v] for a parsed JSON value, [None] being [undefined]. *)
Definition falsy (v : option json) : bool :=
  match v with
  | None | Some JNull => true
  | Some (JBool b) => negb b
  | Some (JNumber z) => (z =? 0)%Z
  | Some (JString s) => String.eqb s EmptyString
  | Some (JCompound _) => false
  end.

Section WithHandlers.

(** The responses of [AuthHandler], [ChatHandler] and [ForumHandler], whose
    code is in other modules: what awaiting a handler gives (for the
    arguments [routeRequest] passes it, in the store as it is then), and what
    [JSON.stringify] makes of a response of theirs. *)
Variable Reply : Type.
Variable handler : target -> option json -> error + Reply.
Variable JSON_stringify : Reply -> error + string.

(** [o[name]] for an object or array kept as its text. *)
Variable property : string -> string -> option json.

(** An [APIResponse]: that of the health endpoint, that of
    [handleWipeRequest], or one made in another module. *)
Inductive APIResponse : Type :=
| Healthy (now : Z)
| WipeInitiated (now : Z)
| FromHandler (response : Reply).

(** [body.confirmation]; a number, string or boolean has no such property. *)
Definition confirmation (body : option json) : option json :=
  match body with
  | Some (JCompound text) => property text "confirmation"
  | _ => None
  end.

Definition is_string (v : option json) (s : string) : bool :=
  match v with Some (JString c) => String.eqb c s | _ => false end.

(** [handleWipeRequest(body, env)] *)
Definition run_handleWipeRequest (body : option json) (now : Z)
  : error + APIResponse :=
  if falsy body || falsy (confirmation body)
     || negb (is_string (confirmation body) "WIPE_EVERYTHING")
  then inl (ValidationError "Wipe request requires confirmation")
  else inr (WipeInitiated now).

(** [routeRequest(apiRequest, env, ctx)] with the handler awaited. *)
Definition routeRequest_awaited (method path : string) (body : option json)
    (now : Z) : error + APIResponse :=
  match routeRequest method path with
  | inl e => inl e
  | inr health => inr (Healthy now)
  | inr handleWipeRequest => run_handleWipeRequest body now
  | inr h =>
      match handler h body with
      | inl e => inl e
      | inr response => inr (FromHandler response)
      end
  end.

(** What [handleRequest] resolves to: the response with status 200 and the
    security headers, or an error response. *)
Inductive Response : Type :=
| Secured (response : APIResponse)
| Refused (response : ErrorResponse).

Definition response_status (r : Response) : Z :=
  match r with
  | Secured _ => 200
  | Refused response => status response
  end.

(** [addSecurityHeaders(response)]: [JSON.stringify] is applied to the
    response; the two responses made in this module are plain data. *)
Definition addSecurityHeaders (response : APIResponse) : error + Response :=
  match response with
  | FromHandler r =>
      match JSON_stringify r with
      | inl e => inl e
      | inr _ => inr (Secured response)
      end
  | _ => inr (Secured response)
  end.

(** [handleRequest(request, env, ctx)]; [now_handler] is the clock as the
    handler reads it, [now] as [createErrorResponse] does. *)
Definition handleRequest (request : Handlers.Request)
    (now_parse now_rate now_login now_handler now : Z)
    (st : SecurityManager.state) : Response :=
  match Handlers.validateIncoming request now_parse now_rate now_login st with
  | (inl e, _) => Refused (handleError e now)
  | (inr apiRequest, _) =>
      match routeRequest_awaited (method apiRequest) (path apiRequest)
              (body apiRequest) now_handler with
      | inl e => Refused (handleError e now)
      | inr response =>
          match addSecurityHeaders response with
          | inl e => Refused (handleError e now)
          | inr r => r
          end
      end
  end.

End WithHandlers.

Arguments Healthy {Reply} now.
Arguments WipeInitiated {Reply} now.
Arguments FromHandler {Reply} response.
Arguments Secured {Reply} response.
Arguments Refused {Reply} response.
Arguments response_status {Reply} r.

End Router.


(** ** Numbers as strings, identifiers and colours ([Utils]) *)
Module Numbers.
Import JS.

(** The digit characters of [Number.prototype.toString]. *)
Definition digit_char (d : N) : N :=
  nth (N.to_nat d) (lit "0123456789abcdefghijklmnopqrstuvwxyz") 48%N.

(** The digits of [n], most significant first, in front of [acc]. *)
Fixpoint digits_fuel (fuel : nat) (radix n : N) (acc : list N) : list N :=
  match fuel with
  | O => acc
  | S fuel' =>
      let acc' := (n mod radix)%N :: acc in
      if (n / radix =? 0)%N then acc'
      else digits_fuel fuel' radix (n / radix)%N acc'
  end.

Definition digits (radix n : N) : list N :=
  digits_fuel (S (N.to_nat (N.log2 n))) radix n [].

(** [n.toString(radix)] for a non-negative integer [n]. *)
Definition toString (radix n : N) : jsstring := map digit_char (digits radix n).

(** [z.toString()] for an integer [z]. *)
Definition toString_Z (z : Z) : jsstring :=
  if (z <? 0)%Z then 45%N :: toString 10 (Z.to_N (- z)) else toString 10 (Z.to_N z).

(** A string of Latin-1 code units as the byte string of a header value. *)
Definition to_header (s : jsstring) : string :=
  string_of_list_ascii (map ascii_of_N s).

(** [parseInt(s, radix)] with an explicit radix between 2 and 36. *)
Definition parseInt_radix (radix : Z) (s : list ascii) : option Z :=
  let s := Handlers.skip_whitespace s in
  let '(sign, s) :=
    match s with
    | "-"%char :: r => ((-1)%Z, r)
    | "+"%char :: r => (1%Z, r)
    | _ => (1%Z, s)
    end in
  let s :=
    if (radix =? 16)%Z then
      match s with
      | "0"%char :: "x"%char :: r => r
      | "0"%char :: "X"%char :: r => r
      | _ => s
      end
    else s in
  option_map (Z.mul sign) (Handlers.parse_digits radix None s).

End Numbers.

Module UtilsMore.
Import JS Numbers.

(** [generateUUID]: each [x] of the template becomes the hexadecimal digit of
    a draw [Math.random() * 16 | 0], the [y] that of [(r & 0x3 | 0x8)];
    [random i] stands for the [i]-th draw, reduced to 0..15. *)
Section WithRandom.
Variable random : nat -> N.

Fixpoint fill (template : jsstring) (i : nat) : jsstring :=
  match template with
  | [] => []
  | c :: t =>
      let r := (random i mod 16)%N in
      if (c =? 120)%N then digit_char r :: fill t (S i)
      else if (c =? 121)%N then digit_char (N.lor (N.land r 3) 8) :: fill t (S i)
      else c :: fill t i
  end.

Definition generateUUID : jsstring :=
  fill (lit "xxxxxxxx-xxxx-4xxx-yxxx-xxxxxxxxxxxx") 0.

End WithRandom.

Record rgb : Type := { r : Z; g : Z; b : Z }.

Definition is_hex_unit (c : N) : bool :=
  (c <? 256)%N && SecurityManager.is_hex (ascii_of_N c).

(** [/^#?([a-f\d]{2})([a-f\d]{2})([a-f\d]{2})$/i.exec(hex)] and the three
    [parseInt(_, 16)]; [None] is [null]. *)
Definition hexToRgb (hex : jsstring) : option rgb :=
  let body := match hex with 35%N :: rest => rest | _ => hex end in
  match body with
  | [c1; c2; c3; c4; c5; c6] =>
      if forallb is_hex_unit body then
        match parseInt_radix 16 (map ascii_of_N [c1; c2]),
              parseInt_radix 16 (map ascii_of_N [c3; c4]),
              parseInt_radix 16 (map ascii_of_N [c5; c6]) with
        | Some x, Some y, Some z => Some {| r := x; g := y; b := z |}
        | _, _, _ => None
        end
      else None
  | _ => None
  end.

(** Two hexadecimal digits of a colour channel, padded with a zero. *)
Definition channel (x : N) : jsstring :=
  let hex := toString 16 x in
  if (length hex =? 1)%nat then 48%N :: hex else hex.

Definition rgbToHex (r g b : N) : jsstring :=
  35%N :: channel r ++ channel g ++ channel b.

End UtilsMore.


(** ** Front end: files, request signing and keys of [CryptoManager] *)

(** The further WebCrypto operations the manager calls. *)
Class WebCryptoSigning (wc : WebCrypto) : Type := {
  (** [crypto.subtle.sign({name: 'RSA-PSS', saltLength: 32}, key, data)] *)
  rsa_pss_sign : CryptoKey -> list byte -> JS.completion (list byte);
  (** [crypto.subtle.importKey('raw', bytes, {name: 'HMAC', hash: SHA-256}, false, ['sign'])] *)
  importKey_hmac : list byte -> JS.completion CryptoKey;
  (** [crypto.subtle.sign('HMAC', key, data)] *)
  hmac_sign : CryptoKey -> list byte -> JS.completion (list byte);
  (** [crypto.subtle.exportKey('spki', key)] and [exportKey('pkcs8', key)] *)
  exportKey_spki : CryptoKey -> JS.completion (list byte);
  exportKey_pkcs8 : CryptoKey -> JS.completion (list byte)
}.

Module CryptoManagerKeys.
Import JS CryptoManager.

(** What the manager reads of a [File]: its name, its type and its bytes
    ([file.size] is their number). *)
Record File : Type := {
  file_name : jsstring;
  file_type : jsstring;
  file_bytes : list byte
}.

Record encryptedFile : Type := {
  filename : jsstring;
  contentType : jsstring;
  size : nat;
  encryptedData : jsstring;
  file_iv : jsstring;
  file_salt : jsstring;
  file_algorithm : jsstring
}.

Record Blob : Type := {
  blob_bytes : list byte;
  blob_type : jsstring
}.

Definition to_ascii_lowercase (c : N) : N :=
  if ((65 <=? c) && (c <=? 90))%N then (c + 32)%N else c.

(** [new Blob([part], {type})]: a type with a character outside U+0020 to
    U+007E becomes the empty string, any other is put in lower case. *)
Definition new_Blob (part : list byte) (type : jsstring) : Blob :=
  {| blob_bytes := part;
     blob_type :=
       if forallb (fun c => (32 <=? c) && (c <=? 126))%N type
       then map to_ascii_lowercase type else [] |}.

(** [this.keys]: the two serialized keys and, when the pair was generated by
    this manager, the two key objects. *)
Record keypair `{WebCrypto} : Type := {
  publicKey : jsstring;
  privateKey : jsstring;
  publicKeyObj : option CryptoKey;
  privateKeyObj : option CryptoKey
}.

(** The manager and the [user_keys] record of its IndexedDB store (the two
    serialized keys); the store is taken to answer every operation. *)
Record client `{WebCrypto} : Type := {
  keys : option keypair;
  initialized : bool;
  user_keys : option (jsstring * jsstring)
}.

Section WithWebCrypto.
Context {wc : WebCrypto} {ws : WebCryptoSigning wc}.

Definition encryptFile (file : File) (sharedSecret : CryptoKey)
    (conversationId : jsstring) (iv_random salt_random : list byte)
  : completion encryptedFile :=
  try_catch
    (let arrayBuffer := file_bytes file in
     andThen (aes_gcm_encrypt sharedSecret iv_random
                (TextEncoder_encode conversationId) arrayBuffer) (fun encrypted =>
     andThen (arrayBufferToBase64 encrypted) (fun e =>
     andThen (arrayBufferToBase64 iv_random) (fun i =>
     andThen (arrayBufferToBase64 salt_random) (fun s =>
     Return {| filename := file_name file;
               contentType := file_type file;
               size := length (file_bytes file);
               encryptedData := e;
               file_iv := i;
               file_salt := s;
               file_algorithm := lit "AES-GCM" |})))))
    (fun _ => Throw (Error "Failed to encrypt file")).

Definition decryptFile (encryptedFile : encryptedFile) (sharedSecret : CryptoKey)
    (conversationId : jsstring) : completion Blob :=
  try_catch
    (andThen (base64ToArrayBuffer (encryptedData encryptedFile)) (fun ct =>
     andThen (base64ToArrayBuffer (file_iv encryptedFile)) (fun nonce =>
     andThen (aes_gcm_decrypt sharedSecret nonce
                (TextEncoder_encode conversationId) ct) (fun decrypted =>
     Return (new_Blob decrypted (contentType encryptedFile))))))
    (fun _ => Throw (Error "Failed to decrypt file")).

Definition signData (this : client) (data : jsstring + list byte)
  : completion jsstring :=
  try_catch
    (match keys this with
     | None => Throw (Error "Private key not available")
     | Some k =>
         match privateKeyObj k with
         | None => Throw (Error "Private key not available")
         | Some key =>
             let dataArray :=
               match data with inl str => TextEncoder_encode str | inr buf => buf end in
             andThen (rsa_pss_sign key dataArray) arrayBufferToBase64
         end
     end)
    (fun _ => Throw (Error "Failed to sign data")).

Definition generateHMAC (data secret : jsstring) : completion jsstring :=
  try_catch
    (let dataBuffer := TextEncoder_encode data in
     andThen (andThen (base64ToArrayBuffer secret) importKey_hmac) (fun hmacKey =>
     andThen (hmac_sign hmacKey dataBuffer) (fun signature =>
     arrayBufferToBase64 signature)))
    (fun _ => Throw (Error "Failed to generate HMAC")).

(** [random] is what [crypto.getRandomValues] puts into the 16 octets. *)
Definition generateNonce (random : list byte) : completion jsstring :=
  arrayBufferToBase64 random.

(** [generated] is the outcome of [crypto.subtle.generateKey]: the public
    and the private key object. *)
Definition generateKeyPair (generated : completion (CryptoKey * CryptoKey))
  : completion keypair :=
  try_catch
    (andThen generated (fun keyPair =>
     andThen (exportKey_spki (fst keyPair)) (fun publicKey =>
     andThen (arrayBufferToBase64 publicKey) (fun publicKeyBase64 =>
     andThen (exportKey_pkcs8 (snd keyPair)) (fun privateKey =>
     andThen (arrayBufferToBase64 privateKey) (fun privateKeyBase64 =>
     Return {| publicKey := publicKeyBase64;
               privateKey := privateKeyBase64;
               publicKeyObj := Some (fst keyPair);
               privateKeyObj := Some (snd keyPair) |}))))))
    (fun _ => Throw (Error "Failed to generate cryptographic keys")).

Definition loadKeys (this : client) : option keypair :=
  match user_keys this with
  | Some (pub, priv) =>
      Some {| publicKey := pub; privateKey := priv;
              publicKeyObj := None; privateKeyObj := None |}
  | None => None
  end.

(** [initialize], where WebCrypto is present; [saveKeys] stores the two
    serialized keys. The catch clause logs and throws the error again. *)
Definition initialize (generated : completion (CryptoKey * CryptoKey))
    (this : client) : completion unit * client :=
  match loadKeys this with
  | Some k =>
      (Return tt,
       {| keys := Some k; initialized := true; user_keys := user_keys this |})
  | None =>
      match generateKeyPair generated with
      | Return k =>
          (Return tt,
           {| keys := Some k; initialized := true;
              user_keys := Some (publicKey k, privateKey k) |})
      | Throw e =>
          (Throw e,
           {| keys := None; initialized := initialized this;
              user_keys := user_keys this |})
      end
  end.

Definition getPublicKey (this : client) : completion jsstring :=
  match keys this with
  | None => Throw (Error "Keys not initialized")
  | Some k => Return (publicKey k)
  end.

End WithWebCrypto.
End CryptoManagerKeys.


(** ** Front end: sessions and signed requests of [AuthManager] *)
Module AuthSessions.
Import JS CryptoManager CryptoManagerKeys Numbers UtilsMore.

(** A value handed to [JSON.stringify]; [Opaque] is a value that is none
    of the others (what a caller passed where a string was expected). *)
Inductive value : Type :=
| Null
| Str (s : jsstring)
| Num (z : Z)
| Opaque
| Object (fields : members)
with members : Type :=
| no_member
| member (key : string) (v : value) (rest : members).

(** An object literal. *)
Definition Obj (fields : list (string * value)) : value :=
  Object (fold_right (fun kv rest => member (fst kv) (snd kv) rest) no_member fields).

(** The [user] object of a server reply. *)
Record User : Type := {
  id : jsstring;
  username : jsstring
}.

(** What [response.json()] resolves to, as far as the manager reads it:
    whether [success] is truthy, [user] when there is one, [error] when it is
    truthy. *)
Record reply : Type := {
  success : bool;
  reply_user : option User;
  reply_error : option string
}.

Record response : Type := {
  ok : bool;
  status : Z;
  statusText : string;
  json : completion reply
}.

(** The arguments of a call of [fetch]. *)
Record fetch_request : Type := {
  fetch_path : jsstring;
  fetch_method : jsstring;
  fetch_headers : list (string * jsstring);
  fetch_body : option jsstring
}.

(** [session.fingerprint]. [generateFingerprint] returns what the [async]
    method [sha256] returns, without awaiting it: a promise ([digest] is what
    it is fulfilled with; nothing awaits it, and one that is rejected behaves
    alike). A session read from the store has a value that
    the store could hold, given here by its conversion to a string. *)
Inductive Fingerprint : Type :=
| Promise (digest : jsstring)
| Stored (text : jsstring).

(** The value set as the [X-Fingerprint] header, converted to a string. *)
Definition fingerprint_header (f : Fingerprint) : jsstring :=
  match f with
  | Promise _ => JS.lit "[object Promise]"
  | Stored text => text
  end.

(** Whether the structured clone of [store.put] takes the value: a promise
    is a [DataCloneError]. *)
Definition cloneable (f : Fingerprint) : bool :=
  match f with
  | Promise _ => false
  | Stored _ => true
  end.

(** What the manager takes from its surroundings. *)
Class Platform : Type := {
  JSON_stringify : value -> jsstring;
  (** [String.prototype.toLowerCase] *)
  toLowerCase : jsstring -> jsstring;
  (** the server: its answer to a request, given the requests made before *)
  fetch : list fetch_request -> fetch_request -> completion response
}.

Section WithPlatform.
Context {wc : WebCrypto} {ws : WebCryptoSigning wc} {platform : Platform}.

Record Session : Type := {
  sessionId : jsstring;
  userId : jsstring;
  session_username : jsstring;
  session_createdAt : Z;
  expiresAt : Z;
  fingerprint : Fingerprint;
  ip : jsstring;
  user : User;
  signature : jsstring
}.

(** The manager: its own [CryptoManager], [this.session], the CAPTCHA
    tokens; the [current_session] entry of its IndexedDB store and the items
    of [localStorage]; the requests it has passed to [fetch]. The stores are
    taken to answer every operation. *)
Record auth : Type := {
  crypto : client;
  session : option Session;
  captchaTokens : gmap jsstring AuthManager.captchaData;
  current_session : option Session;
  localStorage : gmap jsstring jsstring;
  sent : list fetch_request
}.

(** [new AuthManager()], over the given stores. *)
Definition new_AuthManager (stored_keys : option (jsstring * jsstring))
    (stored_session : option Session) (items : gmap jsstring jsstring)
    (sent : list fetch_request) : auth :=
  {| crypto := {| keys := None; initialized := false; user_keys := stored_keys |};
     session := None;
     captchaTokens := ∅;
     current_session := stored_session;
     localStorage := items;
     sent := sent |}.

Definition set_crypto (c : client) (this : auth) : auth :=
  {| crypto := c; session := session this; captchaTokens := captchaTokens this;
     current_session := current_session this; localStorage := localStorage this;
     sent := sent this |}.

Definition set_session (s : option Session) (this : auth) : auth :=
  {| crypto := crypto this; session := s; captchaTokens := captchaTokens this;
     current_session := current_session this; localStorage := localStorage this;
     sent := sent this |}.

Definition set_captchaTokens (t : gmap jsstring AuthManager.captchaData)
    (this : auth) : auth :=
  {| crypto := crypto this; session := session this; captchaTokens := t;
     current_session := current_session this; localStorage := localStorage this;
     sent := sent this |}.

Definition set_current_session (s : option Session) (this : auth) : auth :=
  {| crypto := crypto this; session := session this;
     captchaTokens := captchaTokens this;
     current_session := s; localStorage := localStorage this;
     sent := sent this |}.

Definition set_localStorage (items : gmap jsstring jsstring) (this : auth) : auth :=
  {| crypto := crypto this; session := session this;
     captchaTokens := captchaTokens this;
     current_session := current_session this; localStorage := items;
     sent := sent this |}.

Definition set_sent (l : list fetch_request) (this : auth) : auth :=
  {| crypto := crypto this; session := session this;
     captchaTokens := captchaTokens this;
     current_session := current_session this; localStorage := localStorage this;
     sent := l |}.

(** A method returns or throws, and leaves the manager changed. *)
Definition Act (A : Type) : Type := auth -> completion A * auth.

Definition ret {A} (a : A) : Act A := fun this => (Return a, this).
Definition throw {A} (e : exn) : Act A := fun this => (Throw e, this).
Definition lift {A} (c : completion A) : Act A := fun this => (c, this).
Definition read {A} (f : auth -> A) : Act A := fun this => (Return (f this), this).
Definition update (f : auth -> auth) : Act unit := fun this => (Return tt, f this).

Definition bind {A B} (m : Act A) (k : A -> Act B) : Act B :=
  fun this =>
    match m this with
    | (Return a, this') => k a this'
    | (Throw e, this') => (Throw e, this')
    end.

Definition catch {A} (body : Act A) (handler : exn -> Act A) : Act A :=
  fun this =>
    match body this with
    | (Return a, this') => (Return a, this')
    | (Throw e, this') => handler e this'
    end.

Notation "'let*' x ':=' m 'in' k" := (bind m (fun x => k))
  (at level 10, x name, m at level 100, k at level 200).
Notation "m >>> k" := (bind m (fun _ => k))
  (at level 100, right associativity).

(** [generateRequestToken]: [random36] is [Math.random().toString(36)]. *)
Definition substr (start len : nat) (s : jsstring) : jsstring :=
  firstn len (skipn start s).

Definition generateRequestToken (now : Z) (random36 : jsstring) : jsstring :=
  lit "req_" ++ toString_Z now ++ lit "_" ++ substr 2 9 random36.

(** [saveSession]: [store.put] clones the session, and the failure of that
    is caught and thrown again as [Failed to save session]. *)
Definition saveSession (s : Session) : Act unit :=
  if cloneable (fingerprint s) then update (set_current_session (Some s))
  else throw (Error "Failed to save session").

Definition loadSession : Act (option Session) := read current_session.

Definition clearSession : Act unit := update (set_current_session None).

(** [clearAllLocalStorage], on the stores kept here. *)
Definition clearAllLocalStorage : Act unit :=
  update (fun this => set_current_session None (set_localStorage ∅ this)).

(** [this.crypto.clearAll()] *)
Definition clearAll : Act unit :=
  update (fun this =>
    set_crypto {| keys := None; initialized := initialized (crypto this);
                  user_keys := None |} this).

(** The catch clause of [makeSecureRequest] logs and throws the error again.
    [timestamp] is [Date.now()], [nonce_random] the octets of the nonce,
    [token_now] and [random36] what [generateRequestToken] reads. *)
Definition makeSecureRequest (path method : jsstring) (body : option value)
    (timestamp : Z) (nonce_random : list byte) (token_now : Z)
    (random36 : jsstring) : Act reply :=
  let* nonce := lift (generateNonce nonce_random) in
  let requestId := generateRequestToken token_now random36 in
  let requestData :=
    Obj [("method"%string, Str method); ("path"%string, Str path);
         ("body"%string, default Null body); ("timestamp"%string, Num timestamp);
         ("nonce"%string, Str nonce); ("requestId"%string, Str requestId)] in
  let* current := read session in
  let secret :=
    match current with Some s => sessionId s | None => lit "public" end in
  let* signature := lift (generateHMAC (JSON_stringify requestData) secret) in
  let headers :=
    [("Content-Type"%string, lit "application/json");
     ("X-Timestamp"%string, toString_Z timestamp);
     ("X-Nonce"%string, nonce);
     ("X-Signature"%string, signature);
     ("X-Request-ID"%string, requestId)]
    ++ match current with
       | Some s =>
           [("X-Session-Token"%string, sessionId s);
            ("X-Fingerprint"%string, fingerprint_header (fingerprint s))]
       | None => []
       end in
  let request :=
    {| fetch_path := path; fetch_method := method; fetch_headers := headers;
       fetch_body := option_map JSON_stringify body |} in
  let* before := read sent in
  update (set_sent (before ++ [request])) >>>
  let* response := lift (fetch before request) in
  if negb (ok response) then
    throw (Error ("HTTP " +:+ to_header (toString_Z (status response)) +:+ ": "
                  +:+ statusText response))
  else lift (json response).

(** [generateFingerprint]: reading the browser and the canvas may throw;
    what is returned is the promise of [sha256], [digest] being what it will
    be fulfilled with. *)
Definition generateFingerprint (digest : completion jsstring)
  : completion Fingerprint :=
  andThen digest (fun d => Return (Promise d)).

(** [createSession]. [random] are the draws of [generateUUID], [now_expiry]
    and [now_created] the two readings of [Date.now()], [digest] what
    [generateFingerprint] reads, [ip] what [getClientIP] resolves to.
    Reading [user.id] of no user is a [TypeError]. *)
Definition createSession (user : option User) (random : nat -> N)
    (now_expiry now_created : Z) (digest : completion jsstring)
    (ip : jsstring) : Act Session :=
  let sessionId := generateUUID random in
  let expiresAt := (now_expiry + 24 * 60 * 60 * 1000)%Z in
  match user with
  | None => throw (Error "Cannot read properties of undefined (reading 'id')")
  | Some u =>
      let* fp := lift (generateFingerprint digest) in
      let* this_crypto := read crypto in
      let* signature :=
        lift (signData this_crypto
                (inl (JSON_stringify
                        (Obj [("sessionId"%string, Str sessionId);
                              ("userId"%string, Str (id u));
                              ("expiresAt"%string, Num expiresAt)])))) in
      ret {| sessionId := sessionId; userId := id u;
             session_username := username u;
             session_createdAt := now_created; expiresAt := expiresAt;
             fingerprint := fp; ip := ip; user := u; signature := signature |}
  end.

Definition validateSessionIntegrity (s : Session) : Act bool :=
  catch
    (let dataToVerify :=
       JSON_stringify
         (Obj [("sessionId"%string, Str (sessionId s));
               ("userId"%string, Str (userId s));
               ("expiresAt"%string, Num (expiresAt s))]) in
     let* this_crypto := read crypto in
     let* publicKey := lift (getPublicKey this_crypto) in
     lift (verifySignature (inl dataToVerify) (signature s) (inr publicKey)))
    (fun _ => ret false).

Definition checkSession (now : Z) : Act (option User) :=
  catch
    (let* sessionData := loadSession in
     match sessionData with
     | None => ret None
     | Some s =>
         if (expiresAt s <? now)%Z then clearSession >>> ret None
         else
           let* intact := validateSessionIntegrity s in
           if negb intact then clearSession >>> ret None
           else update (set_session (Some s)) >>> ret (Some (user s))
     end)
    (fun _ => ret None).

Definition validateCaptcha (userInput : AuthManager.answer) (token : jsstring)
    (now : Z) : Act bool :=
  fun this =>
    let '(isValid, tokens) :=
      AuthManager.validateCaptcha toLowerCase userInput token now
        (captchaTokens this) in
    (Return isValid, set_captchaTokens tokens this).

(** [login]: the catch clause logs and throws the error again. [captcha_now]
    is the reading of [Date.now()] in [validateCaptcha]; the other arguments
    are those of [makeSecureRequest] and [createSession]. *)
Definition login (username : jsstring) (captcha : AuthManager.answer)
    (captchaToken : jsstring) (captcha_now : Z)
    (timestamp : Z) (nonce_random : list byte) (token_now : Z)
    (random36 : jsstring)
    (random : nat -> N) (now_expiry now_created : Z)
    (digest : completion jsstring) (ip : jsstring) : Act (option User) :=
  let* captchaValid := validateCaptcha captcha captchaToken captcha_now in
  if negb captchaValid then throw (Error "CAPTCHA validation failed")
  else
    let* response :=
      makeSecureRequest (lit "/api/auth/login") (lit "POST")
        (Some (Obj [("username"%string, Str username);
                    ("captcha"%string,
                     match captcha with
                     | AuthManager.Text s => Str s
                     | AuthManager.Other _ => Opaque
                     end);
                    ("captchaToken"%string, Str captchaToken)]))
        timestamp nonce_random token_now random36 in
    if success response then
      let* s := createSession (reply_user response) random now_expiry now_created
                  digest ip in
      update (set_session (Some s)) >>>
      saveSession s >>>
      ret (reply_user response)
    else throw (Error (default "Login failed"%string (reply_error response))).

Definition logout (timestamp : Z) (nonce_random : list byte) (token_now : Z)
    (random36 : jsstring) : Act unit :=
  catch
    (let* current := read session in
     match current with
     | Some s =>
         makeSecureRequest (lit "/api/auth/logout") (lit "POST")
           (Some (Obj [("sessionId"%string, Str (sessionId s))]))
           timestamp nonce_random token_now random36
         >>> ret tt
     | None => ret tt
     end >>>
     clearSession >>>
     update (set_session None))
    (fun _ => clearSession >>> update (set_session None)).

(** [wipeAccount]: [confirmation] is what [prompt] returns, [None] for
    [null]. *)
Definition wipeAccount (confirmation : option jsstring)
    (timestamp : Z) (nonce_random : list byte) (token_now : Z)
    (random36 : jsstring) : Act unit :=
  let* current := read session in
  match current with
  | None => throw (Error "No active session")
  | Some s =>
      if negb (bool_decide (confirmation = Some (lit "WIPE_EVERYTHING")))
      then throw (Error "Wipe cancelled")
      else
        let* response :=
          makeSecureRequest (lit "/api/wipe") (lit "POST")
            (Some (Obj [("confirmation"%string, Str (lit "WIPE_EVERYTHING"));
                        ("sessionId"%string, Str (sessionId s))]))
            timestamp nonce_random token_now random36 in
        if success response then
          clearAll >>> clearSession >>> clearAllLocalStorage >>>
          update (set_session None)
        else throw (Error (default "Wipe failed"%string (reply_error response)))
  end.

Definition isAuthenticated (now : Z) (this : auth) : bool :=
  match session this with
  | Some s => (now <? expiresAt s)%Z
  | None => false
  end.

End WithPlatform.
End AuthSessions.

(** ** Front end: [sanitizeHTML] of [Utils] *)
Module UtilsEscape.
Import JS.

(** [s.replace(/c/g, replacement)] for a single character [c] and a
    replacement without [$]. *)
Definition replace_all (c : N) (replacement : jsstring) (s : jsstring) : jsstring :=
  flat_map (fun x => if (x =? c)%N then replacement else [x]) s.

(** [str] is [None] when the argument is not a string. The replacements
    are those of the source: of [&], [<], [>] and the double quote by
    themselves, of the apostrophe by [&#39;]. *)
Definition sanitizeHTML (str : option jsstring) : jsstring :=
  match str with
  | None => []
  | Some s =>
      replace_all 39 (lit "&#39;")
        (replace_all 34 [34%N]
           (replace_all 62 (lit ">")
              (replace_all 60 (lit "<")
                 (replace_all 38 (lit "&") s))))
  end.

End UtilsEscape.

(** ** Front end: [frontend/js/i18n.js] *)
Module I18n.
Import JS.

(** What reading [object[key]] of a translations object gives: an own
    string, or a member inherited from [Object.prototype]. *)
Inductive property : Type :=
| Own (s : jsstring)
| Inherited.

Definition prototype_members : list jsstring :=
  map lit
    ["constructor"; "hasOwnProperty"; "isPrototypeOf"; "propertyIsEnumerable";
     "toLocaleString"; "toString"; "valueOf"; "__proto__"; "__defineGetter__";
     "__defineSetter__"; "__lookupGetter__"; "__lookupSetter__"]%string.

Definition get_property (object : gmap jsstring jsstring) (key : jsstring)
  : option property :=
  match object !! key with
  | Some s => Some (Own s)
  | None =>
      if bool_decide (key ∈ prototype_members) then Some Inherited else None
  end.

Definition truthy (p : option property) : bool :=
  match p with
  | Some (Own []) => false
  | Some _ => true
  | None => false
  end.

Record LanguagePack : Type := {
  code : jsstring;
  name : jsstring;
  nativeName : jsstring;
  isRTL : bool;
  translations : gmap jsstring jsstring
}.

(** What [getEnglishTranslations] and its like return. *)
Record pack_source : Type := {
  meta_name : jsstring;
  meta_nativeName : jsstring;
  meta_isRTL : bool;
  strings : gmap jsstring jsstring
}.

(** A [Map], in insertion order. *)
Fixpoint Map_get {V} (m : list (jsstring * V)) (k : jsstring) : option V :=
  match m with
  | [] => None
  | (k', v) :: rest => if bool_decide (k' = k) then Some v else Map_get rest k
  end.

Definition Map_has {V} (m : list (jsstring * V)) (k : jsstring) : bool :=
  match Map_get m k with Some _ => true | None => false end.

Fixpoint Map_set {V} (m : list (jsstring * V)) (k : jsstring) (v : V)
  : list (jsstring * V) :=
  match m with
  | [] => [(k, v)]
  | (k', v') :: rest =>
      if bool_decide (k' = k) then (k, v) :: rest else (k', v') :: Map_set rest k v
  end.

(** The translator, the attributes it sets on the [html] element and the
    [preferred_language] item of [localStorage]. *)
Record i18n : Type := {
  currentLanguage : jsstring;
  languages : list (jsstring * LanguagePack);
  isInitialized : bool;
  html_lang : jsstring;
  html_dir : jsstring;
  rtl_mode : bool;
  preferred_language : option jsstring
}.

Definition fallbackLanguage : jsstring := lit "en".

(** [new i18n()], in a document and over a [localStorage]. *)
Definition new_i18n (lang dir : jsstring) (rtl : bool) (saved : option jsstring)
  : i18n :=
  {| currentLanguage := lit "en"; languages := []; isInitialized := false;
     html_lang := lang; html_dir := dir; rtl_mode := rtl;
     preferred_language := saved |}.

Definition loadLanguagePack (code : jsstring) (source : pack_source)
    (this : i18n) : i18n :=
  {| currentLanguage := currentLanguage this;
     languages :=
       Map_set (languages this) code
         {| code := code; name := meta_name source;
            nativeName := meta_nativeName source; isRTL := meta_isRTL source;
            translations := strings source |};
     isInitialized := isInitialized this;
     html_lang := html_lang this; html_dir := html_dir this;
     rtl_mode := rtl_mode this;
     preferred_language := preferred_language this |}.

(** [lang || this.currentLanguage] *)
Definition or_current (lang : option jsstring) (this : i18n) : jsstring :=
  match lang with
  | Some (c :: l) => c :: l
  | _ => currentLanguage this
  end.

(** [t] calls itself when the language has no pack; [fuel] bounds the depth
    of the calls, [None] is a call left unanswered at that depth. *)
Fixpoint t (fuel : nat) (this : i18n) (key : jsstring) (lang : option jsstring)
  : option property :=
  match fuel with
  | O => None
  | S fuel' =>
      let language := or_current lang this in
      match Map_get (languages this) language with
      | None => t fuel' this key (Some fallbackLanguage)
      | Some pack =>
          let translation := get_property (translations pack) key in
          if truthy translation then translation
          else
            match Map_get (languages this) fallbackLanguage with
            | Some fallbackPack =>
                let fallback := get_property (translations fallbackPack) key in
                if truthy fallback then fallback else Some (Own key)
            | None => Some (Own key)
            end
      end
  end.

(** [s.split('-')[0]] *)
Fixpoint before_dash (s : jsstring) : jsstring :=
  match s with
  | [] => []
  | c :: r => if (c =? 45)%N then [] else c :: before_dash r
  end.

Fixpoint startsWith (s prefix : jsstring) : bool :=
  match prefix, s with
  | [], _ => true
  | p :: prefix', c :: s' => (c =? p)%N && startsWith s' prefix'
  | _ :: _, [] => false
  end.

(** What [detectLanguage] reads: the [lang] parameter of the URL, and
    [navigator.language || navigator.userLanguage] ([None] when neither is
    set, on which [split] is a [TypeError]). *)
Record surroundings : Type := {
  urlLang : option jsstring;
  browserLang : option jsstring
}.

Definition loaded (this : i18n) (lang : option jsstring) : option jsstring :=
  match lang with
  | Some (c :: l) => if Map_has (languages this) (c :: l) then Some (c :: l) else None
  | _ => None
  end.

Definition detectLanguage (env : surroundings) (this : i18n) : completion jsstring :=
  match loaded this (urlLang env) with
  | Some l => Return l
  | None =>
  match loaded this (preferred_language this) with
  | Some l => Return l
  | None =>
  match browserLang env with
  | None => Throw (Error "Cannot read properties of undefined (reading 'split')")
  | Some browser =>
      let primaryLang := before_dash browser in
      if Map_has (languages this) primaryLang then Return primaryLang
      else
        match List.find (fun entry => startsWith browser (fst entry)) (languages this) with
        | Some (code, _) => Return code
        | None => Return fallbackLanguage
        end
  end end end.

Section WithPacks.
(** What [getEnglishTranslations], [getArabicTranslations],
    [getChineseTranslations] and [getRussianTranslations] return. *)
Variables english arabic chinese russian : pack_source.

(** The catch clause logs and throws the error again. *)
Definition initialize (env : surroundings) (this : i18n) : completion unit * i18n :=
  let this :=
    loadLanguagePack (lit "ru") russian
      (loadLanguagePack (lit "zh") chinese
         (loadLanguagePack (lit "ar") arabic
            (loadLanguagePack (lit "en") english this))) in
  match detectLanguage env this with
  | Throw e => (Throw e, this)
  | Return lang =>
      (Return tt,
       {| currentLanguage := lang; languages := languages this;
          isInitialized := true;
          html_lang := html_lang this; html_dir := html_dir this;
          rtl_mode := rtl_mode this;
          preferred_language := preferred_language this |})
  end.

End WithPacks.

(** [switchLanguage]; the texts that [updateAllTextContent] writes into the
    document are not kept. *)
Definition switchLanguage (code : jsstring) (this : i18n) : completion unit * i18n :=
  match Map_get (languages this) code with
  | None =>
      (Throw (Error ("Language " +:+ string_of_list_ascii (map ascii_of_N code)
                     +:+ " not available")), this)
  | Some langPack =>
      (Return tt,
       {| currentLanguage := code; languages := languages this;
          isInitialized := isInitialized this;
          html_lang := code;
          html_dir := if isRTL langPack then lit "rtl" else lit "ltr";
          rtl_mode := isRTL langPack;
          preferred_language := Some code |})
  end.

Definition getDirectionClass (this : i18n) : jsstring :=
  match Map_get (languages this) (currentLanguage this) with
  | Some pack => if isRTL pack then lit "rtl-mode" else lit "ltr-mode"
  | None => lit "ltr-mode"
  end.

End I18n.

(** ** Back end: [backend/crypto/i18n.ts] *)
Module ServerI18n.
Import JS I18n.

(** The two static fields that [initialize] and [t] use. *)
Record i18n : Type := {
  currentLanguage : jsstring;
  languages : list (jsstring * LanguagePack)
}.

Definition start : i18n := {| currentLanguage := lit "en"; languages := [] |}.

Definition loadLanguagePack (code : jsstring) (pack : LanguagePack) (this : i18n)
  : i18n :=
  {| currentLanguage := currentLanguage this;
     languages := Map_set (languages this) code pack |}.

Definition detectLanguage : jsstring := lit "en".

Section WithTable.
(** The object literal of [loadTranslations], and the four native names. *)
Variable table : gmap jsstring jsstring.
Variables native_en native_ar native_zh native_ru : jsstring.

(** [loadTranslations(lang)] returns the one table, whatever [lang] is. *)
Definition loadTranslations (lang : jsstring) : gmap jsstring jsstring := table.

Definition initialize (this : i18n) : i18n :=
  let this :=
    loadLanguagePack (lit "en")
      {| code := lit "en"; name := lit "English"; nativeName := native_en;
         isRTL := false; translations := loadTranslations (lit "en") |} this in
  let this :=
    loadLanguagePack (lit "ar")
      {| code := lit "ar"; name := lit "Arabic"; nativeName := native_ar;
         isRTL := true; translations := loadTranslations (lit "ar") |} this in
  let this :=
    loadLanguagePack (lit "zh")
      {| code := lit "zh"; name := lit "Chinese"; nativeName := native_zh;
         isRTL := false; translations := loadTranslations (lit "zh") |} this in
  let this :=
    loadLanguagePack (lit "ru")
      {| code := lit "ru"; name := lit "Russian"; nativeName := native_ru;
         isRTL := false; translations := loadTranslations (lit "ru") |} this in
  {| currentLanguage := detectLanguage; languages := languages this |}.

End WithTable.

(** The server's [t] answers with the key when the language has no pack. *)
Definition t (this : i18n) (key : jsstring) (lang : option jsstring) : property :=
  let language :=
    match lang with
    | Some (c :: l) => c :: l
    | _ => currentLanguage this
    end in
  match Map_get (languages this) language with
  | None => Own key
  | Some pack =>
      let translation := get_property (translations pack) key in
      if truthy translation then default (Own key) translation
      else
        match Map_get (languages this) (lit "en") with
        | Some fallbackPack =>
            let fallback := get_property (translations fallbackPack) key in
            if truthy fallback then default (Own key) fallback else Own key
        | None => Own key
        end
  end.

Definition getDirectionClass (this : i18n) : jsstring :=
  match Map_get (languages this) (currentLanguage this) with
  | Some pack => if isRTL pack then lit "rtl-mode" else lit "ltr-mode"
  | None => lit "ltr-mode"
  end.

End ServerI18n.

(* ================================================================== *)
(** * Part II: properties                                              *)
(* ================================================================== *)

(** ** The platform model on known values *)
Module PlatformExamples.

Example atob_btoa_values :
  JS.btoa (JS.lit "hi!?") = Some (JS.lit "aGkhPw==") /\
  JS.atob (JS.lit "aGkhPw==") = Some (JS.lit "hi!?") /\
  JS.atob (JS.lit " aGk h ") = Some (JS.lit "hi!") /\
  JS.atob (JS.lit "aGk") = Some (JS.lit "hi") /\
  JS.atob (JS.lit "aGkh=") = None /\
  JS.atob (JS.lit "a") = None /\
  JS.atob (JS.lit "") = Some [].
Proof. repeat split; reflexivity. Qed.

Example parseInt_values :
  Handlers.parseInt "1700000000000" = Some 1700000000000%Z /\
  Handlers.parseInt "  -12abc" = Some (-12)%Z /\
  Handlers.parseInt "0x1F" = Some 31%Z /\
  Handlers.parseInt "abc" = None /\
  Handlers.parseInt "" = None /\
  Handlers.parseInt "9007199254740993" = Some 9007199254740992%Z /\
  Handlers.parseInt "-9007199254740995" = Some (-9007199254740996)%Z /\
  Handlers.parseInt "18014398509481987" = Some 18014398509481988%Z /\
  Handlers.includes "application/json; charset=utf-8" "application/json" = true.
Proof. repeat split; reflexivity. Qed.

Example utf8_values :
  JS.TextEncoder_encode [55357; 56832]%N = [xf0; x9f; x98; x80] /\
  JS.TextDecoder_decode [xf0; x9f; x98; x80] = [55357; 56832]%N /\
  JS.TextEncoder_encode [55296]%N = [xef; xbf; xbd] /\
  JS.TextDecoder_decode [xef; xbb; xbf; x41] = [65]%N /\
  JS.TextDecoder_decode [xc0; x80; xe2; x82] = [65533; 65533; 65533]%N /\
  JS.TextDecoder_decode [xe2; x82; xac; xed; xa0; x80]
    = [8364; 65533; 65533; 65533]%N.
Proof. repeat split; vm_compute; reflexivity. Qed.

Example session_token_values :
  SecurityManager.isValidSessionToken "123e4567-e89b-42d3-a456-426614174000" = true /\
  SecurityManager.isValidSessionToken "123e4567-e89b-62d3-a456-426614174000" = false /\
  SecurityManager.isValidSignatureFormat "c2lnbmF0dXJl" = true /\
  SecurityManager.isValidSignatureFormat "c2ln_-8=" = true /\
  SecurityManager.isValidSignatureFormat "not base64!" = false.
Proof. repeat split; vm_compute; reflexivity. Qed.

End PlatformExamples.

(** ** Rate limiting *)
Module RateLimitProofs.
Import Types SecurityManager.

Definition RATE_LIMIT_EXCEEDED : error :=
  SecurityError "Rate limit exceeded" "RATE_LIMIT_EXCEEDED".

(** The timestamps recorded for the client of [request]. *)
Definition recorded (request : APIRequest) (st : state) : list Z :=
  default [] (rateLimitMap st !! getClientKey request).




Lemma validateRateLimit_full request now st :
  (100 <= length (filter (in_rate_window now) (recorded request st)))%nat ->
  validateRateLimit request now st = (inl RATE_LIMIT_EXCEEDED, st).
Proof.
  intros Hfull. unfold validateRateLimit, recorded in *.
  destruct (Z.leb_spec SECURITY_CONSTANTS.RATE_LIMIT_MAX_REQUESTS
              (Z.of_nat (length (filter (in_rate_window now)
                 (default [] (rateLimitMap st !! getClientKey request)))))) as [_|Hlt].
  - reflexivity.
  - unfold SECURITY_CONSTANTS.RATE_LIMIT_MAX_REQUESTS in Hlt. lia.
Qed.

Lemma validateRateLimit_free request now st :
  (length (filter (in_rate_window now) (recorded request st)) < 100)%nat ->
  exists st',
    validateRateLimit request now st = (inr tt, st') /\
    recorded request st' = filter (in_rate_window now) (recorded request st) ++ [now] /\
    loginAttempts st' = loginAttempts st.
Proof.
  intros Hfree. unfold validateRateLimit, recorded in *.
  destruct (Z.leb_spec SECURITY_CONSTANTS.RATE_LIMIT_MAX_REQUESTS
              (Z.of_nat (length (filter (in_rate_window now)
                 (default [] (rateLimitMap st !! getClientKey request)))))) as [Hle|_].
  - unfold SECURITY_CONSTANTS.RATE_LIMIT_MAX_REQUESTS in Hle. lia.
  - eexists. split; [reflexivity|]. simpl. rewrite lookup_insert_eq. done.
Qed.




Lemma filter_none {A} (P : A -> Prop) `{forall x, Decision (P x)} (l : list A) :
  (forall x, x ∈ l -> ~ P x) -> filter P l = [].
Proof.
  induction l as [|a l IH]; intros Hno; [reflexivity|].
  rewrite filter_cons_False by (apply Hno; left).
  apply IH. intros x Hx. apply Hno. by right.
Qed.


(** A concrete client: no identifying header, hence the key
    ["unknown|unknown|unknown"]. *)
Definition anonymous : APIRequest :=
  {| method := "GET"; path := "/api/health"; body := None; headers := ∅;
     timestamp := Some 0%Z; nonce := "n"; signature := "c2ln" |}.

(** A state in which that client has requests recorded at 0, 1, ..., 99 ms. *)
Definition busy : state :=
  {| rateLimitMap := {[ getClientKey anonymous := Z.of_nat <$> seq 0 100 ]};
     loginAttempts := ∅ |}.



(** C10. Whenever the rate-limit check rejects a request with
    [RATE_LIMIT_EXCEEDED], the static maps are exactly what they were: the
    rejected request is not recorded, and not even the pruning of old
    timestamps is written back. *)
Theorem rate_limit_rejection_changes_nothing
    (request : APIRequest) (now : Z) (st st' : state) (message : string) :
  validateRateLimit request now st
    = (inl (SecurityError message "RATE_LIMIT_EXCEEDED"), st') ->
  rateLimitMap st' = rateLimitMap st /\ st' = st.
Proof.
  unfold validateRateLimit.
  destruct (_ <=? _)%Z; intros Heq; inversion Heq; subst; auto.
Qed.

Lemma rate_limit_rejection_changes_nothing_witness :
  exists st',
    validateRateLimit anonymous 100%Z busy = (inl RATE_LIMIT_EXCEEDED, st') /\
    rateLimitMap st' = rateLimitMap busy /\ st' = busy.
Proof.
  exists (snd (validateRateLimit anonymous 100%Z busy)).
  split.
  - vm_compute. reflexivity.
  - apply (rate_limit_rejection_changes_nothing anonymous 100%Z busy _
             "Rate limit exceeded").
    vm_compute. reflexivity.
Defined.

(** The periodic sweep leaves every later decision as it was: what it keeps
    of a client's record is what the check itself would keep. *)
Lemma cleanupExpiredData_recorded request now st :
  recorded request (snd (cleanupExpiredData now st))
  = filter (in_rate_window now) (recorded request st).
Proof.
  unfold recorded, cleanupExpiredData, prune. cbn [snd rateLimitMap].
  rewrite lookup_omap.
  destruct (rateLimitMap st !! getClientKey request) as [l|]; [|reflexivity].
  cbn. destruct (filter (in_rate_window now) l); reflexivity.
Qed.

End RateLimitProofs.

(** ** Request validation: signature, timestamp, nonce *)
Module RequestValidationProofs.
Import Types SecurityManager Handlers.

Definition T0 : Z := 1700000000000.

(** A well-formed anonymous request to a public endpoint. *)
Definition signed_request : Request :=
  {| r_method := "GET";
     r_pathname := "/api/health";
     r_headers :=
       list_to_map
         [("content-type", "application/json");
          ("x-timestamp", "1700000000000");
          ("x-nonce", "bm9uY2UtMQ==");
          ("x-signature", "c2lnbmF0dXJl")];
     r_has_body := false;
     r_json := None |}.

(** The same request with no signature attached. *)
Definition unsigned_request : Request :=
  {| r_method := "GET";
     r_pathname := "/api/health";
     r_headers :=
       list_to_map
         [("content-type", "application/json");
          ("x-timestamp", "1700000000000");
          ("x-nonce", "bm9uY2UtMQ==")];
     r_has_body := false;
     r_json := None |}.

(** The same request, stamped six minutes before [T0]. *)
Definition stale_request : Request :=
  {| r_method := "GET";
     r_pathname := "/api/health";
     r_headers :=
       list_to_map
         [("content-type", "application/json");
          ("x-timestamp", "1699999640000");
          ("x-nonce", "bm9uY2UtMQ==");
          ("x-signature", "c2lnbmF0dXJl")];
     r_has_body := false;
     r_json := None |}.

(** Every failure of the parser is a [ValidationError]. *)
Lemma parseAndValidateRequest_errors request now e :
  parseAndValidateRequest request now = inl e -> is_ValidationError e = true.
Proof.
  unfold parseAndValidateRequest.
  destruct (truthy (r_headers request !! "content-type"));
    [|intros [= <-]; reflexivity].
  destruct (truthy (r_headers request !! "x-timestamp"));
    [|intros [= <-]; reflexivity].
  destruct (truthy (r_headers request !! "x-nonce"));
    [|intros [= <-]; reflexivity].
  destruct (truthy (r_headers request !! "x-signature"));
    [|intros [= <-]; reflexivity].
  destruct (_ && _); [destruct (r_json request)|];
    try (intros [= <-]; reflexivity);
    (destruct (skew_exceeded _ _); [intros [= <-]; reflexivity | discriminate]).
Qed.

Lemma parseAndValidateRequest_unsigned request now :
  truthy (r_headers request !! "x-signature") = None ->
  exists e, parseAndValidateRequest request now = inl e.
Proof.
  intros Hsig. unfold parseAndValidateRequest. rewrite Hsig.
  destruct (truthy (r_headers request !! "content-type")); [|eauto].
  destruct (truthy (r_headers request !! "x-timestamp")); [|eauto].
  destruct (truthy (r_headers request !! "x-nonce")); eauto.
Qed.

Lemma parseAndValidateRequest_stale request now ts t :
  r_headers request !! "x-timestamp" = Some ts ->
  parseInt ts = Some t ->
  (FIVE_MINUTES < Z.abs (now - t))%Z ->
  exists e, parseAndValidateRequest request now = inl e.
Proof.
  intros Hts Hparse Hskew. unfold parseAndValidateRequest.
  destruct (truthy (r_headers request !! "content-type")); [|eauto].
  rewrite Hts. unfold truthy at 1.
  destruct (String.eqb ts ""); [eauto|].
  destruct (truthy (r_headers request !! "x-nonce")); [|eauto].
  destruct (truthy (r_headers request !! "x-signature")); [|eauto].
  destruct (_ && _); [destruct (r_json request)|]; eauto;
    rewrite Hparse; unfold skew_exceeded;
    (destruct (Z.ltb_spec FIVE_MINUTES (Z.abs (now - t))); [eauto | lia]).
Qed.

(** The checks that follow the rate limiter read the login attempts and
    write nothing. *)
Definition after_rate_limit (api : APIRequest) (now_login : Z) : M unit :=
  validateSignature api >>>
  validateBruteForce api now_login >>>
  if requiresAuthentication (path api) then validateSession api else ret tt.

Lemma validateSignature_reads_nothing api st :
  validateSignature api st = (fst (validateSignature api empty_state), st).
Proof.
  unfold validateSignature. destruct (truthy _); [|reflexivity].
  destruct (isValidSignatureFormat _); reflexivity.
Qed.

Lemma validateSession_reads_nothing api st :
  validateSession api st = (fst (validateSession api empty_state), st).
Proof.
  unfold validateSession. destruct (truthy _); [|reflexivity].
  destruct (isValidSessionToken _); reflexivity.
Qed.

Lemma validateBruteForce_reads_attempts api now st :
  validateBruteForce api now st
  = (fst (validateBruteForce api now
            {| rateLimitMap := ∅; loginAttempts := loginAttempts st |}), st).
Proof.
  unfold validateBruteForce. cbn [loginAttempts].
  destruct (negb _); [reflexivity|].
  destruct (_ <=? _)%Z; [|reflexivity].
  destruct (last _); [|reflexivity].
  destruct (_ <? _)%Z; reflexivity.
Qed.

Lemma after_rate_limit_reads_attempts api now st :
  after_rate_limit api now st
  = (fst (after_rate_limit api now
            {| rateLimitMap := ∅; loginAttempts := loginAttempts st |}), st).
Proof.
  unfold after_rate_limit, bind.
  rewrite (validateSignature_reads_nothing api st).
  rewrite (validateSignature_reads_nothing api {| rateLimitMap := ∅ |}).
  destruct (fst (validateSignature api empty_state)); [reflexivity|].
  rewrite (validateBruteForce_reads_attempts api now st).
  rewrite (validateBruteForce_reads_attempts api now {| rateLimitMap := ∅ |}).
  cbn [loginAttempts].
  destruct (fst (validateBruteForce api now _)); [reflexivity|].
  destruct (requiresAuthentication _); [|reflexivity].
  rewrite (validateSession_reads_nothing api st).
  rewrite (validateSession_reads_nothing api {| rateLimitMap := ∅ |}).
  destruct (fst (validateSession api empty_state)); reflexivity.
Qed.

(** An accepted request can be replayed: presented again at once, nonce and
    all, it is accepted again as long as the client's rate-limit record has
    room. Nothing in the state remembers the nonce. *)
Lemma accepted_request_replays request now st api st1 :
  validateIncoming request now now now st = (inr api, st1) ->
  (length (RateLimitProofs.recorded api st1) < 100)%nat ->
  exists st2, validateIncoming request now now now st1 = (inr api, st2).
Proof.
  unfold validateIncoming.
  destruct (parseAndValidateRequest request now) as [e|api']; [discriminate|].
  unfold validateRequest. fold (after_rate_limit api' now).
  unfold bind.
  destruct (validateRateLimit api' now st) as [[e|[]] sa] eqn:Hrate;
    [discriminate|].
  assert (Hlogin : loginAttempts sa = loginAttempts st).
  { unfold validateRateLimit in Hrate. destruct (_ <=? _)%Z; [discriminate|].
    by injection Hrate as <-. }
  rewrite (after_rate_limit_reads_attempts api' now sa).
  destruct (fst (after_rate_limit api' now _)) as [e|[]] eqn:Hafter;
    [discriminate|].
  intros [= <- <-] Hroom.
  destruct (RateLimitProofs.validateRateLimit_free api' now sa)
    as (sb & -> & _ & Hlogin').
  { pose proof (length_filter (in_rate_window now)
                  (RateLimitProofs.recorded api' sa)). lia. }
  rewrite (after_rate_limit_reads_attempts api' now sb).
  rewrite Hlogin', Hafter. eauto.
Qed.

(** C3. The nonce is required to be present and is never recorded or
    compared: the very same request, nonce included, validates at [T0] and
    again one second later, in the state the first validation left. *)
Theorem replayed_nonce_validates_again :
  exists api st1 st2,
    validateIncoming signed_request T0 T0 T0 empty_state = (inr api, st1) /\
    validateIncoming signed_request (T0 + 1000) (T0 + 1000) (T0 + 1000) st1
      = (inr api, st2) /\
    nonce api = "bm9uY2UtMQ==".
Proof.
  eexists _, _, _. repeat split; vm_compute; reflexivity.
Qed.

(** A timestamp header that is not a number is [NaN] to the skew test, which
    then lets the request through. *)
Example unparsable_timestamp_passes :
  fst (validateIncoming
         {| r_method := "GET";
            r_pathname := "/api/health";
            r_headers :=
              list_to_map
                [("content-type", "application/json");
                 ("x-timestamp", "soon");
                 ("x-nonce", "bm9uY2UtMQ==");
                 ("x-signature", "c2lnbmF0dXJl")];
            r_has_body := false;
            r_json := None |} T0 T0 T0 empty_state)
  = inr {| method := "GET"; path := "/api/health"; body := None;
           headers :=
             list_to_map
               [("content-type", "application/json");
                ("x-timestamp", "soon");
                ("x-nonce", "bm9uY2UtMQ==");
                ("x-signature", "c2lnbmF0dXJl")];
           timestamp := None; nonce := "bm9uY2UtMQ==";
           signature := "c2lnbmF0dXJl" |}.
Proof. vm_compute. reflexivity. Qed.

(** C4, as stated, fails: through the handler a request without signature
    is stopped by the parser with a [ValidationError], and never reaches the
    check that raises [MISSING_SIGNATURE]. *)
Lemma unsigned_request_is_a_validation_error :
  validateIncoming unsigned_request T0 T0 T0 empty_state
    = (inl (ValidationError "Missing signature header"), empty_state) /\
  ValidationError "Missing signature header"
    <> SecurityError "Missing signature" "MISSING_SIGNATURE".
Proof. split; [vm_compute; reflexivity | discriminate]. Qed.

(** C4, amended. A request with no (or an empty) [x-signature] header makes
    [parseAndValidateRequest] fail with a [ValidationError];
    [SecurityManager.validateSignature], when it is given a request whose
    headers lack the signature, fails with [SecurityError] code
    [MISSING_SIGNATURE] and leaves the state alone, and so does
    [validateRequest] for such a request that the rate limiter lets
    through; and a request whose
    [x-timestamp] parses to a number more than five minutes away from the
    receipt time makes [parseAndValidateRequest] fail with a
    [ValidationError]. *)
Theorem unsigned_or_stale_request_rejected :
  (forall request now,
     truthy (r_headers request !! "x-signature") = None ->
     exists message,
       parseAndValidateRequest request now = inl (ValidationError message)) /\
  (forall api st,
     truthy (headers api !! "x-signature") = None ->
     validateSignature api st
       = (inl (SecurityError "Missing signature" "MISSING_SIGNATURE"), st)) /\
  (forall api now_rate now_login st,
     truthy (headers api !! "x-signature") = None ->
     fst (validateRateLimit api now_rate st) = inr tt ->
     fst (validateRequest api now_rate now_login st)
       = inl (SecurityError "Missing signature" "MISSING_SIGNATURE")) /\
  (forall request now ts t,
     r_headers request !! "x-timestamp" = Some ts ->
     parseInt ts = Some t ->
     (FIVE_MINUTES < Z.abs (now - t))%Z ->
     exists message,
       parseAndValidateRequest request now = inl (ValidationError message)).
Proof.
  split; [|split; [|split]].
  - intros request now Hsig.
    destruct (parseAndValidateRequest_unsigned request now Hsig) as [e He].
    pose proof (parseAndValidateRequest_errors _ _ _ He) as Hv.
    destruct e; try discriminate. eauto.
  - intros api st Hsig. unfold validateSignature. rewrite Hsig. reflexivity.
  - intros api now_rate now_login st Hsig Hrate.
    unfold validateRequest, bind at 1.
    destruct (validateRateLimit api now_rate st) as [[e|[]] sa];
      [discriminate|].
    unfold bind, validateSignature. rewrite Hsig. reflexivity.
  - intros request now ts t Hts Hparse Hskew.
    destruct (parseAndValidateRequest_stale request now ts t Hts Hparse Hskew)
      as [e He].
    pose proof (parseAndValidateRequest_errors _ _ _ He) as Hv.
    destruct e; try discriminate. eauto.
Qed.

Lemma unsigned_or_stale_request_rejected_witness :
  (exists message,
     parseAndValidateRequest unsigned_request T0 = inl (ValidationError message)) /\
  validateSignature RateLimitProofs.anonymous empty_state
    = (inl (SecurityError "Missing signature" "MISSING_SIGNATURE"), empty_state) /\
  fst (validateRequest RateLimitProofs.anonymous T0 T0 empty_state)
    = inl (SecurityError "Missing signature" "MISSING_SIGNATURE") /\
  (exists message,
     parseAndValidateRequest stale_request T0 = inl (ValidationError message)).
Proof.
  destruct unsigned_or_stale_request_rejected
    as (Hunsigned & Hcheck & Hmanager & Hstale).
  split; [|split; [|split]].
  - apply Hunsigned. vm_compute. reflexivity.
  - apply Hcheck. vm_compute. reflexivity.
  - apply Hmanager; vm_compute; reflexivity.
  - apply (Hstale stale_request T0 "1699999640000" 1699999640000%Z).
    + vm_compute. reflexivity.
    + vm_compute. reflexivity.
    + vm_compute. reflexivity.
Defined.

End RequestValidationProofs.

(** ** Brute-force lockout *)
Module LockoutProofs.
Import Types SecurityManager.

Definition LOCKED : error :=
  AuthenticationError
    "Account temporarily locked due to too many failed login attempts".

(** The failed attempts of the client of [request] that fall in the 24-hour
    window ending at [now]. *)
Definition recent_failures (request : APIRequest) (now : Z) (st : state)
  : list LoginAttempt :=
  filter failed
    (filter (in_day_window now)
       (default [] (loginAttempts st !! getClientKey request))).

(** The lockout expiry the check computes from a non-empty list of
    failures. *)
Definition lockoutUntil (failures : list LoginAttempt) : option Z :=
  match last failures with
  | Some lastFailed =>
      Some (la_timestamp lastFailed + lockoutDuration (length failures))%Z
  | None => None
  end.

Lemma lockoutDuration_at_least_a_day n : (DAY <= lockoutDuration n)%Z.
Proof.
  unfold lockoutDuration, SECURITY_CONSTANTS.LOCKOUT_BASE_DURATION, DAY.
  assert (0 < 3 ^ Z.of_nat (n - 3))%Z by (apply Z.pow_pos_nonneg; lia).
  lia.
Qed.

Lemma last_recent_failure request now st a :
  last (recent_failures request now st) = Some a -> in_day_window now a.
Proof.
  intros Hlast. apply last_Some_elem_of in Hlast.
  unfold recent_failures in Hlast.
  apply list_elem_of_filter in Hlast as [_ Hin].
  by apply list_elem_of_filter in Hin as [Hin _].
Qed.

(** What the check decides: a login is refused exactly while three or more
    failures lie within the last 24 hours. The comparison with the computed
    expiry never lets a request through, the expiry being at least 24 hours
    after a failure that is less than 24 hours old. *)
Lemma validateBruteForce_decision request now st :
  validateBruteForce request now st =
    if decide (path request = "/api/auth/login"
               /\ (3 <= length (recent_failures request now st))%nat)
    then (inl LOCKED, st) else (inr tt, st).
Proof.
  unfold validateBruteForce. fold (recent_failures request now st).
  destruct (String.eqb_spec (path request) "/api/auth/login") as [Hp|Hp]; cbn [negb].
  2: { rewrite decide_False by tauto. reflexivity. }
  unfold SECURITY_CONSTANTS.MAX_LOGIN_ATTEMPTS.
  destruct (Z.leb_spec 3 (Z.of_nat (length (recent_failures request now st))))
    as [Hmany|Hfew].
  2: { rewrite decide_False by lia. reflexivity. }
  rewrite decide_True by (split; [exact Hp | lia]).
  destruct (last (recent_failures request now st)) as [a|] eqn:Hlast.
  - pose proof (last_recent_failure _ _ _ _ Hlast) as Hin.
    pose proof (lockoutDuration_at_least_a_day
                  (length (recent_failures request now st))).
    unfold in_day_window in Hin.
    destruct (Z.ltb_spec now
                (la_timestamp a
                 + lockoutDuration (length (recent_failures request now st))));
      [reflexivity | lia].
  - apply last_None in Hlast. rewrite Hlast in Hmany. simpl in Hmany. lia.
Qed.

(** Hence no lockout outlasts 24 hours after the most recent failure,
    whatever expiry was computed. *)
Lemma lockout_over_after_a_day request now st :
  (forall a,
     a ∈ default [] (loginAttempts st !! getClientKey request) ->
     failed a -> (la_timestamp a + DAY <= now)%Z) ->
  validateBruteForce request now st = (inr tt, st).
Proof.
  intros Hold. rewrite validateBruteForce_decision.
  rewrite decide_False; [reflexivity|].
  intros [_ Hlen].
  assert (Hnil : recent_failures request now st = []).
  { unfold recent_failures. rewrite list_filter_filter.
    apply RateLimitProofs.filter_none. intros a Ha [Hf Hin].
    specialize (Hold a Ha Hf). unfold in_day_window in Hin. lia. }
  rewrite Hnil in Hlen. simpl in Hlen. lia.
Qed.

Definition login_request : APIRequest :=
  {| method := "POST"; path := "/api/auth/login"; body := None; headers := ∅;
     timestamp := Some 0%Z; nonce := "n"; signature := "c2ln" |}.

Definition failure (t : Z) : LoginAttempt :=
  {| la_username := "alice"; la_timestamp := t; la_ip := "unknown";
     la_fingerprint := "unknown"; la_success := false |}.

(** Four failed logins of one client, at 0, 1, 2 and 3 seconds. *)
Definition four_failures : state :=
  {| rateLimitMap := ∅;
     loginAttempts :=
       {[ getClientKey login_request := failure <$> [0; 1000; 2000; 3000]%Z ]} |}.

(** C6. With four failures the computed expiry is the last failure plus
    three days (3000 + 259200000 ms). One second after the last failure the
    login is refused; 24 hours after it (86403000 ms), still two days before
    the computed expiry, the login is let through. *)
Theorem lockout_ends_before_computed_expiry :
  lockoutUntil (recent_failures login_request 4000 four_failures)
    = Some 259203000%Z /\
  validateBruteForce login_request 4000 four_failures
    = (inl LOCKED, four_failures) /\
  (86403000 < 259203000)%Z /\
  validateBruteForce login_request 86403000 four_failures
    = (inr tt, four_failures).
Proof. repeat split; vm_compute; reflexivity. Qed.

End LockoutProofs.

(** ** Bit operations as arithmetic *)
Module BitLemmas.

(** [lia] after division and remainder by constants are turned into their
    defining equations. *)
Ltac dlia := zify; Z.to_euclidean_division_equations; lia.

Lemma shiftr_div (a : N) (k : N) : N.shiftr a k = (a / 2 ^ k)%N.
Proof. apply N.shiftr_div_pow2. Qed.

Lemma land_low_zero (hi lo k : N) :
  (lo < 2 ^ k)%N -> N.land (hi * 2 ^ k) lo = 0%N.
Proof.
  intros Hlo. apply N.bits_inj. intros n.
  rewrite N.land_spec, N.bits_0.
  destruct (N.lt_ge_cases n k) as [Hn|Hn].
  - rewrite N.mul_pow2_bits_low by exact Hn. reflexivity.
  - rewrite <- (N.mod_small lo (2 ^ k)) by exact Hlo.
    rewrite N.mod_pow2_bits_high by exact Hn. apply andb_false_r.
Qed.

(** [hi << k | lo] is [hi * 2^k + lo] when [lo] fits in [k] bits. *)
Lemma lor_add (hi lo k : N) :
  (lo < 2 ^ k)%N -> N.lor (hi * 2 ^ k) lo = (hi * 2 ^ k + lo)%N.
Proof.
  intros Hlo. pose proof (land_low_zero hi lo k Hlo) as Hz.
  rewrite <- N.lxor_lor by exact Hz. symmetry. by apply N.add_nocarry_lxor.
Qed.

Lemma shiftr_2 a : N.shiftr a 2 = (a / 4)%N.
Proof. exact (N.shiftr_div_pow2 a 2). Qed.
Lemma shiftr_4 a : N.shiftr a 4 = (a / 16)%N.
Proof. exact (N.shiftr_div_pow2 a 4). Qed.
Lemma shiftr_6 a : N.shiftr a 6 = (a / 64)%N.
Proof. exact (N.shiftr_div_pow2 a 6). Qed.
Lemma shiftr_10 a : N.shiftr a 10 = (a / 1024)%N.
Proof. exact (N.shiftr_div_pow2 a 10). Qed.
Lemma shiftr_12 a : N.shiftr a 12 = (a / 4096)%N.
Proof. exact (N.shiftr_div_pow2 a 12). Qed.
Lemma shiftr_18 a : N.shiftr a 18 = (a / 262144)%N.
Proof. exact (N.shiftr_div_pow2 a 18). Qed.
Lemma land_3 a : N.land a 3 = (a mod 4)%N.
Proof. exact (N.land_ones a 2). Qed.
Lemma land_7 a : N.land a 7 = (a mod 8)%N.
Proof. exact (N.land_ones a 3). Qed.
Lemma land_15 a : N.land a 15 = (a mod 16)%N.
Proof. exact (N.land_ones a 4). Qed.
Lemma land_31 a : N.land a 31 = (a mod 32)%N.
Proof. exact (N.land_ones a 5). Qed.
Lemma land_63 a : N.land a 63 = (a mod 64)%N.
Proof. exact (N.land_ones a 6). Qed.
Lemma land_1023 a : N.land a 1023 = (a mod 1024)%N.
Proof. exact (N.land_ones a 10). Qed.

Lemma lor_shiftl_2 hi lo : (lo < 4)%N -> N.lor (N.shiftl hi 2) lo = (hi * 4 + lo)%N.
Proof. intros H. rewrite N.shiftl_mul_pow2. exact (lor_add hi lo 2 H). Qed.
Lemma lor_shiftl_4 hi lo : (lo < 16)%N -> N.lor (N.shiftl hi 4) lo = (hi * 16 + lo)%N.
Proof. intros H. rewrite N.shiftl_mul_pow2. exact (lor_add hi lo 4 H). Qed.
Lemma lor_shiftl_6 hi lo : (lo < 64)%N -> N.lor (N.shiftl hi 6) lo = (hi * 64 + lo)%N.
Proof. intros H. rewrite N.shiftl_mul_pow2. exact (lor_add hi lo 6 H). Qed.
Lemma lor_128 lo : (lo < 64)%N -> N.lor 128 lo = (128 + lo)%N.
Proof. intros H. exact (lor_add 2 lo 6 H). Qed.
Lemma shiftl_2 a : N.shiftl a 2 = (a * 4)%N.
Proof. exact (N.shiftl_mul_pow2 a 2). Qed.
Lemma shiftl_4 a : N.shiftl a 4 = (a * 16)%N.
Proof. exact (N.shiftl_mul_pow2 a 4). Qed.

End BitLemmas.

(** ** Base64 transport encoding *)
Module Base64Proofs.
Import JS BitLemmas.

Lemma list_ind3 {A} (P : list A -> Prop) :
  P [] -> (forall a, P [a]) -> (forall a b, P [a; b]) ->
  (forall a b c l, P l -> P (a :: b :: c :: l)) ->
  forall l, P l.
Proof.
  intros H0 H1 H2 H3 l.
  cut (P l /\ (forall a, P (a :: l)) /\ (forall a b, P (a :: b :: l))).
  { tauto. }
  induction l as [|x l (IH0 & IH1 & IH2)]; repeat split; auto.
Qed.

Lemma below_64 (P : N -> Prop) :
  Forall P (N.of_nat <$> seq 0 64) -> forall v, (v < 64)%N -> P v.
Proof.
  intros HF v Hv. rewrite Forall_forall in HF. apply HF.
  apply list_elem_of_fmap. exists (N.to_nat v). split; [lia|].
  apply elem_of_seq. lia.
Qed.

Definition plain_char (v : N) : Prop :=
  b64_value (b64_char v) = Some v
  /\ is_ascii_whitespace (b64_char v) = false
  /\ (b64_char v <=? 255)%N = true.

#[local] Instance plain_char_dec v : Decision (plain_char v).
Proof. unfold plain_char. apply _. Defined.

(** Each of the 64 characters decodes to its own index and is neither white
    space nor beyond Latin-1. *)
Lemma b64_char_plain v : (v < 64)%N -> plain_char v.
Proof.
  apply below_64. refine (bool_decide_unpack _ _). vm_compute. exact I.
Qed.

Lemma b64_value_char v : (v < 64)%N -> b64_value (b64_char v) = Some v.
Proof. intros Hv. apply (b64_char_plain v Hv). Qed.

#[local] Arguments b64_char : simpl never.
#[local] Arguments b64_value : simpl never.
#[local] Arguments N.div : simpl never.
#[local] Arguments N.modulo : simpl never.
#[local] Arguments N.mul : simpl never.
#[local] Arguments N.add : simpl never.

Lemma b64_value_not_pad c v : b64_value c = Some v -> (c =? pad)%N = false.
Proof.
  intros Hc. destruct (N.eqb_spec c pad) as [->|]; [discriminate | reflexivity].
Qed.

Lemma strip_padding_cons c s :
  (2 <= length s)%nat -> strip_padding (c :: s) = c :: strip_padding s.
Proof.
  intros Hlen. unfold strip_padding. cbn [rev].
  destruct (rev s) as [|p1 [|p2 r]] eqn:Hrev.
  - apply (f_equal (@length N)) in Hrev. rewrite length_rev in Hrev.
    simpl in Hrev. lia.
  - apply (f_equal (@length N)) in Hrev. rewrite length_rev in Hrev.
    simpl in Hrev. lia.
  - cbn [app]. destruct (p1 =? pad)%N; [|reflexivity].
    destruct (p2 =? pad)%N.
    + rewrite rev_app_distr. reflexivity.
    + change (p2 :: r ++ [c]) with ((p2 :: r) ++ [c]).
      rewrite rev_app_distr. reflexivity.
Qed.

(** A leading group of four alphabet characters decodes to three octets, in
    front of what the rest decodes to. *)
Lemma forgiving_decode_group c1 c2 c3 c4 v1 v2 v3 v4 s :
  b64_value c1 = Some v1 -> b64_value c2 = Some v2 ->
  b64_value c3 = Some v3 -> b64_value c4 = Some v4 ->
  (length s mod 4 = 0)%nat ->
  forgiving_decode (c1 :: c2 :: c3 :: c4 :: s) =
  option_map
    (fun r =>
       N.lor (N.shiftl v1 2) (N.shiftr v2 4)
       :: N.lor (N.shiftl (N.land v2 15) 4) (N.shiftr v3 2)
       :: N.lor (N.shiftl (N.land v3 3) 6) v4 :: r)
    (forgiving_decode s).
Proof.
  intros H1 H2 H3 H4 Hlen. unfold forgiving_decode.
  replace (length (c1 :: c2 :: c3 :: c4 :: s) mod 4 =? 0)%nat with true
    by (symmetry; apply Nat.eqb_eq; cbn [length]; dlia).
  replace (length s mod 4 =? 0)%nat with true
    by (symmetry; apply Nat.eqb_eq; exact Hlen).
  destruct s as [|x1 s'].
  - unfold strip_padding. cbn [rev app].
    rewrite (b64_value_not_pad c4 v4 H4).
    cbn. rewrite H1, H2, H3, H4. reflexivity.
  - assert (Hlong : (4 <= length (x1 :: s'))%nat).
    { cbn [length] in *. dlia. }
    set (s := x1 :: s') in *.
    rewrite !strip_padding_cons by (cbn [length]; lia).
    replace (length (c1 :: c2 :: c3 :: c4 :: strip_padding s) mod 4 =? 1)%nat
      with (length (strip_padding s) mod 4 =? 1)%nat.
    2: { cbn [length].
         destruct (Nat.eqb_spec (length (strip_padding s) mod 4) 1);
         destruct (Nat.eqb_spec (S (S (S (S (length (strip_padding s))))) mod 4) 1);
         try reflexivity; exfalso; dlia. }
    destruct (length (strip_padding s) mod 4 =? 1)%nat; [reflexivity|].
    cbn [b64_values]. rewrite H1, H2, H3, H4.
    destruct (b64_values (strip_padding s)); reflexivity.
Qed.

Definition octet (x : N) : Prop := (x < 256)%N.

Lemma length_b64_encode l : (length (b64_encode l) mod 4 = 0)%nat.
Proof.
  induction l as [|a|a b|a b c l IH] using list_ind3; try reflexivity.
  cbn [b64_encode length]. dlia.
Qed.

Lemma b64_encode_clean l :
  Forall octet l ->
  Forall (fun c => negb (is_ascii_whitespace c) = true) (b64_encode l).
Proof.
  unfold octet.
  induction l as [|a|a b|a b c l IH] using list_ind3; intros Hl.
  - constructor.
  - inversion_clear Hl as [|? ? Ha _]. cbn [b64_encode].
    rewrite shiftr_2, land_3, shiftl_4.
    repeat constructor;
      try (apply negb_true_iff, (b64_char_plain _); dlia).
  - inversion_clear Hl as [|? ? Ha Hl']. inversion_clear Hl' as [|? ? Hb _].
    cbn [b64_encode].
    rewrite shiftr_2, land_3, shiftr_4, land_15, shiftl_2.
    rewrite lor_shiftl_4 by dlia.
    repeat constructor;
      try (apply negb_true_iff, (b64_char_plain _); dlia).
  - inversion_clear Hl as [|? ? Ha Hl']. inversion_clear Hl' as [|? ? Hb Hl''].
    inversion_clear Hl'' as [|? ? Hc Hl]. cbn [b64_encode].
    rewrite shiftr_2, land_3, shiftr_4, land_15, shiftr_6, land_63.
    rewrite lor_shiftl_4, lor_shiftl_2 by dlia.
    repeat (constructor;
      [apply negb_true_iff, (b64_char_plain _); dlia|]).
    by apply IH.
Qed.

Lemma filter_all {A} (f : A -> bool) l :
  Forall (fun x => f x = true) l -> List.filter f l = l.
Proof.
  induction 1 as [|x l Hx _ IH]; [reflexivity|].
  cbn [List.filter]. rewrite Hx, IH. reflexivity.
Qed.

Lemma forgiving_decode_encode l :
  Forall octet l -> forgiving_decode (b64_encode l) = Some l.
Proof.
  unfold octet.
  induction l as [|a|a b|a b c l IH] using list_ind3; intros Hl.
  - reflexivity.
  - inversion_clear Hl as [|? ? Ha _]. cbn [b64_encode].
    unfold forgiving_decode, strip_padding. cbn.
    rewrite !b64_value_char by (rewrite ?shiftr_2, ?land_3, ?shiftl_4; dlia).
    cbn. rewrite shiftr_2, land_3, shiftl_4, shiftr_4.
    rewrite lor_shiftl_2 by dlia. do 2 f_equal. dlia.
  - inversion_clear Hl as [|? ? Ha Hl']. inversion_clear Hl' as [|? ? Hb _].
    cbn [b64_encode].
    rewrite shiftr_2, land_3, shiftr_4, land_15, shiftl_2.
    rewrite lor_shiftl_4 by dlia.
    unfold forgiving_decode, strip_padding. cbn.
    rewrite (b64_value_not_pad _ _ (b64_value_char (b mod 16 * 4) ltac:(dlia))).
    cbn.
    rewrite !b64_value_char by dlia.
    cbn. rewrite !shiftr_4, land_15, shiftr_2.
    rewrite lor_shiftl_2, lor_shiftl_4 by dlia. do 2 f_equal; [dlia|].
    f_equal. dlia.
  - inversion_clear Hl as [|? ? Ha Hl']. inversion_clear Hl' as [|? ? Hb Hl''].
    inversion_clear Hl'' as [|? ? Hc Hl]. cbn [b64_encode].
    rewrite shiftr_2, land_3, shiftr_4, land_15, shiftr_6, land_63.
    rewrite lor_shiftl_4, lor_shiftl_2 by dlia.
    rewrite (forgiving_decode_group _ _ _ _
               (a / 4) (a mod 4 * 16 + b / 16) (b mod 16 * 4 + c / 64) (c mod 64))%N;
      try (apply b64_value_char; dlia); [|apply length_b64_encode].
    rewrite (IH Hl). cbn [option_map].
    rewrite shiftr_4, land_15, shiftr_2, land_3.
    rewrite lor_shiftl_2, lor_shiftl_4, lor_shiftl_6 by dlia.
    do 2 f_equal; [dlia|]. f_equal; [dlia|]. f_equal. dlia.
Qed.

Lemma atob_encode l : Forall octet l -> atob (b64_encode l) = Some l.
Proof.
  intros Hl. unfold atob.
  rewrite (filter_all _ _ (b64_encode_clean l Hl)).
  by apply forgiving_decode_encode.
Qed.

Lemma u8_to_N b : u8 (Byte.to_N b) = b.
Proof.
  unfold u8. pose proof (Byte.to_N_bounded b).
  rewrite N.mod_small by lia. by rewrite Byte.of_to_N.
Qed.

Lemma to_N_u8 n : Byte.to_N (u8 n) = (n mod 256)%N.
Proof.
  unfold u8. destruct (Byte.of_N (n mod 256)) as [b|] eqn:Hb.
  - by apply Byte.to_of_N.
  - apply Byte.of_N_None_iff in Hb. dlia.
Qed.

(** The binary string made of a buffer: one code unit below 256 per octet. *)
Definition binary_of (buffer : list byte) : jsstring :=
  map (fun b => fromCharCode (Byte.to_N b)) buffer.

Lemma binary_of_octets buffer : Forall octet (binary_of buffer).
Proof.
  unfold binary_of. apply Forall_forall. intros x Hx.
  apply list_elem_of_In, in_map_iff in Hx as (b & <- & _).
  unfold octet, fromCharCode. pose proof (Byte.to_N_bounded b). dlia.
Qed.

Lemma binary_of_bytes buffer : map u8 (binary_of buffer) = buffer.
Proof.
  unfold binary_of. rewrite map_map. rewrite <- (map_id buffer) at 2.
  apply map_ext. intros b. unfold fromCharCode.
  pose proof (Byte.to_N_bounded b).
  rewrite N.mod_small by lia. apply u8_to_N.
Qed.

Lemma arrayBufferToBase64_returns buffer :
  CryptoManager.arrayBufferToBase64 buffer = Return (b64_encode (binary_of buffer)).
Proof.
  unfold CryptoManager.arrayBufferToBase64, btoa. fold (binary_of buffer).
  replace (forallb _ (binary_of buffer)) with true; [reflexivity|].
  symmetry. apply forallb_forall. intros x Hx.
  pose proof (binary_of_octets buffer) as Hoct.
  rewrite Forall_forall in Hoct. apply list_elem_of_In, Hoct in Hx.
  unfold octet in Hx. apply N.leb_le. lia.
Qed.

Lemma base64ToArrayBuffer_encode buffer :
  CryptoManager.base64ToArrayBuffer (b64_encode (binary_of buffer)) = Return buffer.
Proof.
  unfold CryptoManager.base64ToArrayBuffer.
  rewrite atob_encode by apply binary_of_octets.
  cbn. by rewrite binary_of_bytes.
Qed.

(** C9. For every byte sequence, the empty one included,
    [arrayBufferToBase64] returns a string from which [base64ToArrayBuffer]
    returns exactly the original bytes. *)
Theorem base64_round_trip (bytes : list byte) :
  exists base64,
    CryptoManager.arrayBufferToBase64 bytes = Return base64 /\
    CryptoManager.base64ToArrayBuffer base64 = Return bytes.
Proof.
  exists (b64_encode (binary_of bytes)). split.
  - apply arrayBufferToBase64_returns.
  - apply base64ToArrayBuffer_encode.
Qed.

End Base64Proofs.

(** ** CAPTCHA tokens are single-use *)
Module CaptchaProofs.
Import JS AuthManager.

(** What may happen to the token store after a validation: further calls of
    [validateCaptcha], and challenges stored by [getCaptcha]. *)
Inductive action : Type :=
| Validate (userInput : answer) (token : jsstring) (now : Z)
| Issue (token challenge : jsstring) (solution : option jsstring) (now : Z).

Definition issues (token : jsstring) (a : action) : Prop :=
  match a with
  | Issue token' _ _ _ => token' = token
  | Validate _ _ _ => False
  end.

Section WithLowerCase.
Variable toLowerCase : jsstring -> jsstring.

Definition perform (a : action) (tokens : gmap jsstring captchaData)
  : gmap jsstring captchaData :=
  match a with
  | Validate userInput token now =>
      snd (validateCaptcha toLowerCase userInput token now tokens)
  | Issue token challenge solution now =>
      storeCaptcha token challenge solution now tokens
  end.

Definition run (actions : list action) (tokens : gmap jsstring captchaData)
  : gmap jsstring captchaData :=
  fold_left (fun m a => perform a m) actions tokens.

Definition spent (token : jsstring) (tokens : gmap jsstring captchaData) : Prop :=
  exists d, tokens !! token = Some d /\ used d = true.

(** The two outcomes of a call: the store untouched, or the entry of the
    token marked used. *)
Lemma validateCaptcha_outcome userInput token now tokens :
  validateCaptcha toLowerCase userInput token now tokens = (false, tokens)
  \/ exists d,
       tokens !! token = Some d /\
       validateCaptcha toLowerCase userInput token now tokens
       = (true, <[token := mark_used d]> tokens).
Proof.
  unfold validateCaptcha.
  destruct (tokens !! token) as [d|]; [|by left].
  destruct (used d || _); [by left|].
  destruct (andThen _ _) as [[|]|e]; [right; by exists d | by left | by left].
Qed.

Lemma validateCaptcha_true_spent userInput token now tokens tokens' :
  validateCaptcha toLowerCase userInput token now tokens = (true, tokens') ->
  spent token tokens'.
Proof.
  destruct (validateCaptcha_outcome userInput token now tokens)
    as [->|(d & _ & ->)]; [discriminate|].
  intros [= <-]. exists (mark_used d). by rewrite lookup_insert_eq.
Qed.

Lemma validateCaptcha_spent_false userInput token now tokens :
  spent token tokens ->
  validateCaptcha toLowerCase userInput token now tokens = (false, tokens).
Proof.
  intros (d & Hd & Hused). unfold validateCaptcha. rewrite Hd, Hused.
  reflexivity.
Qed.

Lemma perform_keeps_spent token a tokens :
  ~ issues token a -> spent token tokens -> spent token (perform a tokens).
Proof.
  intros Hissue Hspent. destruct a as [userInput token' now|token' c s now];
    cbn [perform issues] in *.
  - destruct (decide (token' = token)) as [->|Hne].
    + by rewrite validateCaptcha_spent_false.
    + destruct Hspent as (d & Hd & Hused).
      destruct (validateCaptcha_outcome userInput token' now tokens)
        as [->|(d' & _ & ->)]; cbn [snd]; [by exists d|].
      exists d. by rewrite lookup_insert_ne.
  - destruct Hspent as (d & Hd & Hused). exists d.
    unfold storeCaptcha. by rewrite lookup_insert_ne.
Qed.

Lemma run_keeps_spent token actions :
  forall tokens,
    Forall (fun a => ~ issues token a) actions ->
    spent token tokens -> spent token (run actions tokens).
Proof.
  induction actions as [|a actions IH]; intros tokens Hno Hspent; [exact Hspent|].
  inversion_clear Hno as [|? ? Ha Hrest]. cbn [run fold_left].
  apply IH; [exact Hrest|]. by apply perform_keeps_spent.
Qed.

End WithLowerCase.

(** Lower-casing of the ASCII letters, the other code units unchanged. *)
Definition ascii_lower (s : jsstring) : jsstring :=
  map (fun c => if ((65 <=? c) && (c <=? 90))%N then (c + 32)%N else c) s.

(** A store holding one fresh challenge, issued at time 0. *)
Definition one_challenge : gmap jsstring captchaData :=
  storeCaptcha (lit "tok-1") (lit "2+2") (Some (lit "Four")) 0 ∅.

(** The store after the challenge has been answered. *)
Definition answered : gmap jsstring captchaData :=
  <[lit "tok-1" :=
      {| challenge := lit "2+2"; solution := Some (lit "Four");
         createdAt := 0; used := true |}]> one_challenge.

(** C7 fails as stated: when a response of [getCaptcha] carries a token
    again, the entry stored for it has [used: false], and the token that was
    validated before is validated a second time. *)
Lemma reissued_token_validates_again :
  validateCaptcha ascii_lower (Text (lit "FOUR")) (lit "tok-1") 1000 one_challenge
    = (true, answered)
  /\ fst (validateCaptcha ascii_lower (Text (lit "four")) (lit "tok-1") 3000
            (storeCaptcha (lit "tok-1") (lit "2+2") (Some (lit "Four")) 2000
               answered))
     = true.
Proof. split; vm_compute; reflexivity. Qed.

(** C7, amended. Once [validateCaptcha] has returned [true] for a token,
    every later call with that token returns [false], whatever the answer
    and the time, as long as no challenge has been stored under that token
    again; other validations and other tokens' challenges in between change
    nothing. *)
Theorem captcha_single_use (toLowerCase : jsstring -> jsstring)
    (userInput : answer) (token : jsstring) (now : Z)
    (tokens tokens' : gmap jsstring captchaData) :
  validateCaptcha toLowerCase userInput token now tokens = (true, tokens') ->
  forall (between : list action) (userInput' : answer) (now' : Z),
    Forall (fun a => ~ issues token a) between ->
    fst (validateCaptcha toLowerCase userInput' token now'
           (run toLowerCase between tokens')) = false.
Proof.
  intros Hvalid between userInput' now' Hno.
  rewrite validateCaptcha_spent_false; [reflexivity|].
  apply run_keeps_spent; [exact Hno|].
  by apply (validateCaptcha_true_spent _ _ _ _ _ _ Hvalid).
Qed.

(** The answer "FOUR" is accepted one second after issue; one second later
    the correct answer "four" is refused, another attempt and another token's
    challenge having come in between. *)
Lemma captcha_single_use_witness :
  validateCaptcha ascii_lower (Text (lit "FOUR")) (lit "tok-1") 1000 one_challenge
    = (true, answered) /\
  fst (validateCaptcha ascii_lower (Text (lit "four")) (lit "tok-1") 2000
         (run ascii_lower
            [Validate (Text (lit "Four")) (lit "tok-1") 1500;
             Issue (lit "tok-2") (lit "1+1") (Some (lit "two")) 1600]
            answered))
    = false.
Proof.
  split.
  - vm_compute. reflexivity.
  - apply (captcha_single_use ascii_lower (Text (lit "FOUR")) (lit "tok-1") 1000
             one_challenge).
    + vm_compute. reflexivity.
    + repeat constructor; cbn [issues]; [tauto | discriminate].
Defined.

End CaptchaProofs.

(** ** UTF-8: what [TextDecoder] makes of what [TextEncoder] produced *)
Module Utf8Proofs.
Import JS BitLemmas.

(** A Unicode scalar value. *)
Definition scalar (cp : N) : Prop :=
  (cp < 1114112)%N /\ ~ (55296 <= cp <= 57343)%N.

Lemma continuation_arith x : continuation x = (128 + x mod 64)%N.
Proof. unfold continuation. rewrite land_63. apply lor_128. dlia. Qed.

(** Settle every comparison of the goal by arithmetic. *)
Ltac settle :=
  repeat match goal with
    | |- context [(?a <=? ?b)%N] =>
        destruct (N.leb_spec a b); [|try (exfalso; dlia)];
        try (exfalso; dlia)
    | |- context [(?a =? ?b)%N] =>
        destruct (N.eqb_spec a b); [|try (exfalso; dlia)];
        try (exfalso; dlia)
    | |- context [(?a <? ?b)%N] =>
        destruct (N.ltb_spec a b); [|try (exfalso; dlia)];
        try (exfalso; dlia)
    end.

Lemma utf8_encode_cp_octets cp :
  (cp < 1114112)%N -> Forall Base64Proofs.octet (utf8_encode_cp cp).
Proof.
  intros Hcp. unfold utf8_encode_cp, Base64Proofs.octet.
  rewrite !continuation_arith, ?shiftr_6, ?shiftr_12, ?shiftr_18.
  settle; repeat constructor; dlia.
Qed.

#[local] Arguments N.div : simpl never.
#[local] Arguments N.modulo : simpl never.
#[local] Arguments N.mul : simpl never.
#[local] Arguments N.add : simpl never.
#[local] Arguments N.sub : simpl never.
#[local] Arguments N.leb : simpl never.
#[local] Arguments N.ltb : simpl never.
#[local] Arguments N.eqb : simpl never.
#[local] Arguments N.land : simpl never.
#[local] Arguments N.lor : simpl never.
#[local] Arguments N.shiftl : simpl never.
#[local] Arguments N.shiftr : simpl never.

(** Run the decoder over the next byte of the goal. *)
Ltac feed :=
  cbn [app utf8_run]; unfold utf8_step at 1, utf8_lead; cbn;
  rewrite ?land_7, ?land_15, ?land_31, ?land_63;
  rewrite ?lor_shiftl_6 by dlia;
  settle; cbn.

(** The decoder, having nothing pending, reads the encoding of a scalar value
    back as that value and has nothing pending again. *)
Lemma utf8_run_encode_cp cp rest :
  scalar cp ->
  utf8_run decoder_init (utf8_encode_cp cp ++ rest)
  = cp :: utf8_run decoder_init rest.
Proof.
  intros [Hmax Hsur]. unfold utf8_encode_cp.
  rewrite !continuation_arith, ?shiftr_6, ?shiftr_12, ?shiftr_18.
  destruct (N.leb_spec cp 127); [|destruct (N.leb_spec cp 2047);
    [|destruct (N.leb_spec cp 65535)]].
  - feed. reflexivity.
  - remember (cp / 64)%N as a. remember (cp mod 64)%N as b.
    assert (cp = a * 64 + b /\ 2 <= a < 32 /\ b < 64)%N as (-> & Ha & Hb)
      by (subst a b; dlia).
    clear Heqa Heqb. do 2 feed. f_equal. dlia.
  - remember (cp / 4096)%N as a. remember ((cp / 64) mod 64)%N as b.
    remember (cp mod 64)%N as c.
    assert (cp = a * 4096 + b * 64 + c /\ a < 16 /\ b < 64 /\ c < 64)%N
      as (Hcp & Ha & Hb & Hc) by (subst a b c; dlia).
    clear Heqa Heqb Heqc. subst cp.
    do 3 feed; f_equal; dlia.
  - remember (cp / 262144)%N as a. remember ((cp / 4096) mod 64)%N as b.
    remember ((cp / 64) mod 64)%N as c. remember (cp mod 64)%N as d.
    assert (cp = a * 262144 + b * 4096 + c * 64 + d
            /\ a < 5 /\ b < 64 /\ c < 64 /\ d < 64)%N
      as (Hcp & Ha & Hb & Hc & Hd) by (subst a b c d; dlia).
    clear Heqa Heqb Heqc Heqd. subst cp.
    do 4 feed; f_equal; dlia.
Qed.

Lemma utf8_decode_encode cps :
  Forall scalar cps -> utf8_decode (utf8_encode cps) = cps.
Proof.
  unfold utf8_decode, utf8_encode.
  induction 1 as [|cp cps Hcp _ IH]; [reflexivity|].
  cbn [flat_map]. rewrite utf8_run_encode_cp by exact Hcp. by rewrite IH.
Qed.

Lemma utf8_encode_octets cps :
  Forall scalar cps -> Forall Base64Proofs.octet (utf8_encode cps).
Proof.
  unfold utf8_encode. induction 1 as [|cp cps [Hcp _] _ IH]; [constructor|].
  cbn [flat_map]. apply Forall_app. split; [|exact IH].
  by apply utf8_encode_cp_octets.
Qed.

Lemma to_N_u8_octets l :
  Forall Base64Proofs.octet l -> map Byte.to_N (map u8 l) = l.
Proof.
  induction 1 as [|x l Hx _ IH]; [reflexivity|].
  cbn [map]. rewrite IH, Base64Proofs.to_N_u8.
  unfold Base64Proofs.octet in Hx. f_equal. dlia.
Qed.

(** A well-formed string is the UTF-16 form of its scalar values. *)
Lemma well_formed_scalars s :
  well_formed s = true ->
  Forall scalar (scalar_values s) /\ flat_map code_units_of (scalar_values s) = s.
Proof.
  remember (length s) as n eqn:Hn. revert s Hn.
  induction n as [n IH] using lt_wf_ind. intros s Hn Hwf.
  destruct s as [|c r]; [split; [constructor | reflexivity]|].
  cbn [well_formed scalar_values] in *.
  destruct (is_high_surrogate c) eqn:Hhigh.
  - destruct r as [|d r']; [discriminate|].
    apply andb_true_iff in Hwf as [Hlow Hwf]. rewrite Hlow.
    destruct (IH (length r')) with (s := r') as [Hsc Hunits];
      [subst n; cbn [length]; lia | reflexivity | exact Hwf |].
    unfold is_high_surrogate, is_low_surrogate in Hhigh, Hlow.
    apply andb_true_iff in Hhigh as [Hc1 Hc2]. apply andb_true_iff in Hlow as [Hd1 Hd2].
    apply N.leb_le in Hc1, Hc2, Hd1, Hd2.
    split.
    + constructor; [|exact Hsc]. unfold scalar. lia.
    + cbn [flat_map]. rewrite Hunits. unfold code_units_of.
      destruct (N.ltb_spec (65536 + (c - 55296) * 1024 + (d - 56320)) 65536);
        [lia|].
      rewrite shiftr_10, land_1023. cbn [app]. f_equal; [dlia|]. f_equal. dlia.
  - apply andb_true_iff in Hwf as [Hwf Hrest].
    apply andb_true_iff in Hwf as [Hlow Hbmp].
    apply negb_true_iff in Hlow. rewrite Hlow.
    destruct (IH (length r)) with (s := r) as [Hsc Hunits];
      [subst n; cbn [length]; lia | reflexivity | exact Hrest |].
    unfold is_high_surrogate, is_low_surrogate in Hhigh, Hlow.
    apply N.ltb_lt in Hbmp.
    apply andb_false_iff in Hhigh, Hlow. rewrite !N.leb_gt in Hhigh, Hlow.
    split.
    + constructor; [|exact Hsc]. unfold scalar. lia.
    + cbn [flat_map]. rewrite Hunits. unfold code_units_of.
      destruct (N.ltb_spec c 65536); [reflexivity | lia].
Qed.

Lemma strip_bom_other b r : b <> 239%N -> strip_bom (b :: r) = b :: r.
Proof.
  intros Hb. unfold strip_bom. destruct r as [|b2 [|b3 r']]; try reflexivity.
  destruct (N.eqb_spec b 239); [contradiction | reflexivity].
Qed.

(** Only U+FEFF is encoded as EF BB BF. *)
Lemma strip_bom_encode_cp cp rest :
  scalar cp -> cp <> 65279%N ->
  strip_bom (utf8_encode_cp cp ++ rest) = utf8_encode_cp cp ++ rest.
Proof.
  intros [Hmax Hsur] Hbom. unfold utf8_encode_cp.
  rewrite !continuation_arith, ?shiftr_6, ?shiftr_12, ?shiftr_18.
  destruct (N.leb_spec cp 127); [|destruct (N.leb_spec cp 2047);
    [|destruct (N.leb_spec cp 65535)]];
    try (cbn [app]; apply strip_bom_other; dlia).
  cbn [app]. unfold strip_bom.
  destruct (N.eqb_spec (cp / 4096 + 224) 239); [|reflexivity].
  destruct (N.eqb_spec (128 + (cp / 64) mod 64) 187); [|reflexivity].
  destruct (N.eqb_spec (128 + cp mod 64) 191); [|reflexivity].
  exfalso. dlia.
Qed.

Lemma strip_bom_encode s :
  well_formed s = true -> head s <> Some 65279%N ->
  strip_bom (utf8_encode (scalar_values s)) = utf8_encode (scalar_values s).
Proof.
  intros Hwf Hhead.
  destruct (well_formed_scalars s Hwf) as [Hsc _].
  destruct s as [|c r]; [reflexivity|].
  cbn [well_formed scalar_values] in *.
  destruct (is_high_surrogate c) eqn:Hhigh.
  - destruct r as [|d r']; [discriminate|].
    apply andb_true_iff in Hwf as [Hlow _]. rewrite Hlow in *.
    inversion_clear Hsc as [|? ? Hcp _].
    unfold utf8_encode. cbn [flat_map]. apply strip_bom_encode_cp; [exact Hcp|].
    unfold is_high_surrogate in Hhigh. apply andb_true_iff in Hhigh as [Hc1 _].
    apply N.leb_le in Hc1. lia.
  - apply andb_true_iff in Hwf as [Hwf _].
    apply andb_true_iff in Hwf as [Hlow _].
    apply negb_true_iff in Hlow. rewrite Hlow in *.
    inversion_clear Hsc as [|? ? Hcp _].
    unfold utf8_encode. cbn [flat_map]. apply strip_bom_encode_cp; [exact Hcp|].
    intros ->. by apply Hhead.
Qed.



(** [TextDecoder] returns a well-formed string that does not begin with
    U+FEFF from its [TextEncoder] encoding. *)
Lemma TextDecoder_decode_encode s :
  well_formed s = true -> head s <> Some 65279%N ->
  TextDecoder_decode (TextEncoder_encode s) = s.
Proof.
  intros Hwf Hhead. destruct (well_formed_scalars s Hwf) as [Hsc Hunits].
  unfold TextDecoder_decode, TextEncoder_encode.
  rewrite to_N_u8_octets by (by apply utf8_encode_octets).
  rewrite strip_bom_encode by assumption.
  by rewrite utf8_decode_encode.
Qed.

(** A leading U+FEFF does not survive: the decoder takes its encoding for a
    byte-order mark. *)
Lemma TextDecoder_decode_encode_bom rest :
  well_formed rest = true ->
  TextDecoder_decode (TextEncoder_encode (65279%N :: rest)) = rest.
Proof.
  intros Hwf. destruct (well_formed_scalars rest Hwf) as [Hsc Hunits].
  unfold TextDecoder_decode, TextEncoder_encode.
  change (scalar_values (65279%N :: rest)) with (65279%N :: scalar_values rest).
  rewrite to_N_u8_octets.
  - change (utf8_encode (65279%N :: scalar_values rest))
      with (239%N :: 187%N :: 191%N :: utf8_encode (scalar_values rest)).
    cbn [strip_bom]. change ((239 =? 239) && (187 =? 187) && (191 =? 191))%N with true.
    cbn iota. by rewrite utf8_decode_encode.
  - apply utf8_encode_octets. constructor; [|exact Hsc]. unfold scalar. lia.
Qed.


End Utf8Proofs.

(** ** An executable WebCrypto *)
Module ModelCrypto.
Import JS.

#[export] Instance byte_eq_decision : EqDecision byte := Byte.byte_eq_dec.

(** A self-delimiting encoding of a byte string: [01 b] per byte, then [00]. *)
Definition frame (l : list byte) : list byte :=
  flat_map (fun b => [x01; b]) l ++ [x00].

Fixpoint unframe (bs : list byte) : option (list byte * list byte) :=
  match bs with
  | x00 :: r => Some ([], r)
  | x01 :: b :: r =>
      match unframe r with
      | Some (l, r') => Some (b :: l, r')
      | None => None
      end
  | _ => None
  end.

(** The sealed box: key, nonce and additional data in front of the data.
    It keeps nothing secret; it opens only under the key, nonce and
    additional data it was sealed with. *)
Definition seal (key iv ad data : list byte) : completion (list byte) :=
  Return (frame key ++ frame iv ++ frame ad ++ data).

Definition open (key iv ad ct : list byte) : completion (list byte) :=
  match unframe ct with
  | Some (key', r1) =>
      match unframe r1 with
      | Some (iv', r2) =>
          match unframe r2 with
          | Some (ad', data) =>
              if bool_decide (key' = key /\ iv' = iv /\ ad' = ad)
              then Return data
              else Throw (DOMException "OperationError")
          | None => Throw (DOMException "OperationError")
          end
      | None => Throw (DOMException "OperationError")
      end
  | None => Throw (DOMException "OperationError")
  end.

(** Importing an RSA-OAEP key for ['verify'] is refused, as by WebCrypto;
    verification compares the signature with the key followed by the data. *)
#[export] Instance model : WebCrypto :=
  {| CryptoKey := list byte;
     aes_gcm_encrypt := seal;
     aes_gcm_decrypt := open;
     importKey_spki := fun _ => Throw (DOMException "SyntaxError");
     rsa_pss_verify := fun key sig data => Return (bool_decide (sig = key ++ data)) |}.

Lemma unframe_frame l r : unframe (frame l ++ r) = Some (l, r).
Proof.
  unfold frame. induction l as [|b l IH]; [reflexivity|].
  cbn [flat_map app unframe] in *. by rewrite IH.
Qed.

Lemma open_seal key iv ad ad' data :
  open key iv ad' (frame key ++ frame iv ++ frame ad ++ data) =
    if bool_decide (ad = ad') then Return data
    else Throw (DOMException "OperationError").
Proof.
  unfold open. rewrite !unframe_frame.
  destruct (decide (ad = ad')) as [->|Hne].
  - rewrite !bool_decide_eq_true_2; auto.
  - rewrite !bool_decide_eq_false_2; [reflexivity | exact Hne | tauto].
Qed.

#[export] Instance model_correct : AeadCorrect model.
Proof.
  intros key iv ad data ct [= <-]. cbn. rewrite open_seal.
  by rewrite bool_decide_eq_true_2.
Qed.

End ModelCrypto.

(** ** Envelopes: encryption, decryption, signature verification *)
Module EnvelopeProofs.
Import JS CryptoManager.

Definition DECRYPT_FAILED : exn := Error "Failed to decrypt message".

(** A signature that is not base64, or a serialized public key that is not
    base64 or that [importKey] refuses. *)
Definition malformed `{WebCrypto} (signature : jsstring)
    (publicKey : CryptoKey + jsstring) : Prop :=
  atob signature = None \/
  match publicKey with
  | inl _ => False
  | inr serialized =>
      match base64ToArrayBuffer serialized with
      | Return bytes => exists e, importKey_spki bytes = Throw e
      | Throw _ => True
      end
  end.

Section WithWebCrypto.
Context {wc : WebCrypto}.

(** What a successful [encryptMessage] has done. *)
Lemma encryptMessage_returns this message key conversationId iv_random salt_random env :
  encryptMessage this message key conversationId iv_random salt_random = Return env ->
  isInitialized this = true /\
  exists ct,
    aes_gcm_encrypt key iv_random (TextEncoder_encode conversationId)
      (TextEncoder_encode message) = Return ct /\
    ciphertext env = b64_encode (Base64Proofs.binary_of ct) /\
    iv env = b64_encode (Base64Proofs.binary_of iv_random).
Proof.
  unfold encryptMessage.
  destruct (isInitialized this); cbn [negb try_catch]; [|discriminate].
  destruct (aes_gcm_encrypt _ _ _ _) as [ct|e]; cbn [andThen]; [|discriminate].
  rewrite !Base64Proofs.arrayBufferToBase64_returns. cbn [andThen try_catch].
  intros [= <-]. split; [reflexivity|]. exists ct. auto.
Qed.

(** Decryption with the context of encryption returns the plaintext as
    [TextDecoder] reads its encoding. *)
Lemma decryptMessage_encryptMessage `{!AeadCorrect wc}
    this message key conversationId iv_random salt_random env :
  encryptMessage this message key conversationId iv_random salt_random = Return env ->
  decryptMessage this env key conversationId
    = Return (TextDecoder_decode (TextEncoder_encode message)).
Proof.
  intros Henc.
  apply encryptMessage_returns in Henc as (Hinit & ct & Hct & Hc & Hiv).
  unfold decryptMessage. rewrite Hinit, Hc, Hiv. cbn [negb].
  rewrite !Base64Proofs.base64ToArrayBuffer_encode. cbn [andThen].
  rewrite (decrypt_encrypt _ _ _ _ _ Hct). reflexivity.
Qed.

(** So a plaintext that begins with U+FEFF comes back without it. *)
Lemma decryptMessage_drops_leading_bom `{!AeadCorrect wc}
    this rest key conversationId iv_random salt_random env :
  well_formed rest = true ->
  encryptMessage this (65279%N :: rest) key conversationId iv_random salt_random
    = Return env ->
  decryptMessage this env key conversationId = Return rest.
Proof.
  intros Hwf Henc.
  rewrite (decryptMessage_encryptMessage _ _ _ _ _ _ _ Henc).
  by rewrite Utf8Proofs.TextDecoder_decode_encode_bom.
Qed.

(** Decryption with a context whose encoding is the same succeeds as well. *)
Lemma decryptMessage_same_encoding `{!AeadCorrect wc}
    this message key context1 context2 iv_random salt_random env :
  encryptMessage this message key context1 iv_random salt_random = Return env ->
  TextEncoder_encode context1 = TextEncoder_encode context2 ->
  decryptMessage this env key context2
    = Return (TextDecoder_decode (TextEncoder_encode message)).
Proof.
  intros Henc Hsame.
  rewrite <- (decryptMessage_encryptMessage _ _ _ _ _ _ _ Henc).
  unfold decryptMessage. by rewrite Hsame.
Qed.

(** What [decryptMessage] makes of an envelope of [encryptMessage], under
    any context: AES-GCM is handed the ciphertext and the nonce of the
    encryption, with the encoding of the context as additional data, and its
    outcome decides. *)
Lemma decryptMessage_of_envelope
    this message key context1 context2 iv_random salt_random env :
  encryptMessage this message key context1 iv_random salt_random = Return env ->
  exists ct,
    aes_gcm_encrypt key iv_random (TextEncoder_encode context1)
      (TextEncoder_encode message) = Return ct
    /\ decryptMessage this env key context2
       = match aes_gcm_decrypt key iv_random (TextEncoder_encode context2) ct with
         | Return data => Return (TextDecoder_decode data)
         | Throw _ => Throw DECRYPT_FAILED
         end.
Proof.
  intros Henc.
  apply encryptMessage_returns in Henc as (Hinit & ct & Hct & Hc & Hiv).
  exists ct. split; [exact Hct|].
  unfold decryptMessage. rewrite Hinit, Hc, Hiv. cbn [negb].
  rewrite !Base64Proofs.base64ToArrayBuffer_encode. cbn [andThen].
  by destruct (aes_gcm_decrypt _ _ _ _).
Qed.

(** The key decrypts what it encrypts, under the same nonce and additional
    data: so AES-GCM does with a key that has the [decrypt] usage beside
    [encrypt]. *)
Definition decrypts (key : CryptoKey) : Prop :=
  forall iv ad data ct,
    aes_gcm_encrypt key iv ad data = Return ct ->
    aes_gcm_decrypt key iv ad ct = Return data.

(** C1, amended. For every plaintext that is a well-formed UTF-16 string (no
    unpaired surrogate) and does not begin with U+FEFF, every context
    identifier and every key that decrypts what it encrypts: when
    [encryptMessage] returns an envelope, [decryptMessage] with the same key
    and context returns exactly the plaintext. *)
Theorem envelope_round_trip
    (this : manager) (message : jsstring) (key : CryptoKey)
    (conversationId : jsstring) (iv_random salt_random : list byte)
    (env : envelope) :
  decrypts key ->
  encryptMessage this message key conversationId iv_random salt_random = Return env ->
  well_formed message = true ->
  head message <> Some 65279%N ->
  decryptMessage this env key conversationId = Return message.
Proof.
  intros Hkey Henc Hwf Hbom.
  destruct (decryptMessage_of_envelope _ _ _ _ conversationId _ _ _ Henc)
    as (ct & Hct & ->).
  rewrite (Hkey _ _ _ _ Hct).
  by rewrite Utf8Proofs.TextDecoder_decode_encode.
Qed.


(** C8. For every data, signature and public key, [verifySignature] returns
    a boolean and does not throw; on a malformed signature or serialized
    public key it returns [false]. *)
Theorem verifySignature_never_throws
    (data : jsstring + list byte) (signature : jsstring)
    (publicKey : CryptoKey + jsstring) :
  (exists b, verifySignature data signature publicKey = Return b) /\
  (malformed signature publicKey ->
   verifySignature data signature publicKey = Return false).
Proof.
  unfold verifySignature, malformed, base64ToArrayBuffer.
  destruct (atob signature) as [sig|]; cbn [of_option andThen try_catch].
  2: { split; [eauto | reflexivity]. }
  destruct publicKey as [key|serialized]; cbn [andThen].
  - destruct (rsa_pss_verify _ _ _) as [b|e]; cbn [andThen try_catch];
      split; eauto; intros [|[]]; discriminate.
  - destruct (atob serialized) as [bin|]; cbn [of_option andThen try_catch].
    2: { split; [eauto | reflexivity]. }
    destruct (importKey_spki _) as [key|e]; cbn [andThen try_catch].
    2: { split; [eauto | reflexivity]. }
    destruct (rsa_pss_verify _ _ _) as [b|e']; cbn [andThen try_catch];
      split; eauto; intros [|[e0 He0]]; discriminate.
Qed.

End WithWebCrypto.

(** *** Concrete runs, on the executable WebCrypto *)
Import ModelCrypto.

Definition ready : manager := {| isInitialized := true |}.
Definition key1 : list byte := [x2a; x07].
Definition iv1 : list byte := [x00; x01; x02; x03; x04; x05; x06; x07; x08; x09; x0a; x0b].
Definition salt1 : list byte := repeat x5c 16.

(** C1 fails as stated: the plaintext U+FEFF "hi" comes back as "hi", the
    decoder having dropped the byte-order mark. *)
Lemma round_trip_drops_leading_bom :
  andThen
    (encryptMessage ready (65279%N :: lit "hi") key1 (lit "conv_1") iv1 salt1)
    (fun env => decryptMessage ready env key1 (lit "conv_1"))
  = Return (lit "hi")
  /\ lit "hi" <> 65279%N :: lit "hi".
Proof. split; [vm_compute; reflexivity | discriminate]. Qed.

(** Likewise a plaintext with an unpaired surrogate comes back with U+FFFD
    in its place. *)
Lemma round_trip_replaces_lone_surrogate :
  andThen
    (encryptMessage ready [55296%N] key1 (lit "conv_1") iv1 salt1)
    (fun env => decryptMessage ready env key1 (lit "conv_1"))
  = Return [65533%N].
Proof. vm_compute. reflexivity. Qed.


Definition sealed_hi : envelope :=
  {| ciphertext := lit "ASoBBwABAAEBAQIBAwEEAQUBBgEHAQgBCQEKAQsAAWMBbwFuAXYBXwExAGhp";
     iv := lit "AAECAwQFBgcICQoL";
     salt := lit "XFxcXFxcXFxcXFxcXFxcXA==";
     algorithm := lit "AES-GCM" |}.

Lemma envelope_round_trip_witness :
  encryptMessage ready (lit "hi") key1 (lit "conv_1") iv1 salt1 = Return sealed_hi /\
  decryptMessage ready sealed_hi key1 (lit "conv_1") = Return (lit "hi").
Proof.
  split.
  - vm_compute. reflexivity.
  - apply (envelope_round_trip (wc := model) ready (lit "hi") key1 (lit "conv_1") iv1 salt1).
    + exact (fun iv ad data ct => model_correct key1 iv ad data ct).
    + vm_compute. reflexivity.
    + vm_compute. reflexivity.
    + discriminate.
Defined.

(** The model's AES-GCM rejects the other additional data, and
    [decryptMessage] throws. *)
Lemma other_context_rejected :
  decryptMessage ready sealed_hi key1 (lit "conv_2") = Throw DECRYPT_FAILED.
Proof. vm_compute. reflexivity. Qed.


(** *** A key without the [decrypt] usage *)

(** WebCrypto with key usages: a key is its bytes and whether it may
    decrypt; [decrypt] with a key that may not is an [InvalidAccessError]. *)
Definition model_with_usages : WebCrypto :=
  {| CryptoKey := list byte * bool;
     aes_gcm_encrypt := fun key => seal (fst key);
     aes_gcm_decrypt := fun key iv ad ct =>
       if snd key then open (fst key) iv ad ct
       else Throw (DOMException "InvalidAccessError");
     importKey_spki := fun _ => Throw (DOMException "SyntaxError");
     rsa_pss_verify := fun key sig data =>
       Return (bool_decide (sig = fst key ++ data)) |}.

(** With such a key [encryptMessage] returns an envelope that
    [decryptMessage] cannot open: the round trip is one of keys that
    decrypt. *)
Lemma encrypt_only_key_opens_nothing :
  andThen
    (encryptMessage (wc := model_with_usages) ready (lit "hi") (key1, false)
       (lit "conv_1") iv1 salt1)
    (fun env =>
       decryptMessage (wc := model_with_usages) ready env (key1, false)
         (lit "conv_1"))
  = Throw DECRYPT_FAILED.
Proof. vm_compute. reflexivity. Qed.

Lemma verifySignature_never_throws_witness :
  verifySignature (inl (lit "message")) (lit "not base64!") (inl key1)
    = Return false.
Proof.
  apply (proj2 (verifySignature_never_throws (wc := model)
                  (inl (lit "message")) (lit "not base64!") (inl key1))).
  left. vm_compute. reflexivity.
Defined.

End EnvelopeProofs.

(* ================================================================== *)
(** * Part III: further properties                                     *)
(* ================================================================== *)


(** ** [Utils.constantTimeEquals] and the CAPTCHA check built on it *)
Module ComparisonProofs.
Import JS AuthManager.

Lemma accumulate_zero a :
  forall b result,
    length a = length b ->
    Utils.accumulate result a b = 0%N <-> result = 0%N /\ a = b.
Proof.
  induction a as [|x a IH]; intros [|y b] result Hlen; try discriminate.
  - cbn. intuition.
  - cbn [Utils.accumulate]. injection Hlen as Hlen.
    rewrite (IH b _ Hlen), N.lor_eq_0_iff, N.lxor_eq_0_iff.
    split.
    + intros [[-> ->] ->]. auto.
    + intros [-> [= -> ->]]. auto.
Qed.

Lemma constantTimeEquals_true (a b : jsstring) :
  Utils.constantTimeEquals a b = true <-> a = b.
Proof.
  unfold Utils.constantTimeEquals.
  destruct (Nat.eqb_spec (length a) (length b)) as [Hlen|Hlen]; cbn [negb].
  - rewrite N.eqb_eq, (accumulate_zero a b 0%N Hlen). tauto.
  - split; [discriminate|]. intros ->. contradiction.
Qed.

(** X1. [constantTimeEquals] is string equality: it returns [true] when the
    two strings have the same code units, and [false] when they differ in
    length or anywhere in content. *)
Theorem constantTimeEquals_is_equality (a b : jsstring) :
  Utils.constantTimeEquals a b = bool_decide (a = b).
Proof.
  case_bool_decide as Heq.
  - by apply constantTimeEquals_true.
  - apply not_true_is_false. by rewrite constantTimeEquals_true.
Qed.

Section WithLowerCase.
Variable toLowerCase : jsstring -> jsstring.

(** What it is for an answer to match a solution: a string or [String]
    object equals it after lower-casing; of any other value, [toLowerCase]
    returns the lower-cased solution, or returns a value that
    [constantTimeEquals] finds equal to it. *)
Definition matches (userInput : answer) (sol : jsstring) : Prop :=
  match userInput with
  | Text input => toLowerCase input = toLowerCase sol
  | Other lowers =>
      lowers = Return (LowerString (toLowerCase sol))
      \/ exists equals,
           lowers = Return (LowerOther equals)
           /\ equals (toLowerCase sol) = Return true
  end.

Lemma matches_iff userInput sol :
  andThen (lower toLowerCase userInput)
    (fun a => equal_to a (toLowerCase sol)) = Return true
  <-> matches userInput sol.
Proof.
  unfold matches, lower. destruct userInput as [input|[[s|equals]|e]];
    cbn [andThen equal_to].
  - split.
    + intros [= H]. by apply constantTimeEquals_true.
    + intros H. f_equal. by apply constantTimeEquals_true.
  - split.
    + intros [= H]. left. do 2 f_equal. by apply constantTimeEquals_true.
    + intros [[= ->]|(equals & [=] & _)]. f_equal.
      by apply constantTimeEquals_true.
  - split.
    + intros H. right. by exists equals.
    + intros [[=]|(equals' & [= <-] & H)]. exact H.
  - split; [discriminate|]. intros [[=]|(equals & [=] & _)].
Qed.

(** X2. [validateCaptcha] returns [true] exactly when the token is stored
    and not yet used, at most five minutes (300000 ms, inclusive) have passed
    since it was stored, the solution is a string, and the answer matches
    it: for a string or a [String] object, the two are equal after
    lower-casing. *)
Theorem validateCaptcha_accepts_iff (userInput : answer)
    (token : jsstring) (now : Z) (tokens : gmap jsstring captchaData) :
  fst (validateCaptcha toLowerCase userInput token now tokens) = true <->
  exists d sol,
    tokens !! token = Some d /\ used d = false /\
    (now - createdAt d <= 300000)%Z /\
    solution d = Some sol /\
    matches userInput sol.
Proof.
  unfold validateCaptcha.
  destruct (tokens !! token) as [d|].
  2: { split; [discriminate | intros (? & ? & [=] & _)]. }
  destruct (used d) eqn:Hused; cbn [orb].
  { split; [discriminate | intros (? & ? & [= <-] & Hu & _); congruence]. }
  destruct (Z.ltb_spec (5 * 60 * 1000) (now - createdAt d)) as [Hold|Hfresh].
  { split; [discriminate | intros (? & ? & [= <-] & _ & Hage & _); lia]. }
  destruct (solution d) as [sol|] eqn:Hsol; cbn [of_option].
  2: { split.
       - destruct (lower toLowerCase userInput); discriminate.
       - intros (? & ? & [= <-] & _ & _ & Hs & _). congruence. }
  pose proof (matches_iff userInput sol) as Hm.
  destruct (lower toLowerCase userInput) as [a|e] eqn:Hlow; cbn [andThen] in *.
  - destruct (equal_to a (toLowerCase sol)) as [[|]|e]; cbn [fst]; split;
      try discriminate.
    + intros _. exists d, sol.
      split; [reflexivity|]. split; [exact Hused|]. split; [lia|].
      split; [exact Hsol|]. by apply Hm.
    + reflexivity.
    + intros (d' & sol' & [= <-] & _ & _ & Hs & H).
      rewrite Hsol in Hs. injection Hs as <-. by apply Hm in H.
    + intros (d' & sol' & [= <-] & _ & _ & Hs & H).
      rewrite Hsol in Hs. injection Hs as <-. by apply Hm in H.
  - split; [discriminate|].
    intros (d' & sol' & [= <-] & _ & _ & Hs & H).
      rewrite Hsol in Hs. injection Hs as <-. by apply Hm in H.
Qed.

(** X3. A rejected answer changes nothing: the token store is exactly what
    it was, so a wrong answer neither consumes the token nor is counted. *)
Theorem validateCaptcha_rejection_keeps_store (userInput : answer)
    (token : jsstring) (now : Z) (tokens tokens' : gmap jsstring captchaData) :
  validateCaptcha toLowerCase userInput token now tokens = (false, tokens') ->
  tokens' = tokens.
Proof.
  unfold validateCaptcha.
  destruct (tokens !! token) as [d|]; [|by intros [= <-]].
  destruct (used d || _); [by intros [= <-]|].
  destruct (andThen _ _) as [[|]|e]; [discriminate | |]; by intros [= <-].
Qed.

End WithLowerCase.

(** At exactly five minutes the right answer is still accepted, here passed
    as a [String] object or a string; a wrong answer before that leaves the
    store as it was. *)
Lemma validateCaptcha_accepts_iff_witness :
  fst (validateCaptcha CaptchaProofs.ascii_lower (Text (lit "FOUR")) (lit "tok-1")
         300000 CaptchaProofs.one_challenge) = true.
Proof.
  apply (proj2 (validateCaptcha_accepts_iff CaptchaProofs.ascii_lower
                  (Text (lit "FOUR")) (lit "tok-1") 300000
                  CaptchaProofs.one_challenge)).
  exists {| challenge := lit "2+2"; solution := Some (lit "Four");
            createdAt := 0; used := false |}, (lit "Four").
  repeat split; vm_compute; congruence.
Defined.

(** An object whose [toLowerCase] returns the lower-cased solution is
    accepted as well; a value without the method is not. *)
Lemma validateCaptcha_duck_typed :
  fst (validateCaptcha CaptchaProofs.ascii_lower
         (Other (Return (LowerString (lit "four")))) (lit "tok-1")
         1000 CaptchaProofs.one_challenge) = true
  /\ fst (validateCaptcha CaptchaProofs.ascii_lower not_lowerable (lit "tok-1")
            1000 CaptchaProofs.one_challenge) = false.
Proof. split; vm_compute; reflexivity. Qed.

Lemma validateCaptcha_rejection_keeps_store_witness :
  exists tokens',
    validateCaptcha CaptchaProofs.ascii_lower (Text (lit "five")) (lit "tok-1")
      1000 CaptchaProofs.one_challenge = (false, tokens')
    /\ tokens' = CaptchaProofs.one_challenge.
Proof.
  exists (snd (validateCaptcha CaptchaProofs.ascii_lower (Text (lit "five"))
                 (lit "tok-1") 1000 CaptchaProofs.one_challenge)).
  split.
  - vm_compute. reflexivity.
  - apply (validateCaptcha_rejection_keeps_store CaptchaProofs.ascii_lower
             (Text (lit "five")) (lit "tok-1") 1000).
    vm_compute. reflexivity.
Defined.

End ComparisonProofs.

(** ** [SecurityManager]: what the checks leave behind *)
Module SecurityManagerProofs.
Import Types SecurityManager.
Import RateLimitProofs.

Definition MISSING_SIGNATURE : error :=
  SecurityError "Missing signature" "MISSING_SIGNATURE".
Definition INVALID_SIGNATURE : error :=
  SecurityError "Invalid signature format" "INVALID_SIGNATURE".

(** The login attempts recorded for the client of [request]. *)
Definition attempts_of (request : APIRequest) (st : state) : list LoginAttempt :=
  default [] (loginAttempts st !! getClientKey request).

Lemma validateRateLimit_verdict request now st :
  fst (validateRateLimit request now st) =
    if bool_decide
         (length (filter (in_rate_window now) (recorded request st)) < 100)%nat
    then inr tt else inl RATE_LIMIT_EXCEEDED.
Proof.
  case_bool_decide as Hfree.
  - by destruct (validateRateLimit_free request now st Hfree) as (st' & -> & _).
  - rewrite validateRateLimit_full by lia. reflexivity.
Qed.

Lemma validateRateLimit_outcome request now st r st' :
  validateRateLimit request now st = (r, st') ->
  (r = inl RATE_LIMIT_EXCEEDED /\ st' = st) \/
  (r = inr tt
   /\ recorded request st' = filter (in_rate_window now) (recorded request st) ++ [now]
   /\ loginAttempts st' = loginAttempts st
   /\ forall other, getClientKey other <> getClientKey request ->
                    recorded other st' = recorded other st).
Proof.
  unfold validateRateLimit, recorded.
  destruct (_ <=? _)%Z; intros [= <- <-]; [left; auto | right].
  cbn [rateLimitMap loginAttempts]. rewrite lookup_insert_eq.
  repeat split; auto. intros other Hne. by rewrite lookup_insert_ne.
Qed.

(** The errors [validateRequest] can end with. *)
Lemma validateRequest_errors api now_rate now_login st e st' :
  validateRequest api now_rate now_login st = (inl e, st') ->
  e = RATE_LIMIT_EXCEEDED
  \/ (e = MISSING_SIGNATURE /\ truthy (headers api !! "x-signature") = None)
  \/ e = INVALID_SIGNATURE
  \/ exists message, e = AuthenticationError message.
Proof.
  unfold validateRequest, bind.
  destruct (validateRateLimit api now_rate st) as [[e0|[]] sa] eqn:Hrate.
  { apply validateRateLimit_outcome in Hrate as [[[= ->] _]|[[=] _]].
    intros [= <- _]. auto. }
  unfold validateSignature.
  destruct (truthy (headers api !! "x-signature")); cbn [throw ret];
    [|intros [= <- _]; auto].
  destruct (isValidSignatureFormat _); cbn [throw ret]; [|intros [= <- _]; auto].
  rewrite LockoutProofs.validateBruteForce_decision.
  case_decide; [intros [= <- _]; do 3 right; eauto|].
  destruct (requiresAuthentication _); [|discriminate].
  unfold validateSession.
  destruct (truthy _); cbn [throw ret]; [|intros [= <- _]; do 3 right; eauto].
  destruct (isValidSessionToken _); cbn [throw ret];
    [discriminate | intros [= <- _]; do 3 right; eauto].
Qed.

(** X4. A request that the rate limiter lets through and a later check
    (signature, lockout, session) rejects has used up a rate-limit slot all
    the same: its time is recorded, and the login attempts are untouched. *)
Theorem rejected_request_still_counted
    (api : APIRequest) (now_rate now_login : Z) (st st' : state) (e : error) :
  validateRequest api now_rate now_login st = (inl e, st') ->
  e <> RATE_LIMIT_EXCEEDED ->
  recorded api st' = filter (in_rate_window now_rate) (recorded api st) ++ [now_rate]
  /\ loginAttempts st' = loginAttempts st.
Proof.
  unfold validateRequest. fold (RequestValidationProofs.after_rate_limit api now_login).
  unfold bind.
  destruct (validateRateLimit api now_rate st) as [[e0|[]] sa] eqn:Hrate.
  - apply validateRateLimit_outcome in Hrate as [[[= ->] _]|[[=] _]].
    intros [= <- _] Hne. contradiction.
  - apply validateRateLimit_outcome in Hrate as [[[=] _]|(_ & Hrec & Hlogin & _)].
    rewrite RequestValidationProofs.after_rate_limit_reads_attempts.
    intros [= _ <-] _. auto.
Qed.

(** X5. Clients are kept apart: a call of the rate limiter for one client
    leaves the record, and so the next verdict, of every client with another
    key as it was. *)
Theorem rate_limit_isolates_clients
    (request other : APIRequest) (now now' : Z) (st : state) :
  getClientKey other <> getClientKey request ->
  recorded other (snd (validateRateLimit request now st)) = recorded other st
  /\ fst (validateRateLimit other now' (snd (validateRateLimit request now st)))
     = fst (validateRateLimit other now' st).
Proof.
  intros Hne.
  destruct (validateRateLimit request now st) as [r sa] eqn:Hrate. cbn [snd].
  assert (Hrec : recorded other sa = recorded other st).
  { apply validateRateLimit_outcome in Hrate as [[_ ->]|(_ & _ & _ & Hother)];
      [reflexivity | by apply Hother]. }
  split; [exact Hrec|]. by rewrite !validateRateLimit_verdict, Hrec.
Qed.

(** *** The sweep *)

Lemma prune_lookup {A} (keep : A -> Prop) `{forall x, Decision (keep x)}
    (m : gmap string (list A)) k :
  default [] (prune keep m !! k) = filter keep (default [] (m !! k)).
Proof.
  unfold prune. rewrite lookup_omap. destruct (m !! k) as [l|]; [|reflexivity].
  cbn. destruct (filter keep l); reflexivity.
Qed.

Lemma prune_kept {A} (keep : A -> Prop) `{forall x, Decision (keep x)}
    (m : gmap string (list A)) k l :
  prune keep m !! k = Some l -> l <> [] /\ Forall keep l.
Proof.
  unfold prune. rewrite lookup_omap. destruct (m !! k) as [l0|]; [|discriminate].
  cbn. destruct (filter keep l0) as [|x l'] eqn:Hf; [discriminate|].
  intros [= <-]. split; [discriminate|]. rewrite <- Hf.
  apply Forall_forall. intros y Hy. by apply list_elem_of_filter in Hy as [Hy _].
Qed.

(** X6. After [cleanupExpiredData] no client is left with an empty record:
    every list that remains in either map is non-empty and holds only
    entries inside its window (60 s for requests, 24 h for login attempts). *)
Theorem cleanup_keeps_only_live_records (now : Z) (st : state) :
  (forall key l,
     rateLimitMap (snd (cleanupExpiredData now st)) !! key = Some l ->
     l <> [] /\ Forall (in_rate_window now) l) /\
  (forall key l,
     loginAttempts (snd (cleanupExpiredData now st)) !! key = Some l ->
     l <> [] /\ Forall (in_day_window now) l).
Proof.
  unfold cleanupExpiredData. cbn [snd rateLimitMap loginAttempts].
  split; intros key l; apply prune_kept.
Qed.

Lemma cleanup_keeps_only_live_records_witness :
  rateLimitMap (snd (cleanupExpiredData 60001 busy)) !! getClientKey anonymous
    = Some (Z.of_nat <$> seq 2 98)
  /\ (Z.of_nat <$> seq 2 98) <> []
  /\ Forall (in_rate_window 60001) (Z.of_nat <$> seq 2 98).
Proof.
  assert (Hl : rateLimitMap (snd (cleanupExpiredData 60001 busy))
               !! getClientKey anonymous = Some (Z.of_nat <$> seq 2 98))
    by (vm_compute; reflexivity).
  split; [exact Hl|].
  exact (proj1 (cleanup_keeps_only_live_records 60001 busy) _ _ Hl).
Defined.

(** X7. The sweep changes no later verdict: at any time not before the
    sweep, the rate limiter and the lockout check decide for every client as
    they would have without it. *)
Theorem cleanup_changes_no_verdict
    (request : APIRequest) (now now' : Z) (st : state) :
  (now <= now')%Z ->
  fst (validateRateLimit request now' (snd (cleanupExpiredData now st)))
    = fst (validateRateLimit request now' st)
  /\ fst (validateBruteForce request now' (snd (cleanupExpiredData now st)))
     = fst (validateBruteForce request now' st).
Proof.
  intros Hle. split.
  - rewrite !validateRateLimit_verdict. unfold recorded, cleanupExpiredData.
    cbn [snd rateLimitMap]. rewrite prune_lookup, list_filter_filter.
    rewrite (list_filter_iff _ (in_rate_window now')); [reflexivity|].
    intros x. unfold in_rate_window. lia.
  - rewrite !LockoutProofs.validateBruteForce_decision.
    unfold LockoutProofs.recent_failures, cleanupExpiredData.
    cbn [snd loginAttempts]. rewrite prune_lookup.
    set (l := default [] (loginAttempts st !! getClientKey request)).
    assert (Hsame : filter (in_day_window now') (filter (in_day_window now) l)
                    = filter (in_day_window now') l).
    { rewrite list_filter_filter. apply list_filter_iff.
      intros x. unfold in_day_window. lia. }
    rewrite Hsame. repeat case_decide; try reflexivity; tauto.
Qed.

Lemma cleanup_changes_no_verdict_witness :
  fst (validateRateLimit anonymous 60001 (snd (cleanupExpiredData 60000 busy)))
    = fst (validateRateLimit anonymous 60001 busy)
  /\ fst (validateBruteForce anonymous 60001 (snd (cleanupExpiredData 60000 busy)))
     = fst (validateBruteForce anonymous 60001 busy).
Proof. apply (cleanup_changes_no_verdict anonymous 60000 60001 busy). lia. Defined.

(** *** Recording login attempts *)

Lemma recordLoginAttempt_attempts username success request now st other :
  attempts_of other (snd (recordLoginAttempt username success request now st)) =
    if decide (getClientKey other = getClientKey request)
    then attempts_of other st ++
         [{| la_username := username; la_timestamp := now;
             la_ip := or_else (headers request !! "x-real-ip") "unknown";
             la_fingerprint := or_else (headers request !! "x-fingerprint") "unknown";
             la_success := success |}]
    else attempts_of other st.
Proof.
  unfold attempts_of, recordLoginAttempt. cbn [snd loginAttempts].
  case_decide as Hk.
  - rewrite Hk, lookup_insert_eq. reflexivity.
  - by rewrite lookup_insert_ne.
Qed.

Lemma recent_failures_attempts request now st :
  LockoutProofs.recent_failures request now st
  = filter failed (filter (in_day_window now) (attempts_of request st)).
Proof. reflexivity. Qed.

Lemma recent_failures_after_success username recorder request t now st :
  LockoutProofs.recent_failures request now
    (snd (recordLoginAttempt username true recorder t st))
  = LockoutProofs.recent_failures request now st.
Proof.
  rewrite !recent_failures_attempts, recordLoginAttempt_attempts.
  destruct (decide (getClientKey request = getClientKey recorder)); [|reflexivity].
  rewrite !filter_app. rewrite (filter_none failed (filter _ [_])).
  - apply app_nil_r.
  - intros a Ha Hf. apply list_elem_of_filter in Ha as [_ Ha].
    apply list_elem_of_singleton in Ha as ->. discriminate Hf.
Qed.

(** X8. A successful login does not reset the count: recording a success,
    for whatever client, leaves the lockout verdict of every login request
    at every time as it was. *)
Theorem recorded_success_lifts_no_lockout
    (username : string) (recorder request : APIRequest) (t now : Z) (st : state) :
  fst (validateBruteForce request now
         (snd (recordLoginAttempt username true recorder t st)))
  = fst (validateBruteForce request now st).
Proof.
  rewrite !LockoutProofs.validateBruteForce_decision.
  rewrite recent_failures_after_success.
  case_decide; reflexivity.
Qed.

(** X9. Three failed attempts recorded for a client lock its logins: while
    all three are less than 24 hours old, [validateBruteForce] refuses every
    login request of that client, whichever user names were tried and
    whatever else is recorded. *)
Theorem three_recorded_failures_lock
    (request r1 r2 r3 : APIRequest) (u1 u2 u3 : string) (t1 t2 t3 now : Z)
    (st : state) :
  path request = "/api/auth/login" ->
  getClientKey r1 = getClientKey request ->
  getClientKey r2 = getClientKey request ->
  getClientKey r3 = getClientKey request ->
  (now - t1 < DAY)%Z -> (now - t2 < DAY)%Z -> (now - t3 < DAY)%Z ->
  fst (validateBruteForce request now
         (snd (recordLoginAttempt u3 false r3 t3
            (snd (recordLoginAttempt u2 false r2 t2
               (snd (recordLoginAttempt u1 false r1 t1 st)))))))
  = inl LockoutProofs.LOCKED.
Proof.
  intros Hpath H1 H2 H3 Ht1 Ht2 Ht3.
  rewrite LockoutProofs.validateBruteForce_decision.
  rewrite decide_True; [reflexivity|]. split; [exact Hpath|].
  rewrite recent_failures_attempts, !recordLoginAttempt_attempts.
  rewrite !decide_True by congruence.
  rewrite !filter_app, !length_app.
  rewrite !(filter_cons_True (in_day_window now)) by assumption.
  rewrite !filter_nil.
  rewrite !(filter_cons_True failed) by reflexivity.
  cbn [length]. lia.
Qed.

(** A client told apart by its address. *)
Definition other_client : APIRequest :=
  {| method := "POST"; path := "/api/auth/login"; body := None;
     headers := {[ "x-real-ip" := "10.0.0.2" ]};
     timestamp := Some 0%Z; nonce := "n"; signature := "" |}.

Lemma rejected_request_still_counted_witness :
  exists st',
    validateRequest anonymous 5 5 empty_state = (inl MISSING_SIGNATURE, st')
    /\ recorded anonymous st' = [5%Z]
    /\ loginAttempts st' = loginAttempts empty_state.
Proof.
  exists (snd (validateRequest anonymous 5 5 empty_state)).
  split; [vm_compute; reflexivity|].
  apply (rejected_request_still_counted anonymous 5 5 empty_state _
           MISSING_SIGNATURE).
  - vm_compute. reflexivity.
  - discriminate.
Defined.

Lemma rate_limit_isolates_clients_witness :
  recorded other_client (snd (validateRateLimit anonymous 5 empty_state))
    = recorded other_client empty_state
  /\ fst (validateRateLimit other_client 6
            (snd (validateRateLimit anonymous 5 empty_state)))
     = fst (validateRateLimit other_client 6 empty_state).
Proof.
  apply (rate_limit_isolates_clients anonymous other_client 5 6 empty_state).
  vm_compute. discriminate.
Defined.

Lemma three_recorded_failures_lock_witness :
  fst (validateBruteForce other_client 4000
         (snd (recordLoginAttempt "carol" false other_client 3000
            (snd (recordLoginAttempt "bob" false other_client 2000
               (snd (recordLoginAttempt "alice" false other_client 1000
                      empty_state)))))))
  = inl LockoutProofs.LOCKED.
Proof.
  apply (three_recorded_failures_lock other_client other_client other_client
           other_client "alice" "bob" "carol" 1000 2000 3000 4000 empty_state);
    try reflexivity; unfold DAY; lia.
Defined.

End SecurityManagerProofs.

(** ** Routing and error replies *)
Module RouterProofs.
Import Types SecurityManager Handlers Router.

(** X10. No request is ever passed to [ForumHandler.getReplies] or
    [ForumHandler.createReply]: every path beginning with [/api/forum/post/]
    is taken by the branch for single posts, which precedes the branch for
    replies. *)
Theorem replies_are_never_routed (method path : string) (postId : string) :
  routeRequest method path <> inr (ForumHandler_getReplies postId)
  /\ routeRequest method path <> inr (ForumHandler_createReply postId).
Proof.
  unfold routeRequest, only, with_id.
  repeat (match goal with
          | |- context [if String.eqb ?a ?b then _ else _] =>
              destruct (String.eqb a b)
          | |- context [if startsWith ?a ?b then _ else _] =>
              destruct (startsWith a b) eqn:?
          | |- context [match truthy ?o with _ => _ end] => destruct (truthy o)
          end; try (split; discriminate)).
Qed.

Lemma split_from_no_slash current t :
  Forall (fun c => c <> "/"%char) (list_ascii_of_string t) ->
  split_from current (list_ascii_of_string t)
  = [string_of_list_ascii (rev current ++ list_ascii_of_string t)].
Proof.
  remember (list_ascii_of_string t) as l eqn:Hl. clear Hl t.
  intros Hno. revert current.
  induction Hno as [|c l Hc _ IH]; intros current; cbn [split_from].
  - by rewrite app_nil_r.
  - destruct (Ascii.eqb_spec c "/"); [contradiction|].
    rewrite IH. cbn [rev]. by rewrite <- app_assoc.
Qed.

Lemma pop_split_from current s t :
  Forall (fun c => c <> "/"%char) (list_ascii_of_string t) ->
  pop (split_from current (s ++ "/"%char :: list_ascii_of_string t)) = Some t.
Proof.
  intros Hno. unfold pop. revert current.
  induction s as [|c s IH]; intros current; cbn [app split_from].
  - cbn. rewrite split_from_no_slash by exact Hno. cbn [rev app].
    rewrite last_cons. cbn. by rewrite string_of_list_ascii_of_string.
  - destruct (Ascii.eqb c "/"); [rewrite last_cons|]; rewrite IH; reflexivity.
Qed.

Lemma list_ascii_of_string_app s t :
  list_ascii_of_string (s ++ t)%string
  = list_ascii_of_string s ++ list_ascii_of_string t.
Proof.
  induction s as [|c s IH]; [reflexivity|].
  change (c :: list_ascii_of_string (s ++ t)%string
          = c :: (list_ascii_of_string s ++ list_ascii_of_string t)).
  by rewrite IH.
Qed.

Lemma prefix_empty s : String.prefix "" s = true.
Proof. by destruct s. Qed.

(** X11. The identifier taken from a path is its last piece: for every
    non-empty identifier without a slash, a request for
    [/api/forum/post/<id>] reaches the post handler with [<id>]; and the
    replies of any post are asked of the post handler under the identifier
    ["replies"]. *)
Theorem post_identifier_is_last_piece (postId : string) :
  postId <> ""%string ->
  Forall (fun c => c <> "/"%char) (list_ascii_of_string postId) ->
  routeRequest "GET" ("/api/forum/post/" ++ postId)
    = inr (ForumHandler_getPost postId)
  /\ routeRequest "GET" ("/api/forum/post/" ++ postId ++ "/replies")
     = inr (ForumHandler_getPost "replies").
Proof.
  intros Hne Hno. split.
  - unfold routeRequest, startsWith, split.
    cbv [String.append]. cbn -[pop split_from list_ascii_of_string].
    change (list_ascii_of_string
              (String "/" (String "a" (String "p" (String "i" (String "/"
              (String "f" (String "o" (String "r" (String "u" (String "m"
              (String "/" (String "p" (String "o" (String "s" (String "t"
              (String "/" postId)))))))))))))))))
      with (list_ascii_of_string "/api/forum/post" ++
            "/"%char :: list_ascii_of_string postId).
    rewrite pop_split_from by exact Hno. rewrite prefix_empty.
    unfold with_id, truthy. destruct (String.eqb_spec postId ""); [contradiction|].
    reflexivity.
  - remember (postId ++ "/replies")%string as tail eqn:Htail.
    unfold routeRequest, startsWith, split.
    cbv [String.append]. cbn -[pop split_from list_ascii_of_string].
    rewrite prefix_empty. cbn [list_ascii_of_string]. subst tail.
    rewrite (list_ascii_of_string_app postId "/replies").
    change (list_ascii_of_string "/replies")
      with ("/"%char :: list_ascii_of_string "replies").
    rewrite !app_comm_cons.
    rewrite pop_split_from by (repeat constructor; discriminate).
    reflexivity.
Qed.

Lemma post_identifier_is_last_piece_witness :
  routeRequest "GET" "/api/forum/post/42" = inr (ForumHandler_getPost "42")
  /\ routeRequest "GET" "/api/forum/post/42/replies"
     = inr (ForumHandler_getPost "replies").
Proof.
  apply (post_identifier_is_last_piece "42"); [discriminate|].
  repeat constructor; discriminate.
Defined.

(** Every failure of the router is a [ValidationError]. *)
Lemma routeRequest_errors method path e :
  routeRequest method path = inl e -> is_ValidationError e = true.
Proof.
  unfold routeRequest, only, with_id, NOT_ALLOWED.
  repeat (match goal with
          | |- context [if String.eqb ?a ?b then _ else _] =>
              destruct (String.eqb a b)
          | |- context [if startsWith ?a ?b then _ else _] =>
              destruct (startsWith a b) eqn:?
          | |- context [match truthy ?o with _ => _ end] => destruct (truthy o)
          end; try discriminate; try (intros [= <-]; reflexivity)).
Qed.

(** A request that passes the parser has a signature header. *)
Lemma parseAndValidateRequest_signed request now api :
  parseAndValidateRequest request now = inr api ->
  exists sig, truthy (headers api !! "x-signature") = Some sig.
Proof.
  unfold parseAndValidateRequest.
  destruct (truthy (r_headers request !! "content-type")); [|discriminate].
  destruct (truthy (r_headers request !! "x-timestamp")); [|discriminate].
  destruct (truthy (r_headers request !! "x-nonce")); [|discriminate].
  destruct (truthy (r_headers request !! "x-signature")) as [sig|] eqn:Hsig;
    [|discriminate].
  destruct (_ && _); [destruct (r_json request)|]; try discriminate;
    (destruct (skew_exceeded _ _); [discriminate|]);
    intros [= <-]; cbn [headers]; eauto.
Qed.

(** The errors the validation of a request can end with. *)
Lemma validateIncoming_errors request now_parse now_rate now_login st e st' :
  validateIncoming request now_parse now_rate now_login st = (inl e, st') ->
  (exists message, e = ValidationError message)
  \/ e = RateLimitProofs.RATE_LIMIT_EXCEEDED
  \/ e = SecurityManagerProofs.INVALID_SIGNATURE
  \/ exists message, e = AuthenticationError message.
Proof.
  unfold validateIncoming.
  destruct (parseAndValidateRequest request now_parse) as [e0|api] eqn:Hparse.
  { intros [= <- _].
    pose proof (RequestValidationProofs.parseAndValidateRequest_errors _ _ _ Hparse).
    destruct e0; try discriminate. eauto. }
  destruct (validateRequest api now_rate now_login st) as [[e0|[]] sa] eqn:Hval;
    [|discriminate].
  intros [= <- _].
  destruct (SecurityManagerProofs.validateRequest_errors _ _ _ _ _ _ Hval)
    as [->|[[-> Hnone]|[->|[m ->]]]]; eauto.
  exfalso. destruct (parseAndValidateRequest_signed _ _ _ Hparse) as [sig Hsig].
  congruence.
Qed.

(** An error of one of the three classes is answered with status 400, any
    other with status 500. *)
Lemma handleError_status e now :
  status (handleError e now)
  = match e with TypeError _ => 500%Z | _ => 400%Z end.
Proof. destruct e; reflexivity. Qed.

Lemma handleError_ValidationError message now :
  handleError (ValidationError message) now
  = createErrorResponse message "ValidationError" 400 now.
Proof. reflexivity. Qed.

Section WithHandlers.

Variable Reply : Type.
Variable handler : target -> option json -> error + Reply.
Variable JSON_stringify : Reply -> error + string.
Variable property : string -> string -> option json.

(** X12. Whatever stops a request before a handler of another module is
    called -- a missing header, a stale timestamp, the rate limit, a
    malformed signature, a lockout, a missing or malformed session token, an
    unknown endpoint, a method that is not allowed or a wipe that is not
    confirmed -- the reply has status 400, carries the error's class name in
    [X-Error-Code] and its message in the body.  A reply has status 500 only
    when a handler of [AuthHandler], [ChatHandler] or [ForumHandler], or the
    serialisation of its response, throws an error that is of none of the
    three classes; no reply has any status but 200, 400 and 500. *)
Theorem status_500_only_from_a_handler
    (request : Request) (now_parse now_rate now_login now_handler now : Z)
    (st : state) :
  let reply :=
    handleRequest Reply handler JSON_stringify property request
      now_parse now_rate now_login now_handler now st in
  (forall e st',
     validateIncoming request now_parse now_rate now_login st = (inl e, st') ->
     reply = Refused (createErrorResponse (error_message e) (error_name e) 400 now))
  /\ (forall apiRequest st',
        validateIncoming request now_parse now_rate now_login st
        = (inr apiRequest, st') ->
        (forall e,
           routeRequest (method apiRequest) (path apiRequest) = inl e ->
           reply
           = Refused (createErrorResponse (error_message e) "ValidationError"
                        400 now))
        /\ (routeRequest (method apiRequest) (path apiRequest)
            = inr handleWipeRequest ->
            reply = Secured (WipeInitiated now_handler)
            \/ reply
               = Refused (createErrorResponse "Wipe request requires confirmation"
                            "ValidationError" 400 now))
        /\ (routeRequest (method apiRequest) (path apiRequest) = inr health ->
            reply = Secured (Healthy now_handler)))
  /\ (response_status reply = 200%Z \/ response_status reply = 400%Z
      \/ response_status reply = 500%Z)
  /\ (response_status reply = 500%Z ->
      exists apiRequest st' h message,
        validateIncoming request now_parse now_rate now_login st
        = (inr apiRequest, st')
        /\ routeRequest (method apiRequest) (path apiRequest) = inr h
        /\ h <> handleWipeRequest /\ h <> health
        /\ (handler h (body apiRequest) = inl (TypeError message)
            \/ exists response,
                 handler h (body apiRequest) = inr response
                 /\ JSON_stringify response = inl (TypeError message))).
Proof.
  cbv zeta. unfold handleRequest.
  destruct (validateIncoming request now_parse now_rate now_login st)
    as [[e|apiRequest] st1] eqn:Hv.
  { pose proof (validateIncoming_errors _ _ _ _ _ _ _ Hv) as He.
    assert (Hreply : handleError e now
                     = createErrorResponse (error_message e) (error_name e) 400 now)
      by (destruct He as [[m ->]|[->|[->|[m ->]]]]; reflexivity).
    split; [intros ? ? [= <- _]; by rewrite Hreply|].
    split; [intros ? ? [=]|].
    rewrite Hreply. split; [by right; left|]. discriminate. }
  split; [intros ? ? [=]|].
  unfold routeRequest_awaited.
  destruct (routeRequest (method apiRequest) (path apiRequest)) as [e|h] eqn:Hr.
  { pose proof (routeRequest_errors _ _ _ Hr) as He.
    destruct e as [| |m|]; try discriminate. cbn [handleError error_message].
    split.
    - intros ? ? [= <- _]. rewrite Hr. split; [|split]; [|discriminate..].
      intros ? [= <-]. reflexivity.
    - split; [by right; left|]. discriminate. }
  assert (Hwipe :
    match run_handleWipeRequest Reply property (body apiRequest) now_handler with
    | inl e => Refused (handleError e now)
    | inr response =>
        match addSecurityHeaders Reply JSON_stringify response with
        | inl e => Refused (handleError e now)
        | inr r => r
        end
    end = Secured (WipeInitiated now_handler)
    \/ match run_handleWipeRequest Reply property (body apiRequest) now_handler with
       | inl e => Refused (handleError e now)
       | inr response =>
           match addSecurityHeaders Reply JSON_stringify response with
           | inl e => Refused (handleError e now)
           | inr r => r
           end
       end = Refused (createErrorResponse "Wipe request requires confirmation"
                        "ValidationError" 400 now)).
  { unfold run_handleWipeRequest. destruct (_ || _); [right|left]; reflexivity. }
  assert (Hother :
    h <> handleWipeRequest -> h <> health ->
    let reply :=
      match
        match handler h (body apiRequest) with
        | inl e => inl e
        | inr response => inr (FromHandler response)
        end
      with
      | inl e => Refused (handleError e now)
      | inr response =>
          match addSecurityHeaders Reply JSON_stringify response with
          | inl e => Refused (handleError e now)
          | inr r => r
          end
      end in
    (response_status reply = 200%Z \/ response_status reply = 400%Z
     \/ response_status reply = 500%Z)
    /\ (response_status reply = 500%Z ->
        exists message,
          handler h (body apiRequest) = inl (TypeError message)
          \/ exists response,
               handler h (body apiRequest) = inr response
               /\ JSON_stringify response = inl (TypeError message))).
  { intros _ _. cbv zeta.
    destruct (handler h (body apiRequest)) as [e|response].
    - cbn [response_status]. rewrite handleError_status.
      destruct e; (split; [auto|]); try discriminate. eauto.
    - cbn [addSecurityHeaders].
      destruct (JSON_stringify response) as [e|text] eqn:Hs.
      + cbn [response_status]. rewrite handleError_status.
        destruct e; (split; [auto|]); try discriminate. eauto 10.
      + cbn [response_status]. split; [auto|discriminate]. }
  split.
  { intros ? ? [= <- _]. rewrite Hr. split; [intros ? [=]|].
    split; intros [= ->]; [exact Hwipe|reflexivity]. }
  destruct h;
    try (specialize (Hother ltac:(discriminate) ltac:(discriminate));
         cbv zeta in Hother; destruct Hother as [Hstatus Hcause];
         split; [exact Hstatus|];
         intros H500; destruct (Hcause H500) as [message Hm];
         eexists _, _, _, message;
         (split; [reflexivity|]); (split; [exact Hr|]);
         (split; [discriminate|]); (split; [discriminate|]); exact Hm).
  - destruct Hwipe as [-> | ->]; (split; [auto|discriminate]).
  - cbn. split; [auto|discriminate].
Qed.

End WithHandlers.

(** Handlers of other modules for the examples: registration fails with a
    run-time error, every other handler returns a response that
    [JSON.stringify] accepts; an object on [/api/wipe] carries the
    confirmation exactly when its text is [confirmed]. *)
Definition failing_handler (h : target) (body : option json) : error + unit :=
  match h with
  | AuthHandler_register =>
      inl (TypeError "Cannot read properties of null (reading 'username')")
  | _ => inr tt
  end.

Definition stringified (_ : unit) : error + string := inr "{}".

Definition confirmed (text name : string) : option json :=
  if String.eqb text "confirmed" && String.eqb name "confirmation"
  then Some (JString "WIPE_EVERYTHING") else None.

(** A well-formed request that carries a session token. *)
Definition to_endpoint (method path : string) (body : option json) : Request :=
  {| r_method := method;
     r_pathname := path;
     r_headers :=
       <["x-session-token" := "123e4567-e89b-42d3-a456-426614174000"]>
         (r_headers RequestValidationProofs.signed_request);
     r_has_body := match body with Some _ => true | None => false end;
     r_json := body |}.

(** A well-formed request stamped at time 100. *)
Definition early_request : Request :=
  {| r_method := "GET"; r_pathname := "/api/health";
     r_headers :=
       list_to_map
         [("content-type", "application/json");
          ("x-timestamp", "100");
          ("x-nonce", "bm9uY2UtMQ==");
          ("x-signature", "c2lnbmF0dXJl")];
     r_has_body := false; r_json := None |}.

(** The reply to a request handled at time [clock]. *)
Definition reply_to (request : Request) (clock : Z) (st : state)
  : Response unit :=
  handleRequest unit failing_handler stringified confirmed request
    clock clock clock clock 7 st.

Definition T0 : Z := RequestValidationProofs.T0.

Lemma status_500_only_from_a_handler_witness :
  reply_to early_request 100 RateLimitProofs.busy
  = Refused (createErrorResponse "Rate limit exceeded" "SecurityError" 400 7)
  /\ reply_to (to_endpoint "GET" "/api/nowhere" None) T0 empty_state
     = Refused (createErrorResponse "Endpoint not found" "ValidationError" 400 7)
  /\ reply_to (to_endpoint "POST" "/api/wipe" (Some (JCompound "unconfirmed")))
       T0 empty_state
     = Refused (createErrorResponse "Wipe request requires confirmation"
                  "ValidationError" 400 7)
  /\ response_status
       (reply_to (to_endpoint "POST" "/api/auth/login" None) T0 empty_state)
     <> 500%Z.
Proof.
  split; [|split; [|split]].
  - apply (proj1 (status_500_only_from_a_handler unit failing_handler
                    stringified confirmed early_request 100 100 100 100 7
                    RateLimitProofs.busy)
             RateLimitProofs.RATE_LIMIT_EXCEEDED RateLimitProofs.busy).
    vm_compute. reflexivity.
  - refine (proj1 (proj1 (proj2 (status_500_only_from_a_handler unit
                    failing_handler stringified confirmed
                    (to_endpoint "GET" "/api/nowhere" None) T0 T0 T0 T0 7
                    empty_state)) _ _ _)
              (ValidationError "Endpoint not found") _);
      vm_compute; reflexivity.
  - vm_compute. reflexivity.
  - intros H500.
    destruct (proj2 (proj2 (proj2 (status_500_only_from_a_handler unit
                failing_handler stringified confirmed
                (to_endpoint "POST" "/api/auth/login" None) T0 T0 T0 T0 7
                empty_state))) H500)
      as (apiRequest & st' & h & message & Hv & Hr & _ & _ & Hthrown).
    vm_compute in Hv. injection Hv as <- _. vm_compute in Hr.
    injection Hr as <-. vm_compute in Hthrown.
    destruct Hthrown as [|[? []]]; discriminate.
Defined.

(** A run-time error in a handler of another module is answered with status
    500 and a fixed message. *)
Example handler_error_is_status_500 :
  reply_to (to_endpoint "POST" "/api/auth/register" None) T0 empty_state
  = Refused (createErrorResponse "Internal server error" "InternalServerError"
               500 7).
Proof. vm_compute. reflexivity. Qed.

(** A confirmed wipe is acknowledged. *)
Example confirmed_wipe_is_acknowledged :
  reply_to (to_endpoint "POST" "/api/wipe" (Some (JCompound "confirmed")))
    T0 empty_state
  = Secured (WipeInitiated T0).
Proof. vm_compute. reflexivity. Qed.

(** X13. Nothing that comes in through the handler is ever rejected with
    [MISSING_SIGNATURE]: a request that passes the parser has a signature
    header, and one that does not is stopped there. *)
Theorem missing_signature_is_unreachable
    (request : Request) (now_parse now_rate now_login : Z) (st : state)
    (message : string) :
  fst (validateIncoming request now_parse now_rate now_login st)
  <> inl (SecurityError message "MISSING_SIGNATURE").
Proof.
  destruct (validateIncoming request now_parse now_rate now_login st)
    as [[e|api] st'] eqn:Hv; [|discriminate].
  cbn [fst]. intros [= ->].
  destruct (validateIncoming_errors _ _ _ _ _ _ _ Hv)
    as [[m H]|[H|[H|[m H]]]]; discriminate.
Qed.

End RouterProofs.

(** ** Identifiers and colours *)
Module UtilsMoreProofs.
Import JS Numbers UtilsMore.

Lemma below (bound : nat) (P : N -> Prop) :
  Forall P (N.of_nat <$> seq 0 bound) ->
  forall v, (v < N.of_nat bound)%N -> P v.
Proof.
  intros HF v Hv. rewrite Forall_forall in HF. apply HF.
  apply list_elem_of_fmap. exists (N.to_nat v). split; [lia|].
  apply elem_of_seq. lia.
Qed.

Lemma hex_digit_is_hex v :
  (v < 16)%N -> SecurityManager.is_hex (ascii_of_N (digit_char v)) = true.
Proof.
  revert v. apply (below 16). refine (bool_decide_unpack _ _). vm_compute. exact I.
Qed.

Lemma variant_digit_is_variant v :
  (v < 16)%N ->
  SecurityManager.is_variant (ascii_of_N (digit_char (N.lor (N.land v 3) 8))) = true.
Proof.
  revert v. apply (below 16). refine (bool_decide_unpack _ _). vm_compute. exact I.
Qed.

(** X14. Every identifier [generateUUID] makes, whatever the random draws,
    has the shape the server demands of a session token:
    [SecurityManager.isValidSessionToken] accepts it. *)
Theorem generated_uuid_is_valid_session_token (random : nat -> N) :
  SecurityManager.isValidSessionToken (to_header (generateUUID random)) = true.
Proof.
  unfold SecurityManager.isValidSessionToken, to_header.
  rewrite list_ascii_of_string_of_list_ascii.
  unfold generateUUID.
  cbv [lit list_ascii_of_string map fill N_of_ascii N_of_digits N.eqb Pos.eqb
       N.add N.mul Pos.add Pos.mul Pos.succ].
  cbv [SecurityManager.matches_shape SecurityManager.uuid_shape repeat app].
  rewrite !hex_digit_is_hex by (apply N.mod_lt; discriminate).
  rewrite variant_digit_is_variant by (apply N.mod_lt; discriminate).
  reflexivity.
Qed.

(** *** Colours *)

Definition channel_reads_back (x : N) : Prop :=
  match channel x with
  | [c1; c2] =>
      is_hex_unit c1 = true /\ is_hex_unit c2 = true /\
      parseInt_radix 16 (map ascii_of_N [c1; c2]) = Some (Z.of_N x)
  | _ => False
  end.

#[local] Instance channel_reads_back_dec x : Decision (channel_reads_back x).
Proof. unfold channel_reads_back. destruct (channel x) as [|? [|? [|? ?]]]; apply _. Defined.

Lemma channel_ok x : (x < 256)%N -> channel_reads_back x.
Proof.
  revert x. apply (below 256). refine (bool_decide_unpack _ _). vm_compute. exact I.
Qed.

(** X15. [hexToRgb] reads back what [rgbToHex] wrote: for all channel values
    from 0 to 255, [hexToRgb(rgbToHex(r, g, b))] is the object with exactly
    those three values. *)
Theorem hexToRgb_rgbToHex (red green blue : N) :
  (red < 256)%N -> (green < 256)%N -> (blue < 256)%N ->
  hexToRgb (rgbToHex red green blue)
  = Some {| r := Z.of_N red; g := Z.of_N green; b := Z.of_N blue |}.
Proof.
  intros Hr Hg Hb. unfold rgbToHex.
  pose proof (channel_ok red Hr) as Cr. pose proof (channel_ok green Hg) as Cg.
  pose proof (channel_ok blue Hb) as Cb. unfold channel_reads_back in *.
  destruct (channel red) as [|c1 [|c2 [|? ?]]]; try contradiction.
  destruct (channel green) as [|c3 [|c4 [|? ?]]]; try contradiction.
  destruct (channel blue) as [|c5 [|c6 [|? ?]]]; try contradiction.
  destruct Cr as (H1 & H2 & Pr), Cg as (H3 & H4 & Pg), Cb as (H5 & H6 & Pb).
  cbn [app]. unfold hexToRgb. cbn [forallb].
  rewrite H1, H2, H3, H4, H5, H6. cbn [andb].
  rewrite Pr, Pg, Pb. reflexivity.
Qed.

Lemma hexToRgb_rgbToHex_witness :
  hexToRgb (rgbToHex 255 0 10) = Some {| r := 255; g := 0; b := 10 |}.
Proof. apply (hexToRgb_rgbToHex 255 0 10); reflexivity. Defined.

End UtilsMoreProofs.

(** ** Files, request signing and keys *)
Module CryptoManagerKeysProofs.
Import JS CryptoManager CryptoManagerKeys Base64Proofs Numbers UtilsMore.

(** *** What [atob] refuses *)

Lemma b64_values_rejects c s :
  In c s -> b64_value c = None -> b64_values s = None.
Proof.
  intros Hin Hc. induction s as [|x s IH]; [destruct Hin|].
  cbn [b64_values]. destruct Hin as [->|Hin].
  - by rewrite Hc.
  - rewrite (IH Hin). by destruct (b64_value x).
Qed.

Lemma strip_padding_keeps c s :
  In c s -> c <> pad -> In c (strip_padding s).
Proof.
  intros Hin Hc. unfold strip_padding.
  destruct (rev s) as [|p1 [|p2 r]] eqn:E; auto.
  destruct (N.eqb_spec p1 pad) as [H1|H1]; auto.
  apply in_rev in Hin. rewrite E in Hin.
  destruct Hin as [<-|Hin]; [congruence|].
  destruct (N.eqb_spec p2 pad) as [H2|H2].
  - destruct Hin as [<-|Hin]; [congruence|]. by apply in_rev in Hin.
  - by apply in_rev in Hin.
Qed.

(** A character that is neither white space, nor of the alphabet, nor the
    padding sign makes [atob] throw wherever it stands. *)
Lemma atob_rejects c s :
  In c s -> is_ascii_whitespace c = false -> b64_value c = None -> c <> pad ->
  atob s = None.
Proof.
  intros Hin Hw Hv Hp. unfold atob, forgiving_decode.
  set (data := List.filter _ s).
  assert (Hd : In c data).
  { apply filter_In. split; [exact Hin | by rewrite Hw]. }
  set (data' := if (length data mod 4 =? 0)%nat then strip_padding data else data).
  assert (Hd' : In c data').
  { subst data'. destruct (length data mod 4 =? 0)%nat; auto using strip_padding_keeps. }
  destruct (length data' mod 4 =? 1)%nat; [reflexivity|].
  by rewrite (b64_values_rejects c data' Hd' Hv).
Qed.

Lemma generateUUID_has_dash random : In 45%N (generateUUID random).
Proof.
  unfold generateUUID.
  cbv [lit list_ascii_of_string map fill N_of_ascii N_of_digits N.eqb Pos.eqb
       N.add N.mul Pos.add Pos.mul Pos.succ].
  cbn [In]. do 8 right. left. reflexivity.
Qed.

Lemma atob_generateUUID random : atob (generateUUID random) = None.
Proof.
  apply (atob_rejects 45); try reflexivity; [apply generateUUID_has_dash | discriminate].
Qed.

(** *** What the alphabet looks like to the server *)

Definition header_safe (c : N) : Prop :=
  (c < 256)%N /\ SecurityManager.urlsafe_to_std c = c.

#[local] Instance header_safe_dec c : Decision (header_safe c).
Proof. unfold header_safe. apply _. Defined.

Lemma b64_char_header_safe v : (v < 64)%N -> header_safe (b64_char v).
Proof.
  revert v. apply below_64. refine (bool_decide_unpack _ _). vm_compute. exact I.
Qed.

Lemma pad_header_safe : header_safe pad.
Proof. refine (bool_decide_unpack _ _). vm_compute. exact I. Qed.

Section Encoded.
Import BitLemmas.
#[local] Arguments b64_char : simpl never.

Lemma b64_encode_header_safe l :
  Forall octet l -> Forall header_safe (b64_encode l).
Proof.
  unfold octet.
  induction l as [|a|a b|a b c l IH] using list_ind3; intros Hl.
  - constructor.
  - inversion_clear Hl as [|? ? Ha _]. cbn [b64_encode].
    rewrite shiftr_2, land_3, shiftl_4.
    repeat constructor;
      try apply pad_header_safe; apply b64_char_header_safe; dlia.
  - inversion_clear Hl as [|? ? Ha Hl']. inversion_clear Hl' as [|? ? Hb _].
    cbn [b64_encode].
    rewrite shiftr_2, land_3, shiftr_4, land_15, shiftl_2.
    rewrite lor_shiftl_4 by dlia.
    repeat constructor;
      try apply pad_header_safe; apply b64_char_header_safe; dlia.
  - inversion_clear Hl as [|? ? Ha Hl']. inversion_clear Hl' as [|? ? Hb Hl''].
    inversion_clear Hl'' as [|? ? Hc Hl]. cbn [b64_encode].
    rewrite shiftr_2, land_3, shiftr_4, land_15, shiftr_6, land_63.
    rewrite lor_shiftl_4, lor_shiftl_2 by dlia.
    repeat (constructor; [apply b64_char_header_safe; dlia|]).
    by apply IH.
Qed.

End Encoded.

Lemma lit_to_header s :
  Forall (fun c => (c < 256)%N) s -> lit (to_header s) = s.
Proof.
  intros Hs. unfold lit, to_header. rewrite list_ascii_of_string_of_list_ascii.
  rewrite map_map. rewrite <- (map_id s) at 2.
  apply map_ext_in. intros c Hc. rewrite Forall_forall in Hs.
  apply N_ascii_embedding. apply Hs. by apply list_elem_of_In.
Qed.

Lemma length_to_header s : String.length (to_header s) = length s.
Proof.
  unfold to_header. induction s as [|c s IH]; [reflexivity|].
  cbn [map string_of_list_ascii String.length]. by rewrite IH.
Qed.

(** The server's format check accepts the base64 text of every non-empty
    buffer. *)
Lemma isValidSignatureFormat_encode buffer :
  buffer <> [] ->
  SecurityManager.isValidSignatureFormat
    (to_header (b64_encode (binary_of buffer))) = true.
Proof.
  intros Hne. unfold SecurityManager.isValidSignatureFormat.
  pose proof (b64_encode_header_safe _ (binary_of_octets buffer)) as Hsafe.
  rewrite lit_to_header by (eapply Forall_impl; [exact Hsafe | by intros c [Hc _]]).
  replace (map SecurityManager.urlsafe_to_std (b64_encode (binary_of buffer)))
    with (b64_encode (binary_of buffer)).
  2:{ rewrite <- (map_id (b64_encode _)) at 1. apply map_ext_in.
      intros c Hc. rewrite Forall_forall in Hsafe.
      symmetry. apply Hsafe. by apply list_elem_of_In. }
  rewrite atob_encode by apply binary_of_octets.
  rewrite length_to_header.
  destruct buffer as [|b1 [|b2 [|b3 rest]]]; [congruence| | |]; reflexivity.
Qed.

Section WithWebCrypto.
Context {wc : WebCrypto} {ws : WebCryptoSigning wc}.

Lemma generateHMAC_rejects data secret :
  atob secret = None ->
  generateHMAC data secret = Throw (Error "Failed to generate HMAC").
Proof.
  intros Hs. unfold generateHMAC, base64ToArrayBuffer. by rewrite Hs.
Qed.

(** X16. A file survives encryption and decryption whatever its bytes are:
    when [encryptFile] returns, [decryptFile] of its result with the same key
    and conversation returns the blob of the file's bytes and type. *)
Theorem file_round_trip `{!AeadCorrect wc} (file : File) (key : CryptoKey)
    (conversationId : jsstring) (iv_random salt_random : list byte)
    (encrypted : encryptedFile) :
  encryptFile file key conversationId iv_random salt_random = Return encrypted ->
  decryptFile encrypted key conversationId
  = Return (new_Blob (file_bytes file) (file_type file)).
Proof.
  unfold encryptFile. intros He.
  destruct (aes_gcm_encrypt key iv_random (TextEncoder_encode conversationId)
              (file_bytes file)) as [ct|e] eqn:Hct; [|discriminate].
  cbn [andThen] in He. rewrite !arrayBufferToBase64_returns in He.
  cbn [andThen try_catch] in He. injection He as <-.
  unfold decryptFile. cbn [encryptedData file_iv contentType].
  rewrite !base64ToArrayBuffer_encode. cbn [andThen].
  rewrite (decrypt_encrypt _ _ _ _ _ Hct). reflexivity.
Qed.

(** X17. No request can be signed with a session identifier: for every
    identifier [generateUUID] makes and every data, [generateHMAC] with the
    identifier as secret throws [Failed to generate HMAC], the identifier
    not being base64. *)
Theorem generateHMAC_refuses_generated_identifiers (random : nat -> N)
    (data : jsstring) :
  generateHMAC data (generateUUID random) = Throw (Error "Failed to generate HMAC").
Proof. apply generateHMAC_rejects, atob_generateUUID. Qed.

Lemma generateHMAC_returns data secret signature :
  generateHMAC data secret = Return signature ->
  exists buffer, signature = b64_encode (binary_of buffer).
Proof.
  unfold generateHMAC. intros H.
  destruct (andThen (base64ToArrayBuffer secret) importKey_hmac) as [k|]; [|discriminate].
  cbn [andThen] in H.
  destruct (hmac_sign k (TextEncoder_encode data)) as [buffer|]; [|discriminate].
  cbn [andThen] in H. rewrite arrayBufferToBase64_returns in H.
  injection H as <-. by exists buffer.
Qed.

(** X18. What the client signs with has the format the server demands: a
    non-empty signature returned by [generateHMAC], sent as a header, passes
    [SecurityManager.isValidSignatureFormat]. *)
Theorem generated_signature_has_valid_format (data secret signature : jsstring) :
  generateHMAC data secret = Return signature ->
  signature <> [] ->
  SecurityManager.isValidSignatureFormat (to_header signature) = true.
Proof.
  intros H Hne. apply generateHMAC_returns in H as (buffer & ->).
  apply isValidSignatureFormat_encode. by intros ->.
Qed.

Lemma signData_without_key this data :
  (forall k, keys this = Some k -> privateKeyObj k = None) ->
  signData this data = Throw (Error "Failed to sign data").
Proof.
  intros Hk. unfold signData.
  destruct (keys this) as [k|]; [|reflexivity].
  by rewrite (Hk k eq_refl).
Qed.

(** X19. A manager initialized from stored keys cannot sign: when the key
    store holds a pair, [initialize] returns and marks the manager
    initialized, and [signData] then throws [Failed to sign data] for every
    data, the private key object never being imported. *)
Theorem stored_keys_cannot_sign
    (generated : completion (CryptoKey * CryptoKey)) (this : client)
    (data : jsstring + list byte) :
  user_keys this <> None ->
  fst (initialize generated this) = Return tt /\
  initialized (snd (initialize generated this)) = true /\
  signData (snd (initialize generated this)) data
  = Throw (Error "Failed to sign data").
Proof.
  intros Hstored. unfold initialize, loadKeys.
  destruct (user_keys this) as [[pub priv]|]; [|congruence].
  repeat split.
Qed.

End WithWebCrypto.

(** *** Concrete runs, on the executable WebCrypto *)
Import ModelCrypto.

(** Signing prepends the key, as the model's verification expects; a raw
    HMAC key is its bytes. *)
#[export] Instance model_signing : WebCryptoSigning model :=
  {| rsa_pss_sign := fun key data => Return (key ++ data);
     importKey_hmac := fun bytes => Return bytes;
     hmac_sign := fun key data => Return (frame key ++ data);
     exportKey_spki := fun key => Return key;
     exportKey_pkcs8 := fun key => Return key |}.

Definition photo : File :=
  {| file_name := lit "a.png"; file_type := lit "image/png";
     file_bytes := [xff; xd8; x00; xef; xbb; xbf] |}.

Definition sealed_photo : encryptedFile :=
  Eval vm_compute in
    match encryptFile photo EnvelopeProofs.key1 (lit "conv_1")
            EnvelopeProofs.iv1 EnvelopeProofs.salt1 with
    | Return e => e
    | Throw _ =>
        {| filename := []; contentType := []; size := 0; encryptedData := [];
           file_iv := []; file_salt := []; file_algorithm := [] |}
    end.

Lemma file_round_trip_witness :
  encryptFile photo EnvelopeProofs.key1 (lit "conv_1")
    EnvelopeProofs.iv1 EnvelopeProofs.salt1 = Return sealed_photo /\
  decryptFile sealed_photo EnvelopeProofs.key1 (lit "conv_1")
  = Return {| blob_bytes := [xff; xd8; x00; xef; xbb; xbf];
              blob_type := lit "image/png" |}.
Proof.
  split.
  - vm_compute. reflexivity.
  - apply (file_round_trip (wc := model) photo EnvelopeProofs.key1 (lit "conv_1")
             EnvelopeProofs.iv1 EnvelopeProofs.salt1).
    vm_compute. reflexivity.
Defined.

Lemma generated_signature_has_valid_format_witness :
  SecurityManager.isValidSignatureFormat
    (to_header (lit "AaYB5gHlAYkAR0VUIC9hcGkvaGVhbHRo")) = true.
Proof.
  apply (generated_signature_has_valid_format (wc := model)
           (lit "GET /api/health") (lit "public")).
  - vm_compute. reflexivity.
  - discriminate.
Defined.

Definition returning_user : client :=
  {| keys := None; initialized := false;
     user_keys := Some (lit "cHVi", lit "cHJpdg==") |}.

Lemma stored_keys_cannot_sign_witness :
  fst (initialize (Return ([x01], [x02])) returning_user) = Return tt /\
  initialized (snd (initialize (Return ([x01], [x02])) returning_user)) = true /\
  signData (snd (initialize (Return ([x01], [x02])) returning_user))
    (inl (lit "session"))
  = Throw (Error "Failed to sign data").
Proof.
  apply (stored_keys_cannot_sign (wc := model)). discriminate.
Defined.

End CryptoManagerKeysProofs.

(** ** The time stamp, from the client's header to the server's number *)
Module TimestampProofs.
Import JS Numbers BitLemmas.

(** The number a sequence of decimal digits denotes, continuing [acc]. *)
Definition eval (ds : list N) (acc : Z) : Z :=
  fold_left (fun a d => a * 10 + Z.of_N d)%Z ds acc.

Definition decimal (d : N) : Prop := (d < 10)%N.

Lemma digits_fuel_app fuel n acc :
  digits_fuel fuel 10 n acc = digits_fuel fuel 10 n [] ++ acc.
Proof.
  revert n acc. induction fuel as [|fuel IH]; intros n acc; [reflexivity|].
  cbn [digits_fuel]. destruct (n / 10 =? 0)%N; [reflexivity|].
  rewrite (IH _ (_ :: acc)), (IH _ [_]), <- app_assoc. reflexivity.
Qed.

Lemma eval_snoc ds d acc : eval (ds ++ [d]) acc = (eval ds acc * 10 + Z.of_N d)%Z.
Proof. unfold eval. by rewrite fold_left_app. Qed.

Lemma digits_fuel_spec fuel n :
  (n < 2 ^ N.of_nat (S fuel))%N ->
  digits_fuel (S fuel) 10 n [] <> []
  /\ Forall decimal (digits_fuel (S fuel) 10 n [])
  /\ eval (digits_fuel (S fuel) 10 n []) 0 = Z.of_N n.
Proof.
  revert n. induction fuel as [|fuel IH]; intros n Hn.
  - change (2 ^ N.of_nat 1)%N with 2%N in Hn.
    cbn [digits_fuel]. replace (n / 10 =? 0)%N with true
      by (symmetry; apply N.eqb_eq; dlia).
    repeat split; [discriminate | repeat constructor; unfold decimal; dlia |].
    unfold eval. cbn [fold_left]. dlia.
  - remember (S fuel) as f eqn:Hf.
    cbn [digits_fuel]. destruct (N.eqb_spec (n / 10) 0%N) as [Hz|Hz].
    + repeat split; [discriminate | repeat constructor; unfold decimal; dlia |].
      unfold eval. cbn [fold_left]. dlia.
    + rewrite digits_fuel_app.
      assert (Hn' : (n / 10 < 2 ^ N.of_nat f)%N).
      { replace (N.of_nat (S f)) with (N.succ (N.of_nat f)) in Hn by lia.
        rewrite N.pow_succ_r' in Hn. dlia. }
      subst f. destruct (IH _ Hn') as (Hne & Hdec & Hev).
      repeat split.
      * intros Happ. by apply app_eq_nil in Happ as [_ ?].
      * apply Forall_app. split; [exact Hdec|].
        repeat constructor. unfold decimal. dlia.
      * rewrite eval_snoc, Hev. dlia.
Qed.

Lemma digits_spec n :
  digits 10 n <> [] /\ Forall decimal (digits 10 n)
  /\ eval (digits 10 n) 0 = Z.of_N n.
Proof.
  unfold digits. apply digits_fuel_spec.
  destruct (N.eq_dec n 0%N) as [->|Hn]; [reflexivity|].
  replace (N.of_nat (S (N.to_nat (N.log2 n)))) with (N.succ (N.log2 n)) by lia.
  apply N.log2_spec. lia.
Qed.

Definition chars (ds : list N) : list ascii := map ascii_of_N (map digit_char ds).

Lemma decimal_cases d :
  decimal d ->
  d = 0%N \/ d = 1%N \/ d = 2%N \/ d = 3%N \/ d = 4%N \/ d = 5%N \/ d = 6%N
  \/ d = 7%N \/ d = 8%N \/ d = 9%N.
Proof. unfold decimal. lia. Qed.

Ltac each_decimal H :=
  apply decimal_cases in H;
  destruct H as [->|[->|[->|[->|[->|[->|[->|[->|[->| ->]]]]]]]]].

Lemma digit_value_decimal d :
  decimal d ->
  Handlers.digit_value 10 (ascii_of_N (digit_char d)) = Some (Z.of_N d).
Proof. intros H. each_decimal H; reflexivity. Qed.

Lemma parse_digits_eval ds acc :
  Forall decimal ds ->
  Handlers.parse_digits 10 acc (chars ds)
  = match ds with [] => acc | _ => Some (eval ds (default 0%Z acc)) end.
Proof.
  intros Hds. revert acc. induction Hds as [|d ds Hd _ IH]; intros acc; [reflexivity|].
  unfold chars. cbn [map Handlers.parse_digits].
  rewrite (digit_value_decimal d Hd). fold (chars ds). rewrite IH.
  destruct ds; reflexivity.
Qed.

(** Neither a sign, nor white space, nor the prefix [0x] stands in front of
    decimal digits. *)
Lemma parseInt_decimal ds :
  ds <> [] -> Forall decimal ds ->
  Handlers.parseInt (string_of_list_ascii (chars ds))
  = option_map Handlers.to_double (Handlers.parse_digits 10 None (chars ds)).
Proof.
  intros Hne Hds. unfold Handlers.parseInt.
  rewrite list_ascii_of_string_of_list_ascii.
  destruct Hds as [|d1 rest H1 Hrest]; [congruence|].
  assert (Hid : forall o : option Z,
            option_map (fun mathInt => Handlers.to_double (1 * mathInt)%Z) o
            = option_map Handlers.to_double o).
  { intros [z|]; [|reflexivity]. cbn [option_map]. do 2 f_equal. lia. }
  rewrite <- (Hid (Handlers.parse_digits 10 None _)).
  each_decimal H1; try reflexivity.
  destruct Hrest as [|d2 rest H2 Hrest]; [reflexivity|].
  each_decimal H2; reflexivity.
Qed.

(** A Number that is an integer below [2 ^ 53] in size is that integer. *)
Lemma to_double_exact z :
  (Z.abs z < 2 ^ 53)%Z -> Handlers.to_double z = z.
Proof.
  intros Hz. unfold Handlers.to_double.
  by replace (Z.abs z <? 2 ^ 53)%Z with true by (symmetry; apply Z.ltb_lt; lia).
Qed.

(** X20. The server reads the client's clock exactly: [parseInt], applied to
    the [X-Timestamp] header that [makeSecureRequest] writes with
    [timestamp.toString()], is the time stamp itself. *)
Theorem timestamp_header_round_trip (timestamp : Z) :
  (0 <= timestamp < 2 ^ 53)%Z ->
  Handlers.parseInt (to_header (toString_Z timestamp)) = Some timestamp.
Proof.
  intros [Hlo Hhi]. unfold toString_Z.
  replace (timestamp <? 0)%Z with false by (symmetry; apply Z.ltb_ge; lia).
  unfold to_header, toString.
  destruct (digits_spec (Z.to_N timestamp)) as (Hne & Hdec & Hev).
  fold (chars (digits 10 (Z.to_N timestamp))).
  rewrite parseInt_decimal, parse_digits_eval by assumption.
  destruct (digits 10 (Z.to_N timestamp)); [congruence|].
  cbn [default option_map]. rewrite Hev, to_double_exact by lia. f_equal. lia.
Qed.

Lemma timestamp_header_round_trip_witness :
  Handlers.parseInt (to_header (toString_Z 1700000000000)) = Some 1700000000000%Z.
Proof. apply (timestamp_header_round_trip 1700000000000). lia. Defined.

End TimestampProofs.

(** ** Sessions: what a signed-in client can still do *)
Module AuthSessionsProofs.
Import JS CryptoManager CryptoManagerKeys Numbers UtilsMore AuthSessions.
Import Base64Proofs CryptoManagerKeysProofs.

Section WithPlatform.
Context {wc : WebCrypto} {ws : WebCryptoSigning wc} {platform : Platform}.

Definition HMAC_FAILED : exn := Error "Failed to generate HMAC".

(** The manager apart from the requests it has sent. *)
Definition same_but_sent (this this' : auth) : Prop :=
  crypto this' = crypto this /\ session this' = session this
  /\ captchaTokens this' = captchaTokens this
  /\ current_session this' = current_session this
  /\ localStorage this' = localStorage this.

(** A session identifier that is not base64 stops the request at the
    signature. *)
Lemma makeSecureRequest_unsignable path method body timestamp nonce_random
    token_now random36 this s :
  session this = Some s ->
  atob (sessionId s) = None ->
  makeSecureRequest path method body timestamp nonce_random token_now random36 this
  = (Throw HMAC_FAILED, this).
Proof.
  intros Hs Hid. unfold makeSecureRequest, bind, lift, read, generateNonce.
  rewrite arrayBufferToBase64_returns, Hs.
  rewrite generateHMAC_rejects by exact Hid. reflexivity.
Qed.

Lemma makeSecureRequest_with_session path method body timestamp nonce_random
    token_now random36 this s random :
  session this = Some s ->
  sessionId s = generateUUID random ->
  makeSecureRequest path method body timestamp nonce_random token_now random36 this
  = (Throw HMAC_FAILED, this).
Proof.
  intros Hs Hid. apply (makeSecureRequest_unsignable _ _ _ _ _ _ _ _ s Hs).
  rewrite Hid. apply atob_generateUUID.
Qed.

Lemma makeSecureRequest_frame path method body timestamp nonce_random
    token_now random36 this :
  same_but_sent this
    (snd (makeSecureRequest path method body timestamp nonce_random
            token_now random36 this)).
Proof.
  unfold makeSecureRequest, bind, lift, read, update, throw, generateNonce.
  rewrite arrayBufferToBase64_returns.
  destruct (generateHMAC _ _) as [sig|e]; [|by repeat split].
  destruct (fetch _ _) as [resp|e]; [|by repeat split].
  destruct (negb (ok resp)); by repeat split.
Qed.

Lemma createSession_without_key user random now_expiry now_created fp ip this :
  (forall k, keys (crypto this) = Some k -> privateKeyObj k = None) ->
  exists e,
    createSession user random now_expiry now_created fp ip this = (Throw e, this).
Proof.
  intros Hk. unfold createSession, bind, lift, read, throw.
  destruct user as [u|]; [|eauto].
  destruct fp as [f|e]; [|eauto].
  rewrite (signData_without_key _ _ Hk). eauto.
Qed.

Lemma createSession_returns user random now_expiry now_created fp ip this s this' :
  createSession user random now_expiry now_created fp ip this = (Return s, this') ->
  this' = this /\ sessionId s = generateUUID random
  /\ expiresAt s = (now_expiry + 86400000)%Z
  /\ cloneable (fingerprint s) = false.
Proof.
  unfold createSession, bind, lift, read, throw, ret.
  destruct user as [u|]; [|discriminate].
  destruct fp as [f|e]; [|discriminate].
  destruct (signData _ _) as [sig|e]; [|discriminate].
  intros [= <- <-]. repeat split.
Qed.

(** [createSession] leaves the manager as it is, also when it throws. *)
Lemma createSession_state user random now_expiry now_created fp ip this :
  snd (createSession user random now_expiry now_created fp ip this) = this.
Proof.
  unfold createSession, bind, lift, read, throw, ret.
  destruct user as [u|]; [|reflexivity].
  destruct fp as [f|e]; [|reflexivity].
  by destruct (signData _ _).
Qed.

(** X21. A signed-in client cannot make a request: with a session whose
    identifier [generateUUID] made, [makeSecureRequest] throws
    [Failed to generate HMAC] for every path, method and body; nothing is
    passed to [fetch] and the manager is unchanged. *)
Theorem signed_in_client_sends_nothing (path method : jsstring)
    (body : option value) (timestamp : Z) (nonce_random : list byte)
    (token_now : Z) (random36 : jsstring) (this : auth) (s : Session)
    (random : nat -> N) :
  session this = Some s ->
  sessionId s = generateUUID random ->
  makeSecureRequest path method body timestamp nonce_random token_now random36 this
  = (Throw (Error "Failed to generate HMAC"), this).
Proof.
  intros Hs Hid. unfold makeSecureRequest, bind, lift, read, generateNonce.
  rewrite arrayBufferToBase64_returns, Hs, Hid.
  rewrite generateHMAC_rejects by apply atob_generateUUID. reflexivity.
Qed.

(** X22. Logging out never reaches the server: [logout] returns with the
    session and its stored copy cleared and everything else as before; in
    particular no request has been passed to [fetch]. *)
Theorem logout_never_reaches_the_server (timestamp : Z) (nonce_random : list byte)
    (token_now : Z) (random36 : jsstring) (this : auth) (random : nat -> N) :
  (forall s, session this = Some s -> sessionId s = generateUUID random) ->
  logout timestamp nonce_random token_now random36 this
  = (Return tt, set_session None (set_current_session None this)).
Proof.
  intros Hissued. unfold logout, catch, bind, read.
  destruct (session this) as [s|] eqn:Hs; [|reflexivity].
  rewrite (makeSecureRequest_with_session _ _ _ _ _ _ _ _ s random Hs (Hissued s eq_refl)).
  reflexivity.
Qed.

(** X23. An account cannot be wiped: whatever is typed at the prompt,
    [wipeAccount] throws and leaves the manager, its keys, its stores and
    the server untouched. *)
Theorem wipeAccount_never_wipes (confirmation : option jsstring) (timestamp : Z)
    (nonce_random : list byte) (token_now : Z) (random36 : jsstring)
    (this : auth) (random : nat -> N) :
  (forall s, session this = Some s -> sessionId s = generateUUID random) ->
  exists e,
    wipeAccount confirmation timestamp nonce_random token_now random36 this
    = (Throw e, this).
Proof.
  intros Hissued. unfold wipeAccount, bind, read, throw.
  destruct (session this) as [s|] eqn:Hs; [|eauto].
  destruct (negb _); [eauto|].
  rewrite (makeSecureRequest_with_session _ _ _ _ _ _ _ _ s random Hs (Hissued s eq_refl)).
  eauto.
Qed.

(** X24. A stored session is never restored by a manager without keys, as
    every manager is until [register] runs: [checkSession] returns [null],
    the stored session is deleted, and [this.session] stays as it was. *)
Theorem checkSession_without_keys (now : Z) (this : auth) :
  keys (crypto this) = None ->
  checkSession now this = (Return None, set_current_session None this).
Proof.
  intros Hk. unfold checkSession, catch, bind, loadSession, read.
  destruct (current_session this) as [s|] eqn:Hs.
  - destruct (expiresAt s <? now)%Z; [reflexivity|].
    unfold validateSessionIntegrity, catch, bind, read, lift, getPublicKey.
    rewrite Hk. reflexivity.
  - unfold ret, set_current_session. destruct this. cbn in *. by subst.
Qed.

(** X25. Nobody can sign in with a manager that has no private key object
    (one never initialized, or initialized from stored keys): [login] throws
    for every input and every answer of the server, and neither
    [this.session] nor the stored session is set. *)
Theorem login_without_private_key (username : jsstring) (captcha : AuthManager.answer)
    (captchaToken : jsstring) (captcha_now timestamp : Z) (nonce_random : list byte)
    (token_now : Z) (random36 : jsstring) (random : nat -> N)
    (now_expiry now_created : Z) (digest : completion jsstring) (ip : jsstring)
    (this : auth) :
  (forall k, keys (crypto this) = Some k -> privateKeyObj k = None) ->
  exists e this',
    login username captcha captchaToken captcha_now timestamp nonce_random
      token_now random36 random now_expiry now_created digest ip this = (Throw e, this')
    /\ session this' = session this
    /\ current_session this' = current_session this.
Proof.
  intros Hk. unfold login, bind, validateCaptcha.
  destruct (AuthManager.validateCaptcha _ _ _ _ _) as [isValid tokens].
  destruct isValid; cbn [negb]; [|unfold throw; eauto].
  set (this1 := set_captchaTokens tokens this).
  pose proof (makeSecureRequest_frame (lit "/api/auth/login") (lit "POST")
    (Some (Obj [("username"%string, Str username);
                ("captcha"%string,
                 match captcha with
                 | AuthManager.Text s => Str s
                 | AuthManager.Other _ => Opaque
                 end);
                ("captchaToken"%string, Str captchaToken)]))
    timestamp nonce_random token_now random36 this1) as Hframe.
  destruct (makeSecureRequest _ _ _ _ _ _ _ this1) as [[resp|e] this2];
    cbn [snd] in Hframe; destruct Hframe as (Hc & Hsess & _ & Hcur & _).
  2:{ exists e, this2. auto. }
  destruct (success resp); [|unfold throw; eauto].
  destruct (createSession_without_key (reply_user resp) random now_expiry
              now_created digest ip this2) as (e & ->).
  { intros k. rewrite Hc. apply Hk. }
  exists e, this2. auto.
Qed.

(** X26. Nobody can sign in at all: [login] throws for every input, every
    manager and every answer of the server, and stores no session. Where it
    gets as far as a session -- the server has accepted and the session is
    signed -- it throws [Failed to save session], the promise kept as the
    session's fingerprint not being storable; [this.session] is then set all
    the same, and from there on every [makeSecureRequest] throws
    [Failed to generate HMAC] and sends nothing. *)
Theorem login_never_returns (username : jsstring) (captcha : AuthManager.answer)
    (captchaToken : jsstring) (captcha_now timestamp : Z) (nonce_random : list byte)
    (token_now : Z) (random36 : jsstring) (random : nat -> N)
    (now_expiry now_created : Z) (digest : completion jsstring) (ip : jsstring)
    (this : auth) :
  exists e this',
    login username captcha captchaToken captcha_now timestamp nonce_random
      token_now random36 random now_expiry now_created digest ip this = (Throw e, this')
    /\ current_session this' = current_session this
    /\ (session this' = session this
        \/ (e = Error "Failed to save session"
            /\ exists s,
                 session this' = Some s
                 /\ sessionId s = generateUUID random
                 /\ forall path method body timestamp' nonce_random' token_now'
                           random36',
                      makeSecureRequest path method body timestamp' nonce_random'
                        token_now' random36' this'
                      = (Throw (Error "Failed to generate HMAC"), this'))).
Proof.
  unfold login, bind, validateCaptcha.
  destruct (AuthManager.validateCaptcha _ _ _ _ _) as [isValid tokens].
  destruct isValid; cbn [negb]; [|unfold throw; eauto 6].
  set (this1 := set_captchaTokens tokens this).
  pose proof (makeSecureRequest_frame (lit "/api/auth/login") (lit "POST")
    (Some (Obj [("username"%string, Str username);
                ("captcha"%string,
                 match captcha with
                 | AuthManager.Text s => Str s
                 | AuthManager.Other _ => Opaque
                 end);
                ("captchaToken"%string, Str captchaToken)]))
    timestamp nonce_random token_now random36 this1) as Hframe.
  destruct (makeSecureRequest _ _ _ _ _ _ _ this1) as [[resp|e] this2];
    cbn [snd] in Hframe; destruct Hframe as (Hc & Hsess & _ & Hcur & _).
  2:{ exists e, this2. auto. }
  destruct (success resp); [|unfold throw; eauto 6].
  pose proof (createSession_state (reply_user resp) random now_expiry
                now_created digest ip this2) as Hstate.
  destruct (createSession _ _ _ _ _ _ this2) as [[s|e] this3] eqn:Hcreate;
    cbn [snd] in Hstate; subst this3.
  2:{ exists e, this2. auto. }
  apply createSession_returns in Hcreate as (_ & Hid & _ & Hclone).
  unfold update, saveSession. rewrite Hclone. unfold throw.
  exists (Error "Failed to save session"), (set_session (Some s) this2).
  split; [reflexivity|]. split; [exact Hcur|]. right.
  split; [reflexivity|]. exists s. split; [reflexivity|]. split; [exact Hid|].
  intros path method body timestamp' nonce_random' token_now' random36'.
  by apply (makeSecureRequest_with_session _ _ _ _ _ _ _ _ s random).
Qed.

End WithPlatform.

(** *** Concrete runs *)
Import ModelCrypto.

(** A server that accepts everything. *)
#[export] Instance model_platform : Platform :=
  {| JSON_stringify := fun _ => lit "{}";
     toLowerCase := CaptchaProofs.ascii_lower;
     fetch := fun _ _ =>
       Return {| ok := true; status := 200; statusText := "OK";
                 json := Return {| success := true;
                                   reply_user := Some {| id := lit "u1";
                                                         username := lit "alice" |};
                                   reply_error := None |} |} |}.

Definition draws (i : nat) : N := N.of_nat i.

Definition alice_session : Session :=
  {| sessionId := generateUUID draws; userId := lit "u1";
     session_username := lit "alice"; session_createdAt := 1000;
     expiresAt := 86401000; fingerprint := Stored (lit "f00d"); ip := lit "unknown";
     user := {| id := lit "u1"; username := lit "alice" |};
     signature := lit "c2ln" |}.

Definition signed_in : auth :=
  set_session (Some alice_session) (new_AuthManager None (Some alice_session) ∅ []).

Lemma signed_in_client_sends_nothing_witness :
  makeSecureRequest (lit "/api/forum/posts") (lit "GET") None 2000 [x01] 2000
    (lit "0.4fzyo82mvyr") signed_in
  = (Throw (Error "Failed to generate HMAC"), signed_in).
Proof.
  apply (signed_in_client_sends_nothing (wc := model) _ _ _ _ _ _ _ signed_in
           alice_session draws); reflexivity.
Defined.

Lemma logout_never_reaches_the_server_witness :
  logout 2000 [x01] 2000 (lit "0.4fzyo82mvyr") signed_in
  = (Return tt, set_session None (set_current_session None signed_in)).
Proof.
  apply (logout_never_reaches_the_server (wc := model) _ _ _ _ signed_in draws).
  intros s [= <-]. reflexivity.
Defined.

Lemma wipeAccount_never_wipes_witness :
  exists e,
    wipeAccount (Some (lit "WIPE_EVERYTHING")) 2000 [x01] 2000
      (lit "0.4fzyo82mvyr") signed_in
    = (Throw e, signed_in).
Proof.
  apply (wipeAccount_never_wipes (wc := model) _ _ _ _ _ signed_in draws).
  intros s [= <-]. reflexivity.
Defined.

Lemma checkSession_without_keys_witness :
  checkSession 2000 (new_AuthManager None (Some alice_session) ∅ [])
  = (Return None, new_AuthManager None None ∅ []).
Proof.
  apply (checkSession_without_keys (wc := model) 2000
           (new_AuthManager None (Some alice_session) ∅ [])).
  reflexivity.
Defined.

(** A manager as its constructor leaves it, after [getCaptcha] has stored a
    challenge. *)
Definition challenged : auth :=
  set_captchaTokens
    (AuthManager.storeCaptcha (lit "tok") (lit "what?") (Some (lit "x7k2")) 1000 ∅)
    (new_AuthManager None None ∅ []).

(** The CAPTCHA is answered and the server accepts the login; the session
    cannot be signed, and [login] throws with no session set. *)
Lemma login_without_private_key_witness :
  fst (login (lit "alice") (AuthManager.Text (lit "X7K2")) (lit "tok") 1500 2000
         [x01] 2000 (lit "0.4fzyo82mvyr") draws 2000 2000 (Return (lit "f00d"))
         (lit "unknown") challenged)
  = Throw (Error "Failed to sign data")
  /\ length (sent (snd (login (lit "alice") (AuthManager.Text (lit "X7K2"))
                          (lit "tok") 1500 2000 [x01] 2000 (lit "0.4fzyo82mvyr")
                          draws 2000 2000 (Return (lit "f00d")) (lit "unknown")
                          challenged))) = 1%nat
  /\ exists e this',
       login (lit "alice") (AuthManager.Text (lit "X7K2")) (lit "tok") 1500 2000
         [x01] 2000 (lit "0.4fzyo82mvyr") draws 2000 2000 (Return (lit "f00d"))
         (lit "unknown") challenged = (Throw e, this')
       /\ session this' = session challenged
       /\ current_session this' = current_session challenged.
Proof.
  split; [vm_compute; reflexivity|]. split; [vm_compute; reflexivity|].
  apply (login_without_private_key (wc := model)).
  intros k. discriminate.
Defined.

(** A manager whose [CryptoManager] has generated its keys, as [register]
    makes it, and which holds a challenge: here the session is made and
    signed, and storing it fails. *)
Definition registered : auth :=
  set_crypto
    (snd (initialize (Return ([x01], [x02]))
            {| keys := None; initialized := false; user_keys := None |}))
    challenged.

Lemma login_fails_to_save_session :
  fst (login (lit "alice") (AuthManager.Text (lit "X7K2")) (lit "tok") 1500 2000
         [x01] 2000 (lit "0.4fzyo82mvyr") draws 2000 2000 (Return (lit "f00d"))
         (lit "unknown") registered)
  = Throw (Error "Failed to save session")
  /\ option_map sessionId
       (session (snd (login (lit "alice") (AuthManager.Text (lit "X7K2"))
                        (lit "tok") 1500 2000 [x01] 2000 (lit "0.4fzyo82mvyr")
                        draws 2000 2000 (Return (lit "f00d")) (lit "unknown")
                        registered)))
     = Some (generateUUID draws)
  /\ current_session
       (snd (login (lit "alice") (AuthManager.Text (lit "X7K2"))
               (lit "tok") 1500 2000 [x01] 2000 (lit "0.4fzyo82mvyr")
               draws 2000 2000 (Return (lit "f00d")) (lit "unknown")
               registered))
     = None.
Proof. repeat split; vm_compute; reflexivity. Qed.

End AuthSessionsProofs.

(** ** Escaping and translation *)
Module UtilsEscapeProofs.
Import JS UtilsEscape.

Lemma replace_all_self c s : replace_all c [c] s = s.
Proof.
  unfold replace_all. induction s as [|x s IH]; [reflexivity|].
  cbn [flat_map]. rewrite IH.
  destruct (N.eqb_spec x c) as [->|]; reflexivity.
Qed.

(** X27. [sanitizeHTML] changes apostrophes only: every other character of
    the string, the signs [<], [>], [&] and the double quote among them, is
    copied to the result as it is. *)
Theorem sanitizeHTML_escapes_apostrophes_only (s : jsstring) :
  sanitizeHTML (Some s) = replace_all 39 (lit "&#39;") s.
Proof.
  unfold sanitizeHTML.
  change (lit "&") with [38%N]. change (lit "<") with [60%N].
  change (lit ">") with [62%N].
  by rewrite !replace_all_self.
Qed.

End UtilsEscapeProofs.

Module I18nProofs.
Import JS I18n.

Lemma Map_get_set_same {V} (m : list (jsstring * V)) k v :
  Map_get (Map_set m k v) k = Some v.
Proof.
  induction m as [|[k' v'] m IH]; cbn [Map_set Map_get].
  - by rewrite bool_decide_eq_true_2.
  - destruct (decide (k' = k)) as [->|Hne].
    + rewrite bool_decide_eq_true_2 by reflexivity. cbn [Map_get].
      by rewrite bool_decide_eq_true_2.
    + rewrite bool_decide_eq_false_2 by exact Hne. cbn [Map_get].
      by rewrite bool_decide_eq_false_2.
Qed.

Lemma Map_get_set_other {V} (m : list (jsstring * V)) k v k' :
  k <> k' -> Map_get (Map_set m k v) k' = Map_get m k'.
Proof.
  intros Hne. induction m as [|[k0 v0] m IH]; cbn [Map_set Map_get].
  - by rewrite bool_decide_eq_false_2.
  - destruct (decide (k0 = k)) as [->|Hk].
    + rewrite bool_decide_eq_true_2 by reflexivity. cbn [Map_get].
      by rewrite !bool_decide_eq_false_2.
    + rewrite (bool_decide_eq_false_2 (k0 = k)) by exact Hk. cbn [Map_get].
      by rewrite IH.
Qed.

Lemma Map_has_set {V} (m : list (jsstring * V)) k v k' :
  Map_has m k' = true -> Map_has (Map_set m k v) k' = true.
Proof.
  unfold Map_has. destruct (decide (k = k')) as [->|Hne].
  - by rewrite Map_get_set_same.
  - by rewrite Map_get_set_other.
Qed.

(** What can happen to a translator after its construction. *)
Inductive action : Type :=
| Switch (code : jsstring)
| Load (code : jsstring) (source : pack_source).

Definition perform (this : i18n) (a : action) : i18n :=
  match a with
  | Switch code => snd (switchLanguage code this)
  | Load code source => loadLanguagePack code source this
  end.

Definition run (actions : list action) (this : i18n) : i18n :=
  fold_left perform actions this.

Definition has_fallback (this : i18n) : Prop :=
  Map_has (languages this) fallbackLanguage = true.

Lemma loadLanguagePack_fallback code source this :
  has_fallback this -> has_fallback (loadLanguagePack code source this).
Proof. unfold has_fallback. cbn [loadLanguagePack languages]. apply Map_has_set. Qed.

Lemma perform_fallback this a : has_fallback this -> has_fallback (perform this a).
Proof.
  destruct a as [code|code source]; [|apply loadLanguagePack_fallback].
  unfold has_fallback, perform, switchLanguage.
  by destruct (Map_get (languages this) code).
Qed.

Lemma run_fallback actions this : has_fallback this -> has_fallback (run actions this).
Proof.
  revert this. induction actions as [|a actions IH]; intros this H; [exact H|].
  apply IH, perform_fallback, H.
Qed.

Lemma initialize_fallback english arabic chinese russian env this :
  has_fallback (snd (initialize english arabic chinese russian env this)).
Proof.
  assert (H : has_fallback
    (loadLanguagePack (lit "ru") russian
      (loadLanguagePack (lit "zh") chinese
         (loadLanguagePack (lit "ar") arabic
            (loadLanguagePack (lit "en") english this))))).
  { do 3 apply loadLanguagePack_fallback.
    unfold has_fallback, Map_has. cbn [loadLanguagePack languages].
    unfold fallbackLanguage. by rewrite Map_get_set_same. }
  unfold initialize. by destruct (detectLanguage env _).
Qed.

(** A truthy reading, or the key itself. *)
Definition answer (key : jsstring) (r : property) : Prop :=
  r = Own key \/ truthy (Some r) = true.

Lemma t_with_fallback this key lang fuel :
  has_fallback this ->
  exists r, t (2 + fuel) this key lang = Some r /\ answer key r.
Proof.
  unfold has_fallback, Map_has, answer. intros Hfb.
  destruct (Map_get (languages this) fallbackLanguage) as [fallbackPack|] eqn:Hen;
    [clear Hfb | discriminate].
  assert (Hpack : forall pack,
    exists r,
      (if truthy (get_property (translations pack) key)
       then get_property (translations pack) key
       else if truthy (get_property (translations fallbackPack) key)
            then get_property (translations fallbackPack) key
            else Some (Own key)) = Some r
      /\ (r = Own key \/ truthy (Some r) = true)).
  { intros pack.
    destruct (get_property (translations pack) key) as [p|] eqn:Hp.
    - destruct (truthy (Some p)) eqn:Htp; [eauto|].
      destruct (get_property (translations fallbackPack) key) as [q|] eqn:Hq.
      + destruct (truthy (Some q)) eqn:Htq; eauto.
      + cbn [truthy]. eauto.
    - cbn [truthy].
      destruct (get_property (translations fallbackPack) key) as [q|] eqn:Hq.
      + destruct (truthy (Some q)) eqn:Htq; eauto.
      + cbn [truthy]. eauto. }
  change (2 + fuel)%nat with (S (S fuel)). cbn [t].
  destruct (Map_get (languages this) (or_current lang this)) as [pack|].
  - rewrite Hen. apply Hpack.
  - change (or_current (Some fallbackLanguage) this) with fallbackLanguage.
    rewrite Hen. apply Hpack.
Qed.

(** X28. Once [initialize] has run, [t] answers every call, whatever
    languages are switched to or loaded afterwards: two levels of calls
    suffice, and the answer is a translation or the key itself. *)
Theorem t_answers_once_initialized (english arabic chinese russian : pack_source)
    (env : surroundings) (start : i18n) (actions : list action)
    (key : jsstring) (lang : option jsstring) (fuel : nat) :
  exists r,
    t (2 + fuel)
      (run actions (snd (initialize english arabic chinese russian env start)))
      key lang = Some r
    /\ answer key r.
Proof. apply t_with_fallback, run_fallback, initialize_fallback. Qed.

(** X29. Without the English pack, [t] asked for a language that has no
    pack never answers: it calls itself again at every depth. So it is for
    every call before [initialize]. *)
Theorem t_never_answers_without_fallback (this : i18n) (key : jsstring)
    (lang : option jsstring) (fuel : nat) :
  Map_get (languages this) (or_current lang this) = None ->
  Map_get (languages this) fallbackLanguage = None ->
  t fuel this key lang = None.
Proof.
  intros Hlang Hen. revert lang Hlang.
  induction fuel as [|fuel IH]; intros lang Hlang; [reflexivity|].
  cbn [t]. rewrite Hlang. apply IH. exact Hen.
Qed.

Lemma t_never_answers_without_fallback_witness :
  t 1000 (new_i18n (lit "en") (lit "ltr") false None) (lit "nav_home") None = None.
Proof.
  apply (t_never_answers_without_fallback
           (new_i18n (lit "en") (lit "ltr") false None) (lit "nav_home") None 1000);
    reflexivity.
Defined.

(** *** The server's translator *)

Lemma server_packs table n1 n2 n3 n4 start lang :
  In lang [lit "en"; lit "ar"; lit "zh"; lit "ru"] ->
  exists pack,
    Map_get (ServerI18n.languages (ServerI18n.initialize table n1 n2 n3 n4 start)) lang
    = Some pack
    /\ translations pack = table.
Proof.
  intros Hin. unfold ServerI18n.initialize, ServerI18n.loadLanguagePack.
  cbn [ServerI18n.languages ServerI18n.currentLanguage].
  destruct Hin as [<-|[<-|[<-|[<-|[]]]]].
  - rewrite !Map_get_set_other by discriminate. rewrite Map_get_set_same. eauto.
  - rewrite !Map_get_set_other by discriminate. rewrite Map_get_set_same. eauto.
  - rewrite !Map_get_set_other by discriminate. rewrite Map_get_set_same. eauto.
  - rewrite Map_get_set_same. eauto.
Qed.

(** X30. The server translates into English only: after [initialize], [t]
    gives for Arabic, Chinese and Russian what it gives for English, every
    pack having been loaded with the one table of [loadTranslations]. *)
Theorem server_translates_into_english_only (table : gmap jsstring jsstring)
    (n1 n2 n3 n4 : jsstring) (start this : ServerI18n.i18n)
    (key lang : jsstring) :
  ServerI18n.languages this
  = ServerI18n.languages (ServerI18n.initialize table n1 n2 n3 n4 start) ->
  In lang [lit "en"; lit "ar"; lit "zh"; lit "ru"] ->
  ServerI18n.t this key (Some lang) = ServerI18n.t this key (Some (lit "en")).
Proof.
  intros Hl Hin. unfold ServerI18n.t. rewrite Hl.
  destruct (server_packs table n1 n2 n3 n4 start lang Hin) as (pack & Hp & Ht).
  destruct (server_packs table n1 n2 n3 n4 start (lit "en")) as (en & He & Hte);
    [by left|].
  assert (Hlang : match lang with [] => ServerI18n.currentLanguage this
                  | c :: l => c :: l end = lang).
  { destruct Hin as [<-|[<-|[<-|[<-|[]]]]]; reflexivity. }
  assert (Hen : forall d : jsstring,
            match lit "en" with [] => d | c :: l => c :: l end = lit "en")
    by reflexivity.
  rewrite Hlang, Hen, Hp, He, Ht, Hte. reflexivity.
Qed.

Definition sample_table : gmap jsstring jsstring :=
  {[ lit "nav_home" := lit "Home" ]}.

Lemma server_translates_into_english_only_witness :
  ServerI18n.t
    (ServerI18n.initialize sample_table [] [] [] [] ServerI18n.start)
    (lit "nav_home") (Some (lit "ar"))
  = ServerI18n.t
      (ServerI18n.initialize sample_table [] [] [] [] ServerI18n.start)
      (lit "nav_home") (Some (lit "en")).
Proof.
  apply (server_translates_into_english_only sample_table [] [] [] []
           ServerI18n.start); [reflexivity|].
  right. left. reflexivity.
Defined.

End I18nProofs.
